(** * VSync dispatch and SensorManager: a shallow embedding

    Sources embedded here:
    - [services/surfaceflinger/tests/unittests/VSyncDispatchRealtimeTest.cpp]:
      the stub trackers, [RepeatingCallbackReceiver] and the three tests;
    - [libs/sensor/SensorManager.cpp]: the per-package registry, service
      death and recovery, the sensor lists and name cache, the direct
      channels and [waitForSensorService].

    The dispatch engine ([VSyncDispatchTimerQueue]) and the Timer are used
    by the tests only; they are modelled from the design document, in
    [Module Engine] and [timer_step].

    Times are [nsecs_t] values, modelled as [Z] with 64-bit wrap-around
    written out where the source computes with them. *)

From Stdlib Require Import ZArith Lia Bool List.
From stdpp Require Import gmap strings list.

Local Open Scope Z_scope.

(** ** 64-bit signed time arithmetic ([nsecs_t] is [int64_t]) *)
Module Nsecs.

Definition INT64_MIN : Z := - 2 ^ 63.
Definition INT64_MAX : Z := 2 ^ 63 - 1.

Definition in_range (z : Z) : Prop := INT64_MIN <= z <= INT64_MAX.

(** Two's complement wrap-around of a mathematical result. *)
Definition wrap (z : Z) : Z := (z + 2 ^ 63) mod 2 ^ 64 - 2 ^ 63.

Definition add (a b : Z) : Z := wrap (a + b).
Definition sub (a b : Z) : Z := wrap (a - b).
(** C++ [%] truncates towards zero: the sign follows the dividend. *)
Definition rem (a b : Z) : Z := Z.rem a b.

Lemma wrap_in_range z : in_range z -> wrap z = z.
Proof.
  unfold in_range, wrap, INT64_MIN, INT64_MAX. intros Hz.
  rewrite Z.mod_small; lia.
Qed.

Lemma wrap_range z : in_range (wrap z).
Proof.
  unfold in_range, wrap, INT64_MIN, INT64_MAX.
  pose proof (Z.mod_pos_bound (z + 2 ^ 63) (2 ^ 64)). lia.
Qed.

End Nsecs.

(** [toNs] on the chrono literals the tests use. *)
Definition toNs_ms (n : Z) : Z := n * 1000000.
Definition toNs_us (n : Z) : Z := n * 1000.
Definition toNs_h (n : Z) : Z := n * 3600000000000.

(** ** Stub trackers *)

(** [r] is the next pulse at or after [t] on the grid [b + k * p]. *)
Definition on_grid (p b r : Z) : Prop := (p | r - b).

Definition next_pulse (p b t r : Z) : Prop :=
  t <= r /\ on_grid p b r /\ forall m, t <= m -> on_grid p b m -> r <= m.

Module FixedRateIdealStubTracker.

Definition mPeriod : Z := toNs_ms 3.

Definition currentPeriod : Z := mPeriod.

Definition nextAnticipatedVSyncTimeFrom (timePoint : Z) : Z :=
  let floor := Nsecs.rem timePoint mPeriod in
  if floor =? 0 then timePoint
  else Nsecs.add (Nsecs.sub timePoint floor) mPeriod.

(** No result the function computes leaves the 64-bit range: on the path
    that returns [timePoint] at once nothing is computed; on the other,
    [timePoint - floor] lies between 0 and [timePoint], so only the last
    addition can leave the range. *)
Definition no_overflow (timePoint : Z) : Prop :=
  Nsecs.in_range timePoint /\
  (Z.rem timePoint mPeriod <> 0 ->
   Nsecs.in_range (timePoint - Z.rem timePoint mPeriod + mPeriod)).

End FixedRateIdealStubTracker.

Module VRRStubTracker.

Record t := mk { mPeriod : Z; mBase : Z }.

(** Constructor: [StubTracker(period)], [mBase = 0]. *)
Definition make (period : Z) : t := mk period 0.

Definition currentPeriod (s : t) : Z := mPeriod s.

Definition nextAnticipatedVSyncTimeFrom (s : t) (time_point : Z) : Z :=
  let normalized_to_base := Nsecs.sub time_point (mBase s) in
  let floor := Nsecs.rem normalized_to_base (mPeriod s) in
  if floor =? 0 then time_point
  else Nsecs.add (Nsecs.add (Nsecs.sub normalized_to_base floor) (mPeriod s))
                 (mBase s).

Definition set_interval (interval last_known : Z) (s : t) : t :=
  mk interval last_known.

(** No result the function computes leaves the 64-bit range:
    [time_point - mBase] on every path and, when the remainder is not 0,
    the two additions of the last line. *)
Definition no_overflow (p b time_point : Z) : Prop :=
  Nsecs.in_range time_point /\ Nsecs.in_range b /\
  Nsecs.in_range (time_point - b) /\
  (Z.rem (time_point - b) p <> 0 ->
   Nsecs.in_range (time_point - b - Z.rem (time_point - b) p + p) /\
   Nsecs.in_range (time_point - Z.rem (time_point - b) p + p)).

End VRRStubTracker.

(** ** Facts about truncated remainder used by both trackers *)

Lemma rem_zero_divide (a p : Z) : 0 < p -> Z.rem a p = 0 -> (p | a).
Proof.
  intros Hp H. exists (Z.quot a p).
  pose proof (Z.quot_rem' a p). lia.
Qed.

Lemma divide_rem_zero (a p : Z) : 0 < p -> (p | a) -> Z.rem a p = 0.
Proof.
  intros Hp [k ->]. apply Z.rem_mul. lia.
Qed.

Lemma sub_rem_divide (a p : Z) : 0 < p -> (p | a - Z.rem a p).
Proof.
  intros Hp. exists (Z.quot a p).
  pose proof (Z.quot_rem' a p). lia.
Qed.

(** For a non-negative dividend, the next grid point after removing the
    remainder is the least one at or above it. *)
Lemma round_up_least (a p m : Z) :
  0 < p -> 0 <= a -> Z.rem a p <> 0 -> a <= m -> (p | m) ->
  a - Z.rem a p + p <= m.
Proof.
  intros Hp Ha Hr Hm [k ->].
  pose proof (Z.rem_bound_pos a p Ha Hp) as Hb.
  pose proof (Z.quot_rem' a p) as Hq.
  assert (Z.quot a p < k) by nia.
  nia.
Qed.

Lemma rem_upper (a p : Z) : 0 < p -> a <= a - Z.rem a p + p.
Proof.
  intros Hp.
  destruct (Z.le_gt_cases 0 a) as [Ha|Ha].
  - pose proof (Z.rem_bound_pos a p Ha Hp). lia.
  - pose proof (Z.rem_nonpos a p). lia.
Qed.

Lemma sub_rem_between (a p : Z) :
  0 < p ->
  0 <= a - Z.rem a p <= a \/ a <= a - Z.rem a p <= 0.
Proof.
  intros Hp. destruct (Z.le_gt_cases 0 a) as [H0|H0].
  - left. pose proof (Z.rem_bound_pos a p H0 Hp).
    pose proof (Z.rem_le a p H0 Hp). lia.
  - right.
    assert (Hne : p <> 0) by lia.
    pose proof (Z.rem_nonpos a p Hne ltac:(lia)) as Hn.
    pose proof (Z.rem_le (- a) p ltac:(lia) Hp) as Hl.
    rewrite (Z.rem_opp_l a p Hne) in Hl.
    generalize dependent (Z.rem a p). intros; lia.
Qed.

Ltac unfold_range :=
  unfold FixedRateIdealStubTracker.no_overflow, VRRStubTracker.no_overflow,
    Nsecs.in_range, Nsecs.INT64_MIN, Nsecs.INT64_MAX in *.

(** ** The fixed-rate stub *)

Lemma fixed_rate_value (t : Z) :
  FixedRateIdealStubTracker.no_overflow t ->
  FixedRateIdealStubTracker.nextAnticipatedVSyncTimeFrom t =
  if Z.rem t FixedRateIdealStubTracker.mPeriod =? 0 then t
  else t - Z.rem t FixedRateIdealStubTracker.mPeriod
       + FixedRateIdealStubTracker.mPeriod.
Proof.
  intros [Ht Hr].
  unfold FixedRateIdealStubTracker.nextAnticipatedVSyncTimeFrom, Nsecs.rem.
  destruct (Z.rem t FixedRateIdealStubTracker.mPeriod =? 0) eqn:E; [reflexivity|].
  apply Z.eqb_neq in E.
  assert (Hp : 0 < FixedRateIdealStubTracker.mPeriod) by reflexivity.
  unfold Nsecs.add, Nsecs.sub.
  rewrite (Nsecs.wrap_in_range (t - _)).
  - apply Nsecs.wrap_in_range, Hr, E.
  - pose proof (sub_rem_between t _ Hp). unfold_range. lia.
Qed.

Lemma fixed_rate_pulse (t : Z) :
  FixedRateIdealStubTracker.no_overflow t ->
  let r := FixedRateIdealStubTracker.nextAnticipatedVSyncTimeFrom t in
  t <= r /\
  on_grid FixedRateIdealStubTracker.mPeriod 0 r /\
  (on_grid FixedRateIdealStubTracker.mPeriod 0 t -> r = t) /\
  (0 <= t -> next_pulse FixedRateIdealStubTracker.mPeriod 0 t r).
Proof.
  intros Hno r. subst r. rewrite (fixed_rate_value t Hno).
  set (p := FixedRateIdealStubTracker.mPeriod).
  assert (Hp : 0 < p) by reflexivity.
  unfold next_pulse, on_grid.
  destruct (Z.rem t p =? 0) eqn:E.
  - apply Z.eqb_eq in E.
    assert (Hd : (p | t - 0)).
    { rewrite Z.sub_0_r. apply rem_zero_divide; assumption. }
    split; [lia|]. split; [exact Hd|]. split; [reflexivity|].
    intros _. split; [lia|]. split; [exact Hd|]. intros m Hm _. exact Hm.
  - apply Z.eqb_neq in E.
    assert (Hd : (p | t - Z.rem t p + p - 0)).
    { rewrite Z.sub_0_r. apply Z.divide_add_r.
      - apply sub_rem_divide; assumption.
      - apply Z.divide_refl. }
    pose proof (rem_upper t p Hp) as Hu.
    split; [exact Hu|]. split; [exact Hd|]. split.
    + intros Ht. rewrite Z.sub_0_r in Ht.
      exfalso. apply E. apply divide_rem_zero; assumption.
    + intros H0. split; [exact Hu|]. split; [exact Hd|].
      intros m Hm Hg. rewrite Z.sub_0_r in Hg.
      apply round_up_least; assumption.
Qed.

(** C5, as amended: for every reference time [t] whose computation stays
    inside the 64-bit range, the fixed 3ms stub returns a multiple of the
    period that is at or after [t], and [t] itself when [t] is a multiple;
    for [0 <= t] the result is the least such multiple. *)
Theorem fixed_rate_next_pulse (t : Z) :
  FixedRateIdealStubTracker.no_overflow t ->
  let r := FixedRateIdealStubTracker.nextAnticipatedVSyncTimeFrom t in
  t <= r /\
  on_grid FixedRateIdealStubTracker.mPeriod 0 r /\
  (on_grid FixedRateIdealStubTracker.mPeriod 0 t -> r = t) /\
  (0 <= t -> next_pulse FixedRateIdealStubTracker.mPeriod 0 t r).
Proof.
  apply fixed_rate_pulse.
Qed.

(** At 7ms the stub rounds up to 9ms; the last pulse below [INT64_MAX]
    is returned as it is, although the pulse after it does not fit. *)
Lemma fixed_rate_next_pulse_witness :
  (FixedRateIdealStubTracker.no_overflow 7000000 /\
   next_pulse FixedRateIdealStubTracker.mPeriod 0 7000000
     (FixedRateIdealStubTracker.nextAnticipatedVSyncTimeFrom 7000000)) /\
  (FixedRateIdealStubTracker.no_overflow 9223372036854000000 /\
   next_pulse FixedRateIdealStubTracker.mPeriod 0 9223372036854000000
     (FixedRateIdealStubTracker.nextAnticipatedVSyncTimeFrom
        9223372036854000000)).
Proof.
  assert (H : FixedRateIdealStubTracker.no_overflow 7000000).
  { split; [unfold_range; lia|]. intros _. vm_compute. split; discriminate. }
  assert (H' : FixedRateIdealStubTracker.no_overflow 9223372036854000000).
  { split; [unfold_range; lia|]. intros Hne. exfalso. apply Hne. reflexivity. }
  split; (split; [assumption|]).
  - apply (fixed_rate_next_pulse 7000000 H). lia.
  - apply (fixed_rate_next_pulse 9223372036854000000 H'). lia.
Defined.

(** C5 as stated fails for a reference time before the epoch: one
    nanosecond before zero the stub answers 3ms although the pulse at 0 is
    at or after the reference. *)
Lemma fixed_rate_negative_not_least :
  FixedRateIdealStubTracker.no_overflow (-1) /\
  FixedRateIdealStubTracker.nextAnticipatedVSyncTimeFrom (-1) = 3000000 /\
  ~ next_pulse FixedRateIdealStubTracker.mPeriod 0 (-1)
      (FixedRateIdealStubTracker.nextAnticipatedVSyncTimeFrom (-1)).
Proof.
  split; [|split].
  - unfold_range. vm_compute. repeat split; discriminate.
  - reflexivity.
  - intros (_ & _ & Hleast).
    specialize (Hleast 0 ltac:(lia)).
    assert (Hg : on_grid FixedRateIdealStubTracker.mPeriod 0 0).
    { exists 0. reflexivity. }
    specialize (Hleast Hg). vm_compute in Hleast. apply Hleast. reflexivity.
Qed.

(** ** The variable-rate stub *)

Lemma vrr_value (p b t : Z) (s : VRRStubTracker.t) :
  0 < p -> VRRStubTracker.no_overflow p b t ->
  VRRStubTracker.nextAnticipatedVSyncTimeFrom
    (VRRStubTracker.set_interval p b s) t =
  if Z.rem (t - b) p =? 0 then t else t - Z.rem (t - b) p + p.
Proof.
  intros Hp (Ht & Hb & Hn & Hr).
  unfold VRRStubTracker.nextAnticipatedVSyncTimeFrom, VRRStubTracker.set_interval,
    Nsecs.rem, Nsecs.add, Nsecs.sub. cbn [VRRStubTracker.mPeriod VRRStubTracker.mBase].
  rewrite (Nsecs.wrap_in_range (t - b)) by exact Hn.
  destruct (Z.rem (t - b) p =? 0) eqn:E; [reflexivity|].
  apply Z.eqb_neq in E. destruct (Hr E) as (Hr1 & Hr2).
  pose proof (sub_rem_between (t - b) p Hp) as Hsign.
  rewrite (Nsecs.wrap_in_range (t - b - _)) by (unfold_range; lia).
  rewrite (Nsecs.wrap_in_range (t - b - _ + p)) by exact Hr1.
  replace (t - b - Z.rem (t - b) p + p + b) with (t - Z.rem (t - b) p + p) by lia.
  apply Nsecs.wrap_in_range, Hr2.
Qed.

Lemma vrr_pulse (p b t : Z) (s : VRRStubTracker.t) :
  0 < p -> VRRStubTracker.no_overflow p b t ->
  let r := VRRStubTracker.nextAnticipatedVSyncTimeFrom
             (VRRStubTracker.set_interval p b s) t in
  t <= r /\ on_grid p b r /\ (on_grid p b t -> r = t) /\
  (b <= t -> next_pulse p b t r).
Proof.
  intros Hp Hno r. subst r. rewrite (vrr_value p b t s Hp Hno).
  unfold next_pulse, on_grid.
  destruct (Z.rem (t - b) p =? 0) eqn:E.
  - apply Z.eqb_eq in E.
    assert (Hd : (p | t - b)) by (apply rem_zero_divide; assumption).
    split; [lia|]. split; [exact Hd|]. split; [reflexivity|].
    intros _. split; [lia|]. split; [exact Hd|]. intros m Hm _. exact Hm.
  - apply Z.eqb_neq in E.
    assert (Hd : (p | t - Z.rem (t - b) p + p - b)).
    { replace (t - Z.rem (t - b) p + p - b)
        with ((t - b) - Z.rem (t - b) p + p) by lia.
      apply Z.divide_add_r.
      - apply sub_rem_divide; assumption.
      - apply Z.divide_refl. }
    pose proof (rem_upper (t - b) p Hp) as Hu.
    split; [lia|]. split; [exact Hd|]. split.
    + intros Ht. exfalso. apply E. apply divide_rem_zero; assumption.
    + intros Hbt. split; [lia|]. split; [exact Hd|].
      intros m Hm Hg.
      pose proof (round_up_least (t - b) p (m - b) Hp ltac:(lia) E ltac:(lia) Hg).
      lia.
Qed.

(** C6, as amended: after [set_interval p b] with [0 < p], whatever the
    tracker held before, a query at [t] (no 64-bit overflow) returns a time
    at or after [t] on the grid [b + k*p], and [t] itself when [t - b] is a
    multiple of [p]; for [b <= t] the result is the least such time. *)
Theorem vrr_next_pulse (p b t : Z) (s : VRRStubTracker.t) :
  0 < p -> VRRStubTracker.no_overflow p b t ->
  let r := VRRStubTracker.nextAnticipatedVSyncTimeFrom
             (VRRStubTracker.set_interval p b s) t in
  t <= r /\ on_grid p b r /\ (on_grid p b t -> r = t) /\
  (b <= t -> next_pulse p b t r).
Proof.
  apply vrr_pulse.
Qed.

(** With period 5ms and base 30ms the query at 41ms rounds up to 45ms;
    with period 3ms and base 0 the last pulse below [INT64_MAX] is
    returned as it is, although the pulse after it does not fit. *)
Lemma vrr_next_pulse_witness :
  next_pulse 5000000 30000000 41000000
    (VRRStubTracker.nextAnticipatedVSyncTimeFrom
       (VRRStubTracker.set_interval 5000000 30000000 (VRRStubTracker.make 3000000))
       41000000) /\
  (VRRStubTracker.no_overflow 3000000 0 9223372036854000000 /\
   next_pulse 3000000 0 9223372036854000000
     (VRRStubTracker.nextAnticipatedVSyncTimeFrom
        (VRRStubTracker.set_interval 3000000 0 (VRRStubTracker.make 3000000))
        9223372036854000000)).
Proof.
  assert (H : VRRStubTracker.no_overflow 5000000 30000000 41000000).
  { split; [unfold_range; lia|]. split; [unfold_range; lia|].
    split; [unfold_range; lia|]. intros _. vm_compute.
    split; split; discriminate. }
  assert (H' : VRRStubTracker.no_overflow 3000000 0 9223372036854000000).
  { split; [unfold_range; lia|]. split; [unfold_range; lia|].
    split; [unfold_range; lia|]. intros Hne. exfalso. apply Hne. reflexivity. }
  split; [|split; [exact H'|]].
  - apply (vrr_next_pulse 5000000 30000000 41000000 _ ltac:(lia) H). lia.
  - apply (vrr_next_pulse 3000000 0 9223372036854000000 _ ltac:(lia) H'). lia.
Defined.

(** C6 as stated fails for a reference time before the base: with period 5
    and base 10 the query at 9 answers 15, although 10 is on the grid and at
    or after 9. *)
Lemma vrr_before_base_not_least :
  VRRStubTracker.no_overflow 5 10 9 /\
  VRRStubTracker.nextAnticipatedVSyncTimeFrom
    (VRRStubTracker.set_interval 5 10 (VRRStubTracker.make 3000000)) 9 = 15 /\
  ~ next_pulse 5 10 9
      (VRRStubTracker.nextAnticipatedVSyncTimeFrom
         (VRRStubTracker.set_interval 5 10 (VRRStubTracker.make 3000000)) 9).
Proof.
  split; [|split].
  - unfold_range. vm_compute. repeat split; discriminate.
  - reflexivity.
  - intros (_ & _ & Hleast).
    specialize (Hleast 10 ltac:(lia)).
    assert (Hg : on_grid 5 10 10) by (exists 0; reflexivity).
    specialize (Hleast Hg). vm_compute in Hleast. apply Hleast. reflexivity.
Qed.

(** * SensorManager (libs/sensor/SensorManager.cpp) *)

(** [status_t] ([utils/Errors.h]): the codes the file switches on or
    returns by name, and any other code.  The [default:] branch of a switch
    covers every constructor it does not name. *)
Inductive status_t :=
  | NO_ERROR | NAME_NOT_FOUND | TIMED_OUT | NO_MEMORY | NO_INIT | BAD_VALUE
  | OTHER_STATUS (code : Z).

Definition status_eqb (a b : status_t) : bool :=
  match a, b with
  | NO_ERROR, NO_ERROR | NAME_NOT_FOUND, NAME_NOT_FOUND | TIMED_OUT, TIMED_OUT
  | NO_MEMORY, NO_MEMORY | NO_INIT, NO_INIT | BAD_VALUE, BAD_VALUE => true
  | OTHER_STATUS x, OTHER_STATUS y => x =? y
  | _, _ => false
  end.

(** [LOG_ALWAYS_FATAL_IF] aborts the process. *)
Inductive Outcome (A : Type) :=
  | Fatal
  | Ret (a : A).
Arguments Fatal {A}.
Arguments Ret {A} a.

Definition obind {A B} (x : Outcome A) (f : A -> Outcome B) : Outcome B :=
  match x with
  | Fatal => Fatal
  | Ret a => f a
  end.

Record Sensor := mkSensor {
  getHandle : Z;
  getStringType : string;
  getName : string;
  getType : Z;
  isWakeUpSensor : bool
}.

(** The remote sensor service as seen through [ISensorServer]. *)
Module ISensorServer.
Record t := mk {
  id : nat;
  getSensorList : string -> list Sensor;
  getRuntimeSensorList : string -> Z -> list Sensor;
  getDynamicSensorList : string -> list Sensor
}.
End ISensorServer.

(** The service manager and binder driver the file talks to: the answer of
    the [k]-th [getService("sensorservice")] call of the process, and the
    answer of [pingBinder] on a connection. *)
Record World := mkWorld {
  getService : nat -> status_t * option ISensorServer.t;
  pingBinder : ISensorServer.t -> status_t
}.

(** Mutable binder-side state: how many [getService] calls were made, and
    which death recipients are linked to which service (by id). *)
Record Binder := mkBinder {
  calls : nat;
  deathLinks : list nat
}.

Definition DEVICE_ID_DEFAULT : Z := 0.

(** ** [waitForSensorService] *)

(** The [for (int i = 0; i < 60; i++)] loop, by the number of iterations
    left; [k] counts the [getService] calls of the process.  The result is
    the status, the value stored through [server] (if any) and the new call
    count. *)
Fixpoint waitForSensorService_loop (w : World) (server_nonnull : bool)
    (remaining k : nat) : status_t * option (option ISensorServer.t) * nat :=
  match remaining with
  | O => (TIMED_OUT, None, k)
  | S remaining' =>
      let '(err, s) := getService w k in
      match err with
      | NAME_NOT_FOUND =>
          waitForSensorService_loop w server_nonnull remaining' (S k)
      | NO_ERROR =>
          (NO_ERROR, if server_nonnull then Some s else None, S k)
      | _ => (err, None, S k)
      end
  end.

Definition waitForSensorService (w : World) (server_nonnull : bool) (k : nat)
  : status_t * option (option ISensorServer.t) * nat :=
  waitForSensorService_loop w server_nonnull 60 k.

(** ** The manager object *)
Module SensorManager.

Record t := mk {
  mSensorServer : option ISensorServer.t;
  (** [Sensor const**]: null, or an array of pointers into [mSensors]
      (element indices). *)
  mSensorList : option (list nat);
  mSensors : list Sensor;
  mDynamicSensorList : option (list nat);
  mDynamicSensors : list Sensor;
  mDeathObserver : bool;
  mOpPackageName : string;
  mDeviceId : Z;
  mDirectConnectionHandle : Z;
  mDirectConnection : gmap Z nat;
  mSensorHandleToName : gmap Z string
}.

Definition with_service (m : t) (server : option ISensorServer.t)
    (ptrs : option (list nat)) (sensors : list Sensor)
    (dptrs : option (list nat)) (dsensors : list Sensor) (obs : bool) : t :=
  mk server ptrs sensors dptrs dsensors obs
     (mOpPackageName m) (mDeviceId m) (mDirectConnectionHandle m)
     (mDirectConnection m) (mSensorHandleToName m).

Definition with_names (m : t) (names : gmap Z string) : t :=
  mk (mSensorServer m) (mSensorList m) (mSensors m) (mDynamicSensorList m)
     (mDynamicSensors m) (mDeathObserver m) (mOpPackageName m) (mDeviceId m)
     (mDirectConnectionHandle m) (mDirectConnection m) names.

Definition sensorManagerDied (m : t) : t :=
  with_service m None None [] None [] (mDeathObserver m).

(** [flag] is the build-time value of
    [COM_ANDROID_HARDWARE_LIBSENSOR_FLAGS(SENSORMANAGER_PING_BINDER)].  The
    allocation of the pointer array is taken to succeed. *)
Definition assertStateLocked (flag : bool) (w : World) (b : Binder) (m : t)
  : Outcome (status_t * t * Binder) :=
  let initSensorManager :=
    match mSensorServer m with
    | None => true
    | Some srv =>
        if flag then false else negb (status_eqb (pingBinder w srv) NO_ERROR)
    end in
  if initSensorManager then
    let '(_, written, k) := waitForSensorService w true (calls b) in
    let server := match written with Some s => s | None => mSensorServer m end in
    match server with
    | None => Fatal
    | Some srv =>
        let sensors :=
          if mDeviceId m =? DEVICE_ID_DEFAULT
          then ISensorServer.getSensorList srv (mOpPackageName m)
          else ISensorServer.getRuntimeSensorList srv (mOpPackageName m)
                 (mDeviceId m) in
        let count := length sensors in
        Ret (NO_ERROR,
             with_service m (Some srv) (Some (seq 0 count)) sensors
               (mDynamicSensorList m) (mDynamicSensors m) true,
             mkBinder k (ISensorServer.id srv :: deathLinks b))
    end
  else Ret (NO_ERROR, m, b).

(** The constructor: member initialisers, then [assertStateLocked]. *)
Definition construct (flag : bool) (w : World) (b : Binder)
    (opPackageName : string) (deviceId : Z) : Outcome (t * Binder) :=
  let m := mk None None [] None [] false opPackageName deviceId 1 ∅ ∅ in
  obind (assertStateLocked flag w b m) (fun '(_, m', b') => Ret (m', b')).

(** [findSensorNameInList]: [Some] is [true] with the string written to
    [*outString]. *)
Fixpoint findSensorNameInList (handle : Z) (sensorList : list Sensor)
  : option string :=
  match sensorList with
  | [] => None
  | sensor :: rest =>
      if getHandle sensor =? handle
      then Some (String.append (getStringType sensor)
                   (String.append ":" (getName sensor)))
      else findSensorNameInList handle rest
  end.

Definition getSensorNameByHandle (handle : Z) (m : t) : option string * t :=
  match mSensorHandleToName m !! handle with
  | Some cached => (Some cached, m)
  | None =>
      let found :=
        match findSensorNameInList handle (mSensors m) with
        | Some n => Some n
        | None => findSensorNameInList handle (mDynamicSensors m)
        end in
      match found with
      | None => (None, m)
      | Some sensorName =>
          (Some sensorName,
           with_names m (<[handle := sensorName]> (mSensorHandleToName m)))
      end
  end.

(** [getDynamicSensorList(Sensor const* const** list)]: reloads the dynamic
    sensors from the service.  [malloc] tells, by the number of pointers
    asked for, whether the allocation of the array succeeds.  The result is
    an error status or the count; the array stored through [list] is the
    new [mDynamicSensorList]. *)
Definition getDynamicSensorList (flag : bool) (w : World) (b : Binder) (m : t)
    (malloc : nat -> bool) : Outcome ((status_t + Z) * t * Binder) :=
  obind (assertStateLocked flag w b m) (fun '(err, m1, b1) =>
    if negb (status_eqb err NO_ERROR) then Ret (inl err, m1, b1)
    else
      match mSensorServer m1 with
      | None => Fatal
      | Some srv =>
          let dyn := ISensorServer.getDynamicSensorList srv (mOpPackageName m1) in
          let dynamicCount := length dyn in
          if (0 <? dynamicCount)%nat
          then
            if malloc dynamicCount
            then Ret (inr (Z.of_nat dynamicCount),
                      with_service m1 (mSensorServer m1) (mSensorList m1)
                        (mSensors m1) (Some (seq 0 dynamicCount)) dyn
                        (mDeathObserver m1),
                      b1)
            else Ret (inl NO_MEMORY,
                      with_service m1 (mSensorServer m1) (mSensorList m1)
                        (mSensors m1) None dyn (mDeathObserver m1),
                      b1)
          else Ret (inr (Z.of_nat dynamicCount),
                    with_service m1 (mSensorServer m1) (mSensorList m1)
                      (mSensors m1) None dyn (mDeathObserver m1),
                    b1)
      end).

End SensorManager.

(** ** The per-package registry [sPackageInstances] *)

Inductive DevicePolicy := DEVICE_POLICY_DEFAULT | DEVICE_POLICY_CUSTOM.

(** [IVirtualDeviceManagerNative]: the device ids of a uid and the sensor
    policy of a device ([getDevicePolicy] leaves the default in its
    out-parameter when it has nothing to report). *)
Record IVirtualDeviceManagerNative := mkVdm {
  getDeviceIdsForUid : Z -> list Z;
  getDevicePolicy : Z -> DevicePolicy
}.

(** What a call observes about its caller: the calling uid, the
    ["virtualdevice_native"] service (if registered) and the ["permission"]
    service's [getPackagesForUid] (if reachable). *)
Record Caller := mkCaller {
  getCallingUid : Z;
  virtualdevice_native : option IVirtualDeviceManagerNative;
  permission : option (Z -> list string)
}.

Definition getDeviceIdForUid (c : Caller) (uid : Z) : Z :=
  match virtualdevice_native c with
  | Some vdm =>
      match getDeviceIdsForUid vdm uid with
      | [deviceId] =>
          match getDevicePolicy vdm deviceId with
          | DEVICE_POLICY_CUSTOM => deviceId
          | DEVICE_POLICY_DEFAULT => DEVICE_ID_DEFAULT
          end
      | _ => DEVICE_ID_DEFAULT
      end
  | None => DEVICE_ID_DEFAULT
  end.

(** [std::map::insert]: the element is inserted only if the key is absent. *)
Definition std_map_insert {V} (k : string) (v : V) (m : gmap string V)
  : gmap string V :=
  match m !! k with
  | Some _ => m
  | None => <[k := v]> m
  end.

(** The statics of the class, the objects [new SensorManager] has allocated
    and not deleted (by address), the binder state, and what the memory of
    the deleted objects still holds.  Addresses are not reused. *)
Record Process := mkProcess {
  sPackageInstances : gmap string nat;
  objects : gmap nat SensorManager.t;
  nextObject : nat;
  binder : Binder;
  freed : gmap nat SensorManager.t
}.

Definition getInstanceForPackage (flag : bool) (w : World) (c : Caller)
    (packageName : string) (p : Process) : Outcome (nat * Process) :=
  let '(_, _, k) := waitForSensorService w false (calls (binder p)) in
  let b0 := mkBinder k (deathLinks (binder p)) in
  let iterator := sPackageInstances p !! packageName in
  let uid := getCallingUid c in
  let deviceId := getDeviceIdForUid c uid in
  let create :=
    let opPackageName :=
      if (String.length packageName =? 0)%nat then
        match permission c with
        | Some getPackagesForUid =>
            match getPackagesForUid uid with
            | first :: _ => first
            | [] => packageName
            end
        | None => packageName
        end
      else packageName in
    obind (SensorManager.construct flag w b0 opPackageName deviceId)
      (fun '(m, b1) =>
         let sensorManager := nextObject p in
         let inst1 :=
           if (String.length packageName =? 0)%nat
           then std_map_insert EmptyString sensorManager (sPackageInstances p)
           else sPackageInstances p in
         let inst2 := std_map_insert opPackageName sensorManager inst1 in
         Ret (sensorManager,
              mkProcess inst2 (<[sensorManager := m]> (objects p))
                (S (nextObject p)) b1 (freed p))) in
  match iterator with
  | Some sensorManager =>
      match objects p !! sensorManager with
      | Some m =>
          if SensorManager.mDeviceId m =? deviceId
          then Ret (sensorManager,
                    mkProcess (sPackageInstances p) (objects p) (nextObject p) b0
                      (freed p))
          else create
      | None =>
          (* [sensorManager] points to a deleted object: the read of
             [mDeviceId] has no defined behaviour; as in a plain build, it
             gives what the object held when it was deleted, and the
             function goes on *)
          match freed p !! sensorManager with
          | Some m =>
              if SensorManager.mDeviceId m =? deviceId
              then Ret (sensorManager,
                        mkProcess (sPackageInstances p) (objects p)
                          (nextObject p) b0 (freed p))
              else create
          | None =>
              (* an address that was never allocated; no entry of the
                 registry holds one, see [registry_tracked] *)
              Fatal
          end
      end
  | None => create
  end.

(** [delete sensorManager] on an object that was deleted before has no
    defined behaviour; the model stops there with [Fatal]. *)
Definition removeInstanceForPackage (packageName : string) (p : Process)
  : Outcome Process :=
  match sPackageInstances p !! packageName with
  | Some sensorManager =>
      match objects p !! sensorManager with
      | Some m =>
          Ret (mkProcess (delete packageName (sPackageInstances p))
                 (delete sensorManager (objects p)) (nextObject p) (binder p)
                 (<[sensorManager := m]> (freed p)))
      | None => Fatal
      end
  | None => Ret p
  end.

(** ** [waitForSensorService]: bounded retries *)

(** The [n] answers starting at call [k] are all [NAME_NOT_FOUND]. *)
Definition all_not_found (w : World) (k n : nat) : Prop :=
  forall j, (j < n)%nat -> fst (getService w (k + j)) = NAME_NOT_FOUND.

Lemma all_not_found_tail w k n :
  all_not_found w k (S n) -> all_not_found w (S k) n.
Proof.
  intros H j Hj. replace (S k + j)%nat with (k + S j)%nat by lia.
  apply H. lia.
Qed.

Lemma all_not_found_head w k n :
  all_not_found w k (S n) -> fst (getService w k) = NAME_NOT_FOUND.
Proof.
  intros H. replace k with (k + 0)%nat by lia. apply H. lia.
Qed.

Lemma wait_loop_calls w out remaining k :
  let r := waitForSensorService_loop w out remaining k in
  (k <= snd r <= k + remaining)%nat.
Proof.
  revert k. induction remaining as [|n IH]; intros k; cbn.
  - lia.
  - destruct (getService w k) as [err s].
    destruct err; cbn; try lia.
    specialize (IH (S k)). cbn in IH. lia.
Qed.

Lemma wait_loop_first_answer w out remaining k n e s :
  (n < remaining)%nat -> all_not_found w k n ->
  getService w (k + n) = (e, s) -> e <> NAME_NOT_FOUND ->
  waitForSensorService_loop w out remaining k =
  (e, match e with
      | NO_ERROR => if out then Some s else None
      | _ => None
      end, S (k + n)).
Proof.
  revert k n. induction remaining as [|r IH]; intros k n Hn Hnf Hans He.
  - lia.
  - destruct n as [|n].
    + rewrite Nat.add_0_r in Hans. cbn. rewrite Hans, Nat.add_0_r.
      destruct e; try reflexivity. contradiction.
    + cbn. pose proof (all_not_found_head w k n Hnf) as Hh.
      destruct (getService w k) as [err s0]. cbn in Hh. subst err.
      replace (S (k + S n)) with (S (S k + n)) by lia.
      apply IH.
      * lia.
      * apply all_not_found_tail, Hnf.
      * replace (S k + n)%nat with (k + S n)%nat by lia. exact Hans.
      * exact He.
Qed.

Lemma wait_loop_timeout w out remaining k :
  all_not_found w k remaining ->
  waitForSensorService_loop w out remaining k =
  (TIMED_OUT, None, (k + remaining)%nat).
Proof.
  revert k. induction remaining as [|r IH]; intros k Hnf; cbn.
  - rewrite Nat.add_0_r. reflexivity.
  - pose proof (all_not_found_head w k r Hnf) as Hh.
    destruct (getService w k) as [err s0]. cbn in Hh. subst err.
    rewrite IH by (apply all_not_found_tail, Hnf).
    f_equal. lia.
Qed.

(** C10: [waitForSensorService] makes at most 60 [getService] calls; the
    first answer that is not [NAME_NOT_FOUND] decides: [NO_ERROR] is
    returned at once, with the connection stored through a non-null
    [server]; any other error is returned at once; when all 60 answers are
    [NAME_NOT_FOUND] the result is [TIMED_OUT]. *)
Theorem waitForSensorService_bounded (w : World) (out : bool) (k : nat) :
  let r := waitForSensorService w out k in
  (k <= snd r <= k + 60)%nat /\
  (forall n s, (n < 60)%nat -> all_not_found w k n ->
     getService w (k + n) = (NO_ERROR, s) ->
     r = (NO_ERROR, if out then Some s else None, S (k + n))) /\
  (forall n e s, (n < 60)%nat -> all_not_found w k n ->
     getService w (k + n) = (e, s) ->
     e <> NAME_NOT_FOUND -> e <> NO_ERROR ->
     r = (e, None, S (k + n))) /\
  (all_not_found w k 60 -> r = (TIMED_OUT, None, (k + 60)%nat)).
Proof.
  cbv zeta. unfold waitForSensorService. split; [|split; [|split]].
  - apply wait_loop_calls.
  - intros n s Hn Hnf Hans.
    rewrite (wait_loop_first_answer w out 60 k n NO_ERROR s Hn Hnf Hans);
      [reflexivity | discriminate].
  - intros n e s Hn Hnf Hans He1 He2.
    rewrite (wait_loop_first_answer w out 60 k n e s Hn Hnf Hans He1).
    destruct e; try reflexivity. contradiction.
  - apply wait_loop_timeout.
Qed.

(** A service with no sensors, and a world where it appears at the third
    [getService] call. *)
Definition empty_service (i : nat) : ISensorServer.t :=
  ISensorServer.mk i (fun _ => []) (fun _ _ => []) (fun _ => []).

Definition late_world : World :=
  mkWorld (fun k => if (k <? 2)%nat then (NAME_NOT_FOUND, None)
                    else (NO_ERROR, Some (empty_service 0)))
          (fun _ => NO_ERROR).

Lemma waitForSensorService_bounded_witness :
  waitForSensorService late_world true 0 =
  (NO_ERROR, Some (Some (empty_service 0)), 3%nat).
Proof.
  apply (proj1 (proj2 (waitForSensorService_bounded late_world true 0))
           2%nat (Some (empty_service 0))).
  - lia.
  - intros j Hj. destruct j as [|[|j]]; [reflexivity | reflexivity | lia].
  - reflexivity.
Defined.

(** ** [getSensorNameByHandle]: lookup and memoization *)

Definition has_handle (h : Z) (l : list Sensor) : Prop :=
  exists s, In s l /\ getHandle s = h.

Definition display_name (s : Sensor) : string :=
  String.append (getStringType s) (String.append ":" (getName s)).

Lemma findSensorNameInList_app h l1 l2 :
  SensorManager.findSensorNameInList h (l1 ++ l2) =
  match SensorManager.findSensorNameInList h l1 with
  | Some n => Some n
  | None => SensorManager.findSensorNameInList h l2
  end.
Proof.
  induction l1 as [|s l1 IH]; cbn; [reflexivity|].
  destruct (getHandle s =? h); [reflexivity | exact IH].
Qed.

Lemma findSensorNameInList_found h l :
  is_Some (SensorManager.findSensorNameInList h l) <-> has_handle h l.
Proof.
  induction l as [|s l IH]; cbn.
  - split.
    + intros [x Hx]. discriminate.
    + intros (s & [] & _).
  - destruct (getHandle s =? h) eqn:E.
    + apply Z.eqb_eq in E. split; [|eauto].
      intros _. exists s. split; [left; reflexivity | exact E].
    + apply Z.eqb_neq in E. rewrite IH. split.
      * intros (x & Hx & Hh). exists x. split; [right; exact Hx | exact Hh].
      * intros (x & [Hx|Hx] & Hh); [subst x; contradiction|].
        exists x. split; assumption.
Qed.

Lemma findSensorNameInList_first h l1 s l2 :
  getHandle s = h -> (forall x, In x l1 -> getHandle x <> h) ->
  SensorManager.findSensorNameInList h (l1 ++ s :: l2) = Some (display_name s).
Proof.
  intros Hs. induction l1 as [|x l1 IH]; intros Hno; cbn.
  - apply Z.eqb_eq in Hs. rewrite Hs. reflexivity.
  - destruct (getHandle x =? h) eqn:E.
    + apply Z.eqb_eq in E. exfalso. apply (Hno x); [left; reflexivity | exact E].
    + apply IH. intros y Hy. apply Hno. right. exact Hy.
Qed.

(** What can happen to a manager between two name lookups: the service
    dies, state is re-established, the dynamic list is reloaded, or other
    names are looked up. *)
Inductive evolves : SensorManager.t -> SensorManager.t -> Prop :=
  | evolves_refl m : evolves m m
  | evolves_died m m' :
      evolves m m' -> evolves m (SensorManager.sensorManagerDied m')
  | evolves_assert m m' flag w b st m'' b' :
      evolves m m' ->
      SensorManager.assertStateLocked flag w b m' = Ret (st, m'', b') ->
      evolves m m''
  | evolves_dynamic m m' flag w b malloc n m'' b' :
      evolves m m' ->
      SensorManager.getDynamicSensorList flag w b m' malloc = Ret (n, m'', b') ->
      evolves m m''
  | evolves_lookup m m' h :
      evolves m m' ->
      evolves m (snd (SensorManager.getSensorNameByHandle h m')).

Lemma assertStateLocked_names flag w b m st m' b' :
  SensorManager.assertStateLocked flag w b m = Ret (st, m', b') ->
  SensorManager.mSensorHandleToName m' = SensorManager.mSensorHandleToName m /\
  SensorManager.mDirectConnection m' = SensorManager.mDirectConnection m /\
  SensorManager.mDirectConnectionHandle m' = SensorManager.mDirectConnectionHandle m /\
  SensorManager.mOpPackageName m' = SensorManager.mOpPackageName m /\
  SensorManager.mDeviceId m' = SensorManager.mDeviceId m.
Proof.
  unfold SensorManager.assertStateLocked.
  destruct (match SensorManager.mSensorServer m with
            | Some srv => _ | None => true end).
  - destruct (waitForSensorService w true (calls b)) as [[s0 written] k].
    destruct (match written with Some s => s | None => _ end); [|discriminate].
    intros H. injection H as _ <- _. repeat split.
  - intros H. injection H as _ <- _. repeat split.
Qed.

Lemma getSensorNameByHandle_keeps h m h' str :
  SensorManager.mSensorHandleToName m !! h' = Some str ->
  SensorManager.mSensorHandleToName
    (snd (SensorManager.getSensorNameByHandle h m)) !! h' = Some str.
Proof.
  intros Hc. unfold SensorManager.getSensorNameByHandle.
  destruct (SensorManager.mSensorHandleToName m !! h) eqn:Eh; [exact Hc|].
  destruct (match SensorManager.findSensorNameInList h (SensorManager.mSensors m) with
            | Some n => Some n | None => _ end); [|exact Hc].
  cbn. destruct (decide (h = h')) as [->|Hne].
  - congruence.
  - rewrite lookup_insert_ne by exact Hne. exact Hc.
Qed.

Lemma evolves_keeps_names m m' :
  evolves m m' ->
  forall h str,
    SensorManager.mSensorHandleToName m !! h = Some str ->
    SensorManager.mSensorHandleToName m' !! h = Some str.
Proof.
  induction 1 as [m | m m' _ IH | m m' flag w b st m'' b' _ IH Ha
                 | m m' flag w b malloc n m'' b' _ IH Hd | m m' h0 _ IH];
    intros h str Hc.
  - exact Hc.
  - cbn. apply IH, Hc.
  - apply assertStateLocked_names in Ha as (-> & _). apply IH, Hc.
  - unfold SensorManager.getDynamicSensorList, obind in Hd.
    destruct (SensorManager.assertStateLocked flag w b m') as [|[[st m1] b1]] eqn:Ea;
      [discriminate|].
    apply assertStateLocked_names in Ea as (Hn & _).
    destruct (negb (status_eqb st NO_ERROR)).
    + injection Hd as _ <- _. rewrite Hn. apply IH, Hc.
    + destruct (SensorManager.mSensorServer m1); [|discriminate].
      destruct (0 <? _)%nat; [destruct (malloc _)|];
        injection Hd as _ <- _; cbn; rewrite Hn; apply IH, Hc.
  - apply getSensorNameByHandle_keeps, IH, Hc.
Qed.

Lemma getSensorNameByHandle_cached h m str :
  SensorManager.mSensorHandleToName m !! h = Some str ->
  fst (SensorManager.getSensorNameByHandle h m) = Some str.
Proof.
  intros Hc. unfold SensorManager.getSensorNameByHandle. rewrite Hc. reflexivity.
Qed.

Lemma getSensorNameByHandle_stores h m str :
  fst (SensorManager.getSensorNameByHandle h m) = Some str ->
  SensorManager.mSensorHandleToName
    (snd (SensorManager.getSensorNameByHandle h m)) !! h = Some str.
Proof.
  unfold SensorManager.getSensorNameByHandle.
  destruct (SensorManager.mSensorHandleToName m !! h) eqn:Eh.
  - cbn. intros [= <-]. exact Eh.
  - destruct (match SensorManager.findSensorNameInList h (SensorManager.mSensors m) with
              | Some n => Some n | None => _ end); cbn; [|discriminate].
    intros [= <-]. apply lookup_insert_eq.
Qed.

(** C9: a name is returned exactly when the handle is cached or some
    static or dynamic sensor has it; on a cache miss the name is
    ["<stringType>:<name>"] of the first such sensor, static sensors first;
    and once a lookup has succeeded, every later lookup of the handle
    returns the same string, whatever happened to the sensor lists. *)
Theorem getSensorNameByHandle_memoized (h : Z) (m : SensorManager.t) :
  (is_Some (fst (SensorManager.getSensorNameByHandle h m)) <->
   is_Some (SensorManager.mSensorHandleToName m !! h) \/
   has_handle h (SensorManager.mSensors m) \/
   has_handle h (SensorManager.mDynamicSensors m)) /\
  (SensorManager.mSensorHandleToName m !! h = None ->
   forall l1 s l2,
     SensorManager.mSensors m ++ SensorManager.mDynamicSensors m = l1 ++ s :: l2 ->
     getHandle s = h -> (forall x, In x l1 -> getHandle x <> h) ->
     fst (SensorManager.getSensorNameByHandle h m) = Some (display_name s)) /\
  (forall str m',
     fst (SensorManager.getSensorNameByHandle h m) = Some str ->
     evolves (snd (SensorManager.getSensorNameByHandle h m)) m' ->
     fst (SensorManager.getSensorNameByHandle h m') = Some str).
Proof.
  split; [|split].
  - unfold SensorManager.getSensorNameByHandle.
    rewrite <- !findSensorNameInList_found.
    destruct (SensorManager.mSensorHandleToName m !! h) as [c|] eqn:Eh.
    + cbn. split; eauto.
    + destruct (SensorManager.findSensorNameInList h (SensorManager.mSensors m))
        as [n|] eqn:E1.
      * cbn. split; eauto.
      * destruct (SensorManager.findSensorNameInList h (SensorManager.mDynamicSensors m))
          as [n|] eqn:E2; cbn.
        -- split; eauto.
        -- split.
           ++ intros [x Hx]; discriminate.
           ++ intros [[x Hx]|[[x Hx]|[x Hx]]]; discriminate.
  - intros Hmiss l1 s l2 Hl Hs Hno.
    pose proof (findSensorNameInList_first h l1 s l2 Hs Hno) as Hf.
    rewrite <- Hl, findSensorNameInList_app in Hf.
    unfold SensorManager.getSensorNameByHandle. rewrite Hmiss, Hf. reflexivity.
  - intros str m' Hget Hev.
    apply getSensorNameByHandle_cached.
    apply (evolves_keeps_names _ _ Hev).
    apply getSensorNameByHandle_stores, Hget.
Qed.

(** ** Service death and recovery *)

(** The part of a manager that mirrors the remote service. *)
Definition service_state (m : SensorManager.t) :=
  (SensorManager.mSensorServer m, SensorManager.mSensorList m,
   SensorManager.mSensors m, SensorManager.mDynamicSensorList m,
   SensorManager.mDynamicSensors m, SensorManager.mDeathObserver m).

(** The part that is local to the client. *)
Definition client_state (m : SensorManager.t) :=
  (SensorManager.mSensorHandleToName m, SensorManager.mDirectConnection m,
   SensorManager.mDirectConnectionHandle m).

Lemma assertStateLocked_null_server flag w b m :
  SensorManager.mSensorServer m = None ->
  SensorManager.assertStateLocked flag w b m =
  let '(_, written, k) := waitForSensorService w true (calls b) in
  match written with
  | Some (Some srv) =>
      let sensors :=
        if SensorManager.mDeviceId m =? DEVICE_ID_DEFAULT
        then ISensorServer.getSensorList srv (SensorManager.mOpPackageName m)
        else ISensorServer.getRuntimeSensorList srv
               (SensorManager.mOpPackageName m) (SensorManager.mDeviceId m) in
      Ret (NO_ERROR,
           SensorManager.with_service m (Some srv)
             (Some (seq 0 (length sensors))) sensors
             (SensorManager.mDynamicSensorList m)
             (SensorManager.mDynamicSensors m) true,
           mkBinder k (ISensorServer.id srv :: deathLinks b))
  | _ => Fatal
  end.
Proof.
  intros Hnull. unfold SensorManager.assertStateLocked. rewrite Hnull.
  destruct (waitForSensorService w true (calls b)) as [[st written] k].
  destruct written as [[srv|]|]; reflexivity.
Qed.

(** C8, as amended: [sensorManagerDied] resets the server handle, both
    sensor arrays and both sensor vectors and touches nothing else; if the
    service can then be reached, the next [assertStateLocked] reconnects,
    links a death observer to the new connection and reloads the sensor
    vector from the service found (the plain list on the default device,
    the runtime list of the manager's device otherwise) with one array
    pointer per sensor, the dynamic sensors staying empty.  That leaves the
    service state exactly as the constructor would have built it at that
    moment, while the name cache and the direct-channel table and counter
    are the ones from before the death; if the service cannot be reached
    the process aborts. *)
Theorem sensorManagerDied_recovery (flag : bool) (w : World) (b : Binder)
    (m : SensorManager.t) :
  let d := SensorManager.sensorManagerDied m in
  service_state d = (None, None, [], None, [], SensorManager.mDeathObserver m) /\
  client_state d = client_state m /\
  (forall srv k,
     waitForSensorService w true (calls b) = (NO_ERROR, Some (Some srv), k) ->
     exists m' fresh b',
       SensorManager.assertStateLocked flag w b d = Ret (NO_ERROR, m', b') /\
       SensorManager.construct flag w b (SensorManager.mOpPackageName m)
         (SensorManager.mDeviceId m) = Ret (fresh, b') /\
       b' = mkBinder k (ISensorServer.id srv :: deathLinks b) /\
       SensorManager.mSensorServer m' = Some srv /\
       SensorManager.mDeathObserver m' = true /\
       SensorManager.mSensors m'
       = (if SensorManager.mDeviceId m =? DEVICE_ID_DEFAULT
          then ISensorServer.getSensorList srv (SensorManager.mOpPackageName m)
          else ISensorServer.getRuntimeSensorList srv
                 (SensorManager.mOpPackageName m) (SensorManager.mDeviceId m)) /\
       SensorManager.mSensorList m'
       = Some (seq 0 (length (SensorManager.mSensors m'))) /\
       SensorManager.mDynamicSensorList m' = None /\
       SensorManager.mDynamicSensors m' = [] /\
       service_state m' = service_state fresh /\
       client_state m' = client_state m) /\
  (forall st k,
     waitForSensorService w true (calls b) = (st, None, k) ->
     SensorManager.assertStateLocked flag w b d = Fatal).
Proof.
  cbv zeta. split; [reflexivity|]. split; [reflexivity|]. split.
  - intros srv k Hw.
    unfold SensorManager.construct.
    rewrite !assertStateLocked_null_server by reflexivity.
    rewrite Hw. cbn.
    eexists _, _, _. repeat split.
  - intros st k Hw.
    rewrite assertStateLocked_null_server by reflexivity.
    rewrite Hw. reflexivity.
Qed.

(** Two services that report a different sensor under handle 1, and a world
    where the first one is replaced by the second after the first
    connection. *)
Definition sensor_accel : Sensor := mkSensor 1 "accel" "A" 1 false.
Definition sensor_gyro : Sensor := mkSensor 1 "gyro" "B" 4 false.

Definition service_with (i : nat) (s : Sensor) : ISensorServer.t :=
  ISensorServer.mk i (fun _ => [s]) (fun _ _ => [s]) (fun _ => []).

Definition restart_world : World :=
  mkWorld (fun k => if (k <? 1)%nat
                    then (NO_ERROR, Some (service_with 0 sensor_accel))
                    else (NO_ERROR, Some (service_with 1 sensor_gyro)))
          (fun _ => NO_ERROR).

Definition binder0 : Binder := mkBinder 0 [].

(** A manager that connected to the first service and looked up handle 1,
    then saw the service die and re-established state. *)
Definition recovered_manager : Outcome (SensorManager.t * SensorManager.t) :=
  obind (SensorManager.construct true restart_world binder0 "pkg" 0)
    (fun '(m0, b1) =>
       let m1 := snd (SensorManager.getSensorNameByHandle 1 m0) in
       let d := SensorManager.sensorManagerDied m1 in
       obind (SensorManager.assertStateLocked true restart_world b1 d)
         (fun '(_, m2, _) =>
            obind (SensorManager.construct true restart_world b1 "pkg" 0)
              (fun '(fresh, _) => Ret (m2, fresh)))).

(** A manager connected to the first service, with its sensor loaded, a
    cached name and one direct channel, and the binder state after that
    first connection. *)
Definition connected_manager : SensorManager.t :=
  SensorManager.mk (Some (service_with 0 sensor_accel)) (Some [0%nat])
    [sensor_accel] None [] true "pkg" 0 2
    {[1 := 5%nat]} {[1 := "accel:A"%string]}.

Definition binder1 : Binder := mkBinder 1 [0%nat].

Lemma sensorManagerDied_recovery_witness :
  SensorManager.mSensors (SensorManager.sensorManagerDied connected_manager)
  = [] /\
  exists m' fresh b',
    SensorManager.assertStateLocked true restart_world binder1
      (SensorManager.sensorManagerDied connected_manager)
    = Ret (NO_ERROR, m', b') /\
    SensorManager.construct true restart_world binder1 "pkg" 0
    = Ret (fresh, b') /\
    SensorManager.mSensorServer m' = Some (service_with 1 sensor_gyro) /\
    SensorManager.mSensors m' = [sensor_gyro] /\
    SensorManager.mSensorList m' = Some [0%nat] /\
    deathLinks b' = [1%nat; 0%nat] /\
    service_state m' = service_state fresh /\
    client_state m' = client_state connected_manager.
Proof.
  pose proof (sensorManagerDied_recovery true restart_world binder1
                connected_manager) as H.
  cbv zeta in H. destruct H as (Hd & _ & Hrec & _).
  split.
  - unfold service_state in Hd. congruence.
  - destruct (Hrec (service_with 1 sensor_gyro) 2%nat eq_refl)
      as (m' & fresh & b' & Ha & Hc & Hb & Hsrv & _ & Hsens & Hlist & _ & _
          & Hs & Hcl).
    exists m', fresh, b'.
    split; [exact Ha|]. split; [exact Hc|]. split; [exact Hsrv|].
    split; [rewrite Hsens; reflexivity|].
    split; [rewrite Hlist, Hsens; reflexivity|].
    split; [rewrite Hb; reflexivity|].
    split; [exact Hs | exact Hcl].
Defined.

(** C8 as stated fails in its last clause: after death and recovery the
    manager still answers a name lookup from its cache, where a manager
    constructed at that moment reads the new sensor list. *)
Lemma recovered_manager_not_as_fresh :
  exists m2 fresh,
    recovered_manager = Ret (m2, fresh) /\
    service_state m2 = service_state fresh /\
    fst (SensorManager.getSensorNameByHandle 1 m2) = Some "accel:A"%string /\
    fst (SensorManager.getSensorNameByHandle 1 fresh) = Some "gyro:B"%string /\
    fst (SensorManager.getSensorNameByHandle 1 m2) <>
    fst (SensorManager.getSensorNameByHandle 1 fresh).
Proof.
  eexists _, _. split; [reflexivity|].
  split; [reflexivity|]. split; [reflexivity|]. split; [reflexivity|].
  discriminate.
Qed.

Lemma getSensorNameByHandle_memoized_witness :
  fst (SensorManager.getSensorNameByHandle 1
         (SensorManager.sensorManagerDied
            (snd (SensorManager.getSensorNameByHandle 1
                    (SensorManager.mk None None [sensor_accel] None [] false
                       "pkg" 0 1 ∅ ∅)))))
  = Some "accel:A"%string.
Proof.
  apply (proj2 (proj2 (getSensorNameByHandle_memoized 1
           (SensorManager.mk None None [sensor_accel] None [] false "pkg" 0 1 ∅ ∅)))).
  - reflexivity.
  - apply evolves_died, evolves_refl.
Defined.

(** ** The registry: cached hits, fresh names, and a changed device *)

Lemma std_map_insert_present {V} k (v v0 : V) (m : gmap string V) :
  m !! k = Some v0 -> std_map_insert k v m = m.
Proof. intros H. unfold std_map_insert. rewrite H. reflexivity. Qed.

Lemma std_map_insert_absent {V} k (v : V) (m : gmap string V) :
  m !! k = None -> std_map_insert k v m !! k = Some v.
Proof.
  intros H. unfold std_map_insert. rewrite H. apply lookup_insert_eq.
Qed.

(** A registered package whose device association is unchanged gets the
    cached instance back, and the registry is left alone. *)
Lemma getInstanceForPackage_cached flag w c name p ptr m :
  sPackageInstances p !! name = Some ptr ->
  objects p !! ptr = Some m ->
  SensorManager.mDeviceId m = getDeviceIdForUid c (getCallingUid c) ->
  exists p',
    getInstanceForPackage flag w c name p = Ret (ptr, p') /\
    sPackageInstances p' = sPackageInstances p /\ objects p' = objects p.
Proof.
  intros Hreg Hobj Hdev. unfold getInstanceForPackage.
  destruct (waitForSensorService w false (calls (binder p))) as [[st wr] k].
  rewrite Hreg, Hobj, Hdev, Z.eqb_refl. eexists. repeat split.
Qed.

(** A package name that is not registered yet is stored with the instance
    that is returned. *)
Lemma getInstanceForPackage_fresh_name flag w c name p ptr p' :
  sPackageInstances p !! name = None ->
  (String.length name =? 0)%nat = false ->
  getInstanceForPackage flag w c name p = Ret (ptr, p') ->
  sPackageInstances p' !! name = Some ptr.
Proof.
  intros Hreg Hne. unfold getInstanceForPackage.
  destruct (waitForSensorService w false (calls (binder p))) as [[st wr] k].
  rewrite Hreg, Hne. unfold obind.
  destruct (SensorManager.construct flag w _ name _) as [|[m b1]]; [discriminate|].
  intros [= <- <-]. cbn. apply std_map_insert_absent, Hreg.
Qed.

(** A registered package whose device association has changed gets a new
    instance, but [std::map::insert] keeps the old entry: the instance that
    is returned is not the one the registry holds. *)
Lemma getInstanceForPackage_changed_device flag w c name p ptr m q p' :
  sPackageInstances p !! name = Some ptr ->
  objects p !! ptr = Some m ->
  SensorManager.mDeviceId m <> getDeviceIdForUid c (getCallingUid c) ->
  (String.length name =? 0)%nat = false ->
  (ptr < nextObject p)%nat ->
  getInstanceForPackage flag w c name p = Ret (q, p') ->
  q = nextObject p /\ q <> ptr /\ sPackageInstances p' !! name = Some ptr.
Proof.
  intros Hreg Hobj Hdev Hne Hlt. unfold getInstanceForPackage.
  destruct (waitForSensorService w false (calls (binder p))) as [[st wr] k].
  rewrite Hreg, Hobj, Hne.
  apply Z.eqb_neq in Hdev. rewrite Hdev. unfold obind.
  destruct (SensorManager.construct flag w _ name _) as [|[m1 b1]]; [discriminate|].
  intros [= <- <-]. cbn.
  rewrite (std_map_insert_present _ _ _ _ Hreg).
  split; [reflexivity|]. split; [lia | exact Hreg].
Qed.

Definition steady_world : World :=
  mkWorld (fun _ => (NO_ERROR, Some (empty_service 0))) (fun _ => NO_ERROR).

Definition caller_on_default_device : Caller := mkCaller 10001 None None.

Definition caller_on_virtual_device : Caller :=
  mkCaller 10001
    (Some (mkVdm (fun _ => [7]) (fun _ => DEVICE_POLICY_CUSTOM))) None.

Definition process0 : Process := mkProcess ∅ ∅ 0 binder0 ∅.

(** An app asks for its manager on the default device, then moves to a
    virtual device with its own sensors and asks twice more.  The result
    lists the three instances returned and the final registry entry. *)
Definition device_change_run : Outcome (nat * nat * nat * option nat) :=
  obind (getInstanceForPackage true steady_world caller_on_default_device
           "com.example" process0)
    (fun '(a, p1) =>
       obind (getInstanceForPackage true steady_world caller_on_virtual_device
                "com.example" p1)
         (fun '(b, p2) =>
            obind (getInstanceForPackage true steady_world
                     caller_on_virtual_device "com.example" p2)
              (fun '(c, p3) =>
                 Ret (a, b, c, sPackageInstances p3 !! "com.example"%string)))).

(** C7 at its failing input: after the device association of a registered
    package has changed, two successive calls with the same package name
    and the same (new) device return two different instances, and the
    registry still holds the first, stale, instance. *)
Theorem getInstanceForPackage_stale_entry :
  device_change_run = Ret (0%nat, 1%nat, 2%nat, Some 0%nat).
Proof. vm_compute. reflexivity. Qed.

(** * The dispatch engine

    [VSyncDispatchTimerQueue] is used by the tests but its source is not
    among the files embedded here; the engine below follows the design
    document. *)
Module Engine.

(** Modelled from the spec: the registration state machine of
    [VSyncDispatchTimerQueue] (the engine source is missing): "Disarmed (no
    pending target) -> Scheduled (has a target wakeup time, awaiting
    dispatch) -> Dispatching (currently inside callback invocation)". *)
Inductive State :=
  | Disarmed
  | Scheduled (wakeupTime targetPulseTime : Z)
  | Dispatching.

(** Modelled from the spec: a registration of the missing engine (name for
    diagnostics, the callback it was registered with, the attributes of the
    last [schedule] request, its state). *)
Record Registration := mkReg {
  name : string;
  callback : nat;
  workDuration : Z;
  readyDuration : Z;
  lastKnownPulse : Z;
  state : State
}.

(** Modelled from the spec: the missing engine's bookkeeping, "the set of
    all live registrations and their pending target times" and the single
    armed Timer deadline (at most one by construction), with the two
    thresholds it is constructed with. *)
Record t := mk {
  registrations : list Registration;
  armed : option Z;
  groupThreshold : Z;
  moveThreshold : Z
}.

(** Modelled from the spec: the error kinds of the missing engine. *)
Inductive Error :=
  | NotRegistered | AlreadyReleased | PredictorUnavailable | TimerArmFailure.

(** Modelled from the spec: the missing engine as the tests construct it,
    with its group and move thresholds, no registration and no alarm. *)
Definition make (groupThreshold moveThreshold : Z) : t :=
  mk [] None groupThreshold moveThreshold.

Definition with_registrations (e : t) (regs : list Registration) : t :=
  mk regs (armed e) (groupThreshold e) (moveThreshold e).

Definition with_armed (e : t) (a : option Z) : t :=
  mk (registrations e) a (groupThreshold e) (moveThreshold e).

Definition with_state (r : Registration) (s : State) : Registration :=
  mkReg (name r) (callback r) (workDuration r) (readyDuration r)
        (lastKnownPulse r) s.

(** Modelled from the spec: the "computed wakeupTime" of a registration of
    the missing engine, defined while it is [Scheduled]. *)
Definition wakeupOf (r : Registration) : option Z :=
  match state r with
  | Scheduled w _ => Some w
  | _ => None
  end.

(** Modelled from the spec: what [recomputeNextDeadline] of the missing
    engine scans for, "the minimum wakeupTime across all Scheduled
    registrations". *)
Fixpoint minWakeup (regs : list Registration) : option Z :=
  match regs with
  | [] => None
  | r :: rest =>
      match wakeupOf r, minWakeup rest with
      | Some w, Some m => Some (Z.min w m)
      | Some w, None => Some w
      | None, m => m
      end
  end.

(** Modelled from the spec: [recomputeNextDeadline] of the missing engine,
    "scans all Scheduled registrations' wakeupTime, finds the minimum;
    compares against the currently armed Timer deadline; re-arms only if
    |newMin - armed| >= moveThreshold or nothing is armed; disarms if no
    registration remains Scheduled". *)
Definition recomputeNextDeadline (e : t) : t :=
  match minWakeup (registrations e) with
  | None => with_armed e None
  | Some newMin =>
      match armed e with
      | None => with_armed e (Some newMin)
      | Some a =>
          if moveThreshold e <=? Z.abs (newMin - a)
          then with_armed e (Some newMin)
          else e
      end
  end.

(** Modelled from the spec: [registerCallback] of the missing engine, "pure
    bookkeeping; does not schedule".  The handle is the slot index. *)
Definition registerCallback (name : string) (callbackFn : nat) (e : t)
  : nat * t :=
  (length (registrations e),
   with_registrations e
     (registrations e ++ [mkReg name callbackFn 0 0 0 Disarmed])).

(** Modelled from the spec: [schedule] of the missing engine, "computes
    earliestVsyncTime = lastKnownPulse + workDuration + readyDuration; asks
    the Tracker for the next anticipated pulse >= earliestVsyncTime; sets
    wakeupTime = predictedPulse - workDuration - readyDuration; overwrites
    any existing pending target", then the global deadline is recomputed.
    [predict] is the Tracker as it stands at the call. *)
Definition schedule (predict : Z -> option Z) (handle : nat)
    (workDuration readyDuration lastKnownPulse : Z) (e : t) : Error + t :=
  match registrations e !! handle with
  | None => inl NotRegistered
  | Some r =>
      let earliestVsyncTime := lastKnownPulse + workDuration + readyDuration in
      match predict earliestVsyncTime with
      | None => inl PredictorUnavailable
      | Some predictedPulse =>
          let wakeupTime := predictedPulse - workDuration - readyDuration in
          let r' := mkReg (name r) (callback r) workDuration readyDuration
                      lastKnownPulse (Scheduled wakeupTime predictedPulse) in
          inr (recomputeNextDeadline
                 (with_registrations e (<[handle := r']> (registrations e))))
      end
  end.

(** Modelled from the spec: [cancel] of the missing engine, "removes a
    pending (Scheduled) target; no-op (success) if nothing was pending", and
    a no-op that does not affect the in-flight call while [Dispatching]. *)
Definition cancel (handle : nat) (e : t) : Error + t :=
  match registrations e !! handle with
  | None => inl NotRegistered
  | Some r =>
      match state r with
      | Scheduled _ _ =>
          inr (recomputeNextDeadline
                 (with_registrations e
                    (<[handle := with_state r Disarmed]> (registrations e))))
      | _ => inr e
      end
  end.

(** Modelled from the spec: a due callback of the missing engine, the
    handle and the "targetWakeupTime, predictedPulseTime" it is invoked
    with. *)
Record Invocation := mkInvocation {
  handle : nat;
  targetWakeupTime : Z;
  predictedPulseTime : Z
}.

(** Modelled from the spec: the group window of the missing engine,
    "wakeupTime lies within [firedTime - groupThreshold, firedTime +
    groupThreshold]". *)
Definition isDue (firedTime g : Z) (r : Registration) : bool :=
  match state r with
  | Scheduled w _ => (firedTime - g <=? w) && (w <=? firedTime + g)
  | _ => false
  end.

(** Modelled from the spec: the due group of a firing of the missing
    engine, in slot order, with the handles counted from [i]. *)
Fixpoint collectDue (firedTime g : Z) (i : nat) (regs : list Registration)
  : list Invocation :=
  match regs with
  | [] => []
  | r :: rest =>
      match state r with
      | Scheduled w p =>
          if isDue firedTime g r
          then mkInvocation i w p :: collectDue firedTime g (S i) rest
          else collectDue firedTime g (S i) rest
      | _ => collectDue firedTime g (S i) rest
      end
  end.

(** Modelled from the spec: a due registration of the missing engine
    becomes [Dispatching]. *)
Definition markDue (firedTime g : Z) (r : Registration) : Registration :=
  if isDue firedTime g r then with_state r Dispatching else r.

(** Modelled from the spec: the first half of [onTimerFired(firedTime)] of
    the missing engine, "collects every Scheduled registration whose
    wakeupTime lies within [firedTime - groupThreshold, firedTime +
    groupThreshold]; transitions each to Dispatching".  The one-shot alarm
    has expired, so nothing is armed any more. *)
Definition onTimerFired (firedTime : Z) (e : t) : list Invocation * t :=
  (collectDue firedTime (groupThreshold e) 0 (registrations e),
   mk (markDue firedTime (groupThreshold e) <$> registrations e)
      None (groupThreshold e) (moveThreshold e)).

(** Modelled from the spec: after a callback of the missing engine returns,
    "transitions each back to Disarmed after return (unless the callback
    itself re-scheduled during its own execution, in which case it becomes
    Scheduled again)". *)
Definition afterInvocation (h : nat) (e : t) : t :=
  match registrations e !! h with
  | Some r =>
      match state r with
      | Dispatching =>
          with_registrations e (<[h := with_state r Disarmed]> (registrations e))
      | _ => e
      end
  | None => e
  end.

(** Modelled from the spec: the end of [onTimerFired] of the missing
    engine, "finally calls recomputeNextDeadline() to arm for the next
    soonest pending target". *)
Definition afterDispatch (e : t) : t := recomputeNextDeadline e.

End Engine.

(** ** The armed deadline and the minimum wakeup time *)

Definition orElse (e : Engine.t) (r : Engine.Error + Engine.t) : Engine.t :=
  match r with
  | inr e' => e'
  | inl _ => e
  end.

(** What the clients and the Timer thread can do to the engine, one
    critical section at a time.  A [schedule] call sees the Tracker as it
    stands when the call is made and can come at any moment, also from a
    callback or while a firing is in progress. *)
Inductive EngineCall :=
  | CallRegister (name : string) (callbackFn : nat)
  | CallSchedule (predict : Z -> option Z) (handle : nat)
      (workDuration readyDuration lastKnownPulse : Z)
  | CallCancel (handle : nat)
  | TimerFires (late : Z)
  | CallbackReturns (k : nat)
  | FiringEnds.

(** Modelled from the spec: the missing engine together with its Timer
    thread, which is idle ([firing = None]) or inside [onTimerFired] with
    the invocations of the due group that have not returned yet. *)
Record Running := mkRunning {
  engine : Engine.t;
  firing : option (list Engine.Invocation)
}.

(** Modelled from the spec: one step of the missing engine.  The Timer's
    alarm expires "at or after absoluteDeadline ... (never early)", [late]
    after the armed deadline, and [onTimerFired] collects the due group;
    each due callback is run and retired, in any order; "finally"
    [recomputeNextDeadline] ends the firing.  A step that cannot happen in
    the current state leaves it as it is. *)
Definition engineCall (c : EngineCall) (s : Running) : Running :=
  match c with
  | CallRegister n cb =>
      mkRunning (snd (Engine.registerCallback n cb (engine s))) (firing s)
  | CallSchedule predict h w r l =>
      mkRunning (orElse (engine s) (Engine.schedule predict h w r l (engine s)))
        (firing s)
  | CallCancel h =>
      mkRunning (orElse (engine s) (Engine.cancel h (engine s))) (firing s)
  | TimerFires late =>
      match firing s, Engine.armed (engine s) with
      | None, Some deadline =>
          if 0 <=? late then
            let '(due, e) := Engine.onTimerFired (deadline + late) (engine s) in
            mkRunning e (Some due)
          else s
      | _, _ => s
      end
  | CallbackReturns k =>
      match firing s with
      | Some due =>
          match due !! k with
          | Some inv =>
              mkRunning (Engine.afterInvocation (Engine.handle inv) (engine s))
                (Some (delete k due))
          | None => s
          end
      | None => s
      end
  | FiringEnds =>
      match firing s with
      | Some [] => mkRunning (Engine.afterDispatch (engine s)) None
      | _ => s
      end
  end.

Definition engineCalls (cs : list EngineCall) (s : Running) : Running :=
  fold_left (fun s' c => engineCall c s') cs s.

(** Some registration is Scheduled to wake up at [w]. *)
Definition scheduled_at (e : Engine.t) (w : Z) : Prop :=
  exists i r p,
    Engine.registrations e !! i = Some r /\
    Engine.state r = Engine.Scheduled w p.

(** [m] is the minimum wakeup time over the Scheduled registrations. *)
Definition earliest_wakeup (e : Engine.t) (m : Z) : Prop :=
  scheduled_at e m /\ forall w, scheduled_at e w -> m <= w.

(** The invariant the move threshold leaves. *)
Definition armed_near_min (e : Engine.t) : Prop :=
  match Engine.armed e, Engine.minWakeup (Engine.registrations e) with
  | None, None => True
  | Some d, Some m => d = m \/ Z.abs (m - d) < Engine.moveThreshold e
  | _, _ => False
  end.

(** What is left of it while a firing is in progress: the alarm has
    expired, and only a [schedule] or [cancel] call arms the Timer again
    before the firing ends. *)
Definition armed_none_or_near_min (e : Engine.t) : Prop :=
  Engine.armed e = None \/ armed_near_min e.

Lemma recompute_near_min (e : Engine.t) :
  armed_near_min (Engine.recomputeNextDeadline e).
Proof.
  unfold armed_near_min, Engine.recomputeNextDeadline.
  destruct (Engine.minWakeup (Engine.registrations e)) as [m|] eqn:Em; cbn.
  - destruct (Engine.armed e) as [a|] eqn:Ea; cbn.
    + destruct (Engine.moveThreshold e <=? Z.abs (m - a)) eqn:Et; cbn.
      * rewrite Em. left. reflexivity.
      * rewrite Ea, Em. right. apply Z.leb_gt in Et. exact Et.
    + rewrite Em. left. reflexivity.
  - rewrite Em. exact I.
Qed.

Lemma recompute_moveThreshold (e : Engine.t) :
  Engine.moveThreshold (Engine.recomputeNextDeadline e) = Engine.moveThreshold e.
Proof.
  unfold Engine.recomputeNextDeadline.
  destruct (Engine.minWakeup _); [destruct (Engine.armed e)|];
    try destruct (_ <=? _); reflexivity.
Qed.

Lemma minWakeup_app_disarmed regs r :
  Engine.state r = Engine.Disarmed ->
  Engine.minWakeup (regs ++ [r]) = Engine.minWakeup regs.
Proof.
  intros Hr. induction regs as [|x regs IH]; cbn.
  - unfold Engine.wakeupOf. rewrite Hr. reflexivity.
  - rewrite IH. reflexivity.
Qed.

Lemma minWakeup_insert_same regs i r r' :
  regs !! i = Some r -> Engine.wakeupOf r' = Engine.wakeupOf r ->
  Engine.minWakeup (<[i := r']> regs) = Engine.minWakeup regs.
Proof.
  revert i. induction regs as [|x regs IH]; intros [|i] Hr Hw; simpl in *;
    try discriminate.
  - injection Hr as ->. rewrite Hw. reflexivity.
  - rewrite (IH i Hr Hw). reflexivity.
Qed.

(** [minWakeup] is the least wakeup time of a Scheduled registration, and
    there is none exactly when no registration is Scheduled. *)
Lemma minWakeup_least regs m :
  Engine.minWakeup regs = Some m ->
  forall i r w, regs !! i = Some r -> Engine.wakeupOf r = Some w -> m <= w.
Proof.
  revert m. induction regs as [|x regs IH]; intros m Hm [|i] r w Hr Hw;
    simpl in *; try discriminate.
  - injection Hr as ->. rewrite Hw in Hm.
    destruct (Engine.minWakeup regs); injection Hm as <-; lia.
  - destruct (Engine.wakeupOf x) as [wx|].
    + destruct (Engine.minWakeup regs) as [m'|] eqn:Em.
      * injection Hm as <-. specialize (IH m' eq_refl i r w Hr Hw). lia.
      * exfalso. clear IH Hm. revert i Hr Em.
        induction regs as [|y regs IHr]; intros i Hr Em; [discriminate|].
        destruct i; simpl in *.
        -- injection Hr as ->. rewrite Hw in Em.
           destruct (Engine.minWakeup regs); discriminate.
        -- destruct (Engine.wakeupOf y); [destruct (Engine.minWakeup regs)|];
             try discriminate. apply (IHr i Hr Em).
    + apply (IH m Hm i r w Hr Hw).
Qed.

Lemma minWakeup_earliest (e : Engine.t) (m : Z) :
  Engine.minWakeup (Engine.registrations e) = Some m -> earliest_wakeup e m.
Proof.
  intros Hm. split.
  - assert (H : exists r, In r (Engine.registrations e) /\
                          Engine.wakeupOf r = Some m).
    { revert m Hm. generalize (Engine.registrations e) as regs.
      induction regs as [|r regs IH]; intros m; cbn; [discriminate|].
      destruct (Engine.wakeupOf r) as [w|] eqn:Ew.
      - destruct (Engine.minWakeup regs) as [m'|] eqn:Em.
        + intros [= <-]. destruct (Z.min_spec w m') as [[_ ->]|[_ ->]].
          * exists r. split; [left; reflexivity | exact Ew].
          * destruct (IH m' eq_refl) as (r' & Hin & Hw).
            exists r'. split; [right; exact Hin | exact Hw].
        + intros [= <-]. exists r. split; [left; reflexivity | exact Ew].
      - intros Hm. destruct (IH m Hm) as (r' & Hin & Hw).
        exists r'. split; [right; exact Hin | exact Hw]. }
    destruct H as (r & Hin & Hw).
    apply list_elem_of_In, list_elem_of_lookup in Hin as [i Hi].
    unfold Engine.wakeupOf in Hw.
    destruct (Engine.state r) as [|w p|] eqn:Es; try discriminate.
    injection Hw as ->. exists i, r, p. split; assumption.
  - intros w (i & r & p & Hr & Hs).
    apply (minWakeup_least _ m Hm i r w Hr).
    unfold Engine.wakeupOf. rewrite Hs. reflexivity.
Qed.

Lemma minWakeup_none (e : Engine.t) :
  Engine.minWakeup (Engine.registrations e) = None ->
  forall w, ~ scheduled_at e w.
Proof.
  intros Hm w (i & r & p & Hr & Hs). revert i Hr Hm.
  generalize (Engine.registrations e) as regs.
  induction regs as [|x regs IH]; intros [|i] Hr Hm; simpl in *;
    try discriminate.
  - injection Hr as ->. unfold Engine.wakeupOf in Hm. rewrite Hs in Hm.
    destruct (Engine.minWakeup regs); discriminate.
  - destruct (Engine.wakeupOf x); [destruct (Engine.minWakeup regs)|];
      try discriminate. apply (IH i Hr Hm).
Qed.

(** The state of the Timer agrees with the registrations: as the move
    threshold allows when no firing is in progress, and disarmed or so
    during one. *)
Definition deadline_ok (mv : Z) (s : Running) : Prop :=
  Engine.moveThreshold (engine s) = mv /\
  match firing s with
  | None => armed_near_min (engine s)
  | Some _ => armed_none_or_near_min (engine s)
  end.

Lemma near_min_weaken (s : Running) :
  match firing s with
  | None => armed_near_min (engine s)
  | Some _ => armed_none_or_near_min (engine s)
  end -> armed_none_or_near_min (engine s).
Proof.
  destruct (firing s); [tauto | right; assumption].
Qed.

Lemma near_min_strengthen (s : Running) e' :
  armed_near_min e' ->
  match firing s with
  | None => armed_near_min e'
  | Some _ => armed_none_or_near_min e'
  end.
Proof.
  intros H. destruct (firing s); [right|]; exact H.
Qed.

Lemma engineCall_deadline_ok mv c s :
  deadline_ok mv s -> deadline_ok mv (engineCall c s).
Proof.
  intros (Hmv & Hs). unfold deadline_ok.
  destruct c as [n cb|predict h w r l|h|late|k|]; cbn [engineCall].
  - cbn. split; [exact Hmv|].
    unfold armed_none_or_near_min, armed_near_min in *. cbn.
    rewrite minWakeup_app_disarmed by reflexivity. exact Hs.
  - cbn [engine firing]. unfold Engine.schedule.
    destruct (Engine.registrations (engine s) !! h); [|split; assumption].
    destruct (predict (l + w + r)); [|split; assumption].
    cbn [orElse]. split; [rewrite recompute_moveThreshold; exact Hmv|].
    apply (near_min_strengthen s), recompute_near_min.
  - cbn [engine firing]. unfold Engine.cancel.
    destruct (Engine.registrations (engine s) !! h) as [x|]; [|split; assumption].
    destruct (Engine.state x); try (split; assumption).
    cbn [orElse]. split; [rewrite recompute_moveThreshold; exact Hmv|].
    apply (near_min_strengthen s), recompute_near_min.
  - destruct (firing s) eqn:Ef; [split; [exact Hmv | rewrite Ef; exact Hs]|].
    destruct (Engine.armed (engine s));
      [|split; [exact Hmv | rewrite Ef; exact Hs]].
    destruct (0 <=? late); [|split; [exact Hmv | rewrite Ef; exact Hs]].
    cbn. split; [exact Hmv|]. left. reflexivity.
  - destruct (firing s) as [due|] eqn:Ef;
      [|split; [exact Hmv | rewrite Ef; exact Hs]].
    destruct (due !! k) as [inv|];
      [|split; [exact Hmv | rewrite Ef; exact Hs]].
    cbn [engine firing]. unfold Engine.afterInvocation.
    destruct (Engine.registrations (engine s) !! Engine.handle inv)
      as [reg|] eqn:Hreg; [|split; assumption].
    destruct (Engine.state reg) eqn:Es; try (split; assumption).
    cbn. split; [exact Hmv|].
    unfold armed_none_or_near_min, armed_near_min in *. cbn.
    rewrite (minWakeup_insert_same _ _ reg) by
      (try exact Hreg; unfold Engine.wakeupOf; cbn; rewrite Es; reflexivity).
    exact Hs.
  - destruct (firing s) as [[|inv due]|] eqn:Ef;
      try (split; [exact Hmv | rewrite Ef; exact Hs]).
    cbn. unfold Engine.afterDispatch.
    split; [rewrite recompute_moveThreshold; exact Hmv | apply recompute_near_min].
Qed.

Lemma engineCalls_deadline_ok mv cs s :
  deadline_ok mv s -> deadline_ok mv (engineCalls cs s).
Proof.
  unfold engineCalls. revert s.
  induction cs as [|c cs IH]; intros s Hs; cbn; [exact Hs|].
  apply IH, engineCall_deadline_ok, Hs.
Qed.


Definition fixed_rate_predict (t : Z) : option Z :=
  Some (FixedRateIdealStubTracker.nextAnticipatedVSyncTimeFrom t).

(** One client schedules for the pulse at 3ms, then asks again with 100us
    of work: the pending wakeup moves 100us earlier. *)
Definition nudged_engine : Running :=
  engineCalls
    [CallRegister "repeat0" 0;
     CallSchedule fixed_rate_predict 0 0 0 (toNs_ms 3);
     CallSchedule fixed_rate_predict 0 (toNs_us 100) 0 (toNs_us 2900)]
    (mkRunning (Engine.make (toNs_us 100) (toNs_us 500)) None).

(** Two clients schedule for the pulses at 3ms and 6ms, and the alarm for
    the first expires: its callback has been collected and not yet
    returned. *)
Definition firing_engine : Running :=
  engineCalls
    [CallRegister "repeat0" 0;
     CallRegister "repeat0" 1;
     CallSchedule fixed_rate_predict 0 0 0 (toNs_ms 3);
     CallSchedule fixed_rate_predict 1 0 0 (toNs_ms 6);
     TimerFires 0]
    (mkRunning (Engine.make (toNs_us 100) (toNs_us 500)) None).


(** * The realtime tests: [RepeatingCallbackReceiver] against the engine *)
Module RepeatingCallbackReceiver.

(** Where the thread running [repeatedly_schedule] stands. *)
Inductive Pc :=
  | AtStart
  | AtWait (i : Z)
  | AtFrame (i last : Z)
  | AtSchedule (i last : Z)
  | AtFinalWait
  | AtDone.

Record t := mk {
  mWorkload : Z;
  mReadyDuration : Z;
  mCallback : nat;
  mCalled : bool;
  mLastTarget : Z;
  mCallbackTimes : list Z;
  pc : Pc
}.

Definition make (workload readyDuration : Z) (registration : nat) : t :=
  mk workload readyDuration registration false 0 [] AtStart.

Definition callback_called (time : Z) (c : t) : t :=
  mk (mWorkload c) (mReadyDuration c) (mCallback c) true time
     (mCallbackTimes c ++ [time]) (pc c).

Definition with_pc (c : t) (p : Pc) : t :=
  mk (mWorkload c) (mReadyDuration c) (mCallback c) (mCalled c)
     (mLastTarget c) (mCallbackTimes c) p.

Definition with_called (c : t) (called : bool) : t :=
  mk (mWorkload c) (mReadyDuration c) (mCallback c) called
     (mLastTarget c) (mCallbackTimes c) (pc c).

(** [iterations - 1] in [size_t]. *)
Definition loop_bound (iterations : Z) : Z := (iterations - 1) mod 2 ^ 64.

(** The loop test [i < iterations - 1] of [repeatedly_schedule]. *)
Definition loop_head (iterations i : Z) : Pc :=
  if i <? loop_bound iterations then AtWait i else AtFinalWait.

(** [i++] on [unsigned]. *)
Definition incr (i : Z) : Z := (i + 1) mod 2 ^ 32.

End RepeatingCallbackReceiver.

(** Modelled from the spec: the "exactly one timer-firing execution
    context" of the missing engine, idle or in the middle of a firing with
    the invocations still to make and the handle whose callback has been
    invoked and not yet retired. *)
Inductive Phase :=
  | Idle
  | Firing (firedTime : Z) (due : list Engine.Invocation) (current : option nat).

(** A test in flight: the tracker together with what [onEachFrame]
    captures, the engine, the timer thread and the receivers. *)
Record System (Fixture : Type) := mkSystem {
  fixture : Fixture;
  dispatch : Engine.t;
  phase : Phase;
  cb_receiver : list RepeatingCallbackReceiver.t
}.
Arguments mkSystem {Fixture} _ _ _ _.
Arguments fixture {Fixture} _.
Arguments dispatch {Fixture} _.
Arguments phase {Fixture} _.
Arguments cb_receiver {Fixture} _.

(** The atomic actions of the threads.  [Client c now] lets the thread of
    receiver [c] take its next action ([now] is what [systemTime] returns if
    it reads the clock); the other four are the timer thread's:
    [TimerExpired late] is the alarm going off [late] after the deadline it
    was armed for. *)
Inductive Label :=
  | Client (c : nat) (now : Z)
  | TimerExpired (late : Z)
  | InvokeCallback (k : nat)
  | CallbackReturned
  | DispatchDone.

Section Dispatch.

Context {Fixture : Type}.
(** [tracker->nextAnticipatedVSyncTimeFrom] on the fixture's tracker. *)
Variable predict : Fixture -> Z -> option Z.
(** The [onEachFrame] function of the test. *)
Variable onEachFrame : Z -> Fixture -> Fixture.
(** [mIterations]. *)
Variable iterations : Z.

Definition set_receiver (s : System Fixture) (c : nat)
    (r : RepeatingCallbackReceiver.t) : System Fixture :=
  mkSystem (fixture s) (dispatch s) (phase s) (<[c := r]> (cb_receiver s)).

(** [mCallback.schedule({workDuration, readyDuration, lastVsync})]; the
    receiver ignores the result. *)
Definition receiver_schedule (s : System Fixture)
    (r : RepeatingCallbackReceiver.t) (lastVsync : Z) : Engine.t :=
  orElse (dispatch s)
    (Engine.schedule (predict (fixture s))
       (RepeatingCallbackReceiver.mCallback r)
       (RepeatingCallbackReceiver.mWorkload r)
       (RepeatingCallbackReceiver.mReadyDuration r) lastVsync (dispatch s)).

(** One action of the thread in [repeatedly_schedule]; [None] when the
    thread is blocked on the condition variable or has finished. *)
Definition client_step (c : nat) (now : Z) (s : System Fixture)
  : option (System Fixture) :=
  match cb_receiver s !! c with
  | None => None
  | Some r =>
      let work := RepeatingCallbackReceiver.mWorkload r in
      let ready := RepeatingCallbackReceiver.mReadyDuration r in
      match RepeatingCallbackReceiver.pc r with
      | RepeatingCallbackReceiver.AtStart =>
          Some (mkSystem (fixture s)
                  (receiver_schedule s r (Nsecs.add (Nsecs.add now work) ready))
                  (phase s)
                  (<[c := RepeatingCallbackReceiver.with_pc r
                            (RepeatingCallbackReceiver.loop_head iterations 0)]>
                     (cb_receiver s)))
      | RepeatingCallbackReceiver.AtWait i =>
          if RepeatingCallbackReceiver.mCalled r then
            Some (set_receiver s c
                    (RepeatingCallbackReceiver.with_pc
                       (RepeatingCallbackReceiver.with_called r false)
                       (RepeatingCallbackReceiver.AtFrame i
                          (RepeatingCallbackReceiver.mLastTarget r))))
          else None
      | RepeatingCallbackReceiver.AtFrame i last =>
          Some (mkSystem (onEachFrame last (fixture s)) (dispatch s) (phase s)
                  (<[c := RepeatingCallbackReceiver.with_pc r
                            (RepeatingCallbackReceiver.AtSchedule i last)]>
                     (cb_receiver s)))
      | RepeatingCallbackReceiver.AtSchedule i last =>
          Some (mkSystem (fixture s)
                  (receiver_schedule s r (Nsecs.add (Nsecs.add last work) ready))
                  (phase s)
                  (<[c := RepeatingCallbackReceiver.with_pc r
                            (RepeatingCallbackReceiver.loop_head iterations
                               (RepeatingCallbackReceiver.incr i))]>
                     (cb_receiver s)))
      | RepeatingCallbackReceiver.AtFinalWait =>
          if RepeatingCallbackReceiver.mCalled r then
            Some (set_receiver s c
                    (RepeatingCallbackReceiver.with_pc r
                       RepeatingCallbackReceiver.AtDone))
          else None
      | RepeatingCallbackReceiver.AtDone => None
      end
  end.

(** Modelled from the spec: how the missing engine runs on the Timer
    thread.  "onFire is invoked once, asynchronously, at or after
    absoluteDeadline ... (never early)": the alarm expires [late >= 0]
    after the armed deadline and the firing is [onTimerFired] of that
    time; every due registration's callback is then invoked, in any order
    and one at a time, with "(actualInvocationTime, targetWakeupTime,
    predictedPulseTime)", each registration is retired after its callback
    returns, and the deadline is recomputed at the end.  The receiver's
    callback is the lambda of the test, which passes the first argument to
    [callback_called]. *)
Definition timer_step (l : Label) (s : System Fixture)
  : option (System Fixture) :=
  match l, phase s with
  | TimerExpired late, Idle =>
      match Engine.armed (dispatch s) with
      | Some deadline =>
          if 0 <=? late then
            let firedTime := deadline + late in
            let '(due, e) := Engine.onTimerFired firedTime (dispatch s) in
            Some (mkSystem (fixture s) e (Firing firedTime due None)
                    (cb_receiver s))
          else None
      | None => None
      end
  | InvokeCallback k, Firing firedTime due None =>
      match due !! k with
      | Some inv =>
          match Engine.registrations (dispatch s) !! Engine.handle inv with
          | Some reg =>
              match cb_receiver s !! Engine.callback reg with
              | Some r =>
                  Some (mkSystem (fixture s) (dispatch s)
                          (Firing firedTime (delete k due)
                             (Some (Engine.handle inv)))
                          (<[Engine.callback reg :=
                               RepeatingCallbackReceiver.callback_called
                                 firedTime r]> (cb_receiver s)))
              | None => None
              end
          | None => None
          end
      | None => None
      end
  | CallbackReturned, Firing firedTime due (Some h) =>
      Some (mkSystem (fixture s) (Engine.afterInvocation h (dispatch s))
              (Firing firedTime due None) (cb_receiver s))
  | DispatchDone, Firing firedTime [] None =>
      Some (mkSystem (fixture s) (Engine.afterDispatch (dispatch s)) Idle
              (cb_receiver s))
  | _, _ => None
  end.

Definition step (l : Label) (s : System Fixture) : option (System Fixture) :=
  match l with
  | Client c now => client_step c now s
  | _ => timer_step l s
  end.

(** A schedule of the threads, action by action. *)
Fixpoint exec (ls : list Label) (s : System Fixture)
  : option (System Fixture) :=
  match ls with
  | [] => Some s
  | l :: rest =>
      match step l s with
      | Some s' => exec rest s'
      | None => None
      end
  end.

(** Every thread has left [repeatedly_schedule]. *)
Definition all_done (s : System Fixture) : bool :=
  forallb (fun r => match RepeatingCallbackReceiver.pc r with
                    | RepeatingCallbackReceiver.AtDone => true
                    | _ => false
                    end) (cb_receiver s).

(** The fixture of a test: the engine with the test's thresholds and one
    receiver per [(workload, readyDuration)], each registering its callback
    as ["repeat0"] when it is constructed. *)
Definition add_receiver (acc : Engine.t * list RepeatingCallbackReceiver.t)
    (client : Z * Z) : Engine.t * list RepeatingCallbackReceiver.t :=
  let '(e, rs) := acc in
  let '(registration, e') := Engine.registerCallback "repeat0" (length rs) e in
  (e', rs ++ [RepeatingCallbackReceiver.make (fst client) (snd client)
                registration]).

Definition start (f : Fixture) (groupThreshold moveThreshold : Z)
    (clients : list (Z * Z)) : System Fixture :=
  let '(e, rs) :=
    fold_left add_receiver clients
      (Engine.make groupThreshold moveThreshold, []) in
  mkSystem f e Idle rs.

End Dispatch.

(** [mDispatchGroupThreshold], [mVsyncMoveThreshold], [mIterations]. *)
Definition mDispatchGroupThreshold : Z := toNs_us 100.
Definition mVsyncMoveThreshold : Z := toNs_us 500.
Definition mIterations : Z := 20.

(** ** The three tests *)

(** [triple_alarm]: the fixed-rate tracker, a no-op [on_each_frame]. *)
Module TripleAlarm.

Definition predict (_ : unit) (t : Z) : option Z :=
  Some (FixedRateIdealStubTracker.nextAnticipatedVSyncTimeFrom t).

Definition on_each_frame (_ : Z) (f : unit) : unit := f.

Definition clients : list (Z * Z) :=
  [(toNs_us 1500, toNs_us 2500); (toNs_h 0, toNs_h 0); (toNs_ms 1, toNs_ms 3)].

Definition init : System unit :=
  start tt mDispatchGroupThreshold mVsyncMoveThreshold clients.

End TripleAlarm.

(** [vascillating_vrr]: [on_each_frame] captures [next_vsync_interval] and
    the tracker. *)
Module VascillatingVrr.

Record Fixture := mkFixture {
  next_vsync_interval : Z;
  tracker : VRRStubTracker.t
}.

Definition predict (f : Fixture) (t : Z) : option Z :=
  Some (VRRStubTracker.nextAnticipatedVSyncTimeFrom (tracker f) t).

Definition on_each_frame (last_known : Z) (f : Fixture) : Fixture :=
  let next := Nsecs.add (next_vsync_interval f) (toNs_ms 1) in
  mkFixture next (VRRStubTracker.set_interval next last_known (tracker f)).

Definition clients : list (Z * Z) := [(toNs_ms 1, toNs_ms 5)].

Definition init : System Fixture :=
  start (mkFixture (toNs_ms 3) (VRRStubTracker.make (toNs_ms 3)))
    mDispatchGroupThreshold mVsyncMoveThreshold clients.

End VascillatingVrr.

(** [fixed_jump]: [on_each_frame] captures [jump_frame_counter] (an
    [unsigned]) and the tracker. *)
Module FixedJump.

Record Fixture := mkFixture {
  jump_frame_counter : Z;
  tracker : VRRStubTracker.t
}.

Definition jump_frame_at : Z := 10.

Definition predict (f : Fixture) (t : Z) : option Z :=
  Some (VRRStubTracker.nextAnticipatedVSyncTimeFrom (tracker f) t).

Definition on_each_frame (last_known : Z) (f : Fixture) : Fixture :=
  let counter := jump_frame_counter f in
  mkFixture ((counter + 1) mod 2 ^ 32)
    (if counter =? jump_frame_at
     then VRRStubTracker.set_interval (toNs_ms 5) last_known (tracker f)
     else tracker f).

Definition clients : list (Z * Z) := [(toNs_ms 1, toNs_ms 5)].

Definition init : System Fixture :=
  start (mkFixture 0 (VRRStubTracker.make (toNs_ms 3)))
    mDispatchGroupThreshold mVsyncMoveThreshold clients.

End FixedJump.

(** A schedule for running the tests: at each point the first thread that
    can act does, receivers before the timer thread; every clock reading
    is [now] and every alarm goes off [late] after its deadline. *)
Section EagerSchedule.

Context {Fixture : Type}.
Variable predict : Fixture -> Z -> option Z.
Variable onEachFrame : Z -> Fixture -> Fixture.
Variable iterations : Z.
Variable now : Z.
Variable late : Z.

Definition enabled (l : Label) (s : System Fixture) : bool :=
  match step predict onEachFrame iterations l s with
  | Some _ => true
  | None => false
  end.

Definition candidates (s : System Fixture) : list Label :=
  map (fun c => Client c now) (seq 0 (length (cb_receiver s)))
  ++ [TimerExpired late; InvokeCallback 0; CallbackReturned; DispatchDone].

Fixpoint eager_schedule (fuel : nat) (s : System Fixture) : list Label :=
  match fuel with
  | O => []
  | S fuel' =>
      match List.find (fun l => enabled l s) (candidates s) with
      | Some l =>
          match step predict onEachFrame iterations l s with
          | Some s' => l :: eager_schedule fuel' s'
          | None => []
          end
      | None => []
      end
  end.

End EagerSchedule.

(** ** Bookkeeping lemmas for the engine *)

(** Sum of a weight over a list. *)
Fixpoint total {A} (f : A -> Z) (l : list A) : Z :=
  match l with
  | [] => 0
  | x :: rest => f x + total f rest
  end.

Lemma total_insert {A} (f : A -> Z) (l : list A) i x y :
  l !! i = Some x -> total f (<[i := y]> l) = total f l - f x + f y.
Proof.
  revert i. induction l as [|a l IH]; intros [|i] H; simpl in *; try discriminate.
  - injection H as ->. lia.
  - rewrite (IH i H). lia.
Qed.

Lemma total_nonneg {A} (f : A -> Z) (l : list A) :
  (forall x, x ∈ l -> 0 <= f x) -> 0 <= total f l.
Proof.
  induction l as [|a l IH]; intros H; cbn; [lia|].
  assert (0 <= f a) by (apply H; left).
  assert (0 <= total f l) by (apply IH; intros x Hx; apply H; right; exact Hx).
  lia.
Qed.

Lemma total_const {A} (f : A -> Z) (l : list A) k :
  (forall x, x ∈ l -> f x = k) -> total f l = Z.of_nat (length l) * k.
Proof.
  induction l as [|a l IH]; intros H; [reflexivity|].
  cbn [total length].
  rewrite IH by (intros x Hx; apply H; right; exact Hx).
  rewrite (H a) by left. lia.
Qed.

Definition stateWeight (r : Engine.Registration) : Z :=
  match Engine.state r with
  | Engine.Scheduled _ _ => 4
  | _ => 0
  end.

Lemma isDue_scheduled d g r :
  Engine.isDue d g r = true ->
  exists w p, Engine.state r = Engine.Scheduled w p.
Proof.
  unfold Engine.isDue. destruct (Engine.state r); try discriminate. eauto.
Qed.

Lemma collectDue_handles d g i regs h :
  h ∈ Engine.handle <$> Engine.collectDue d g i regs <->
  (i <= h)%nat /\ exists r, regs !! (h - i)%nat = Some r /\ Engine.isDue d g r = true.
Proof.
  revert i. induction regs as [|r regs IH]; intros i; cbn [Engine.collectDue].
  - split.
    + intros H. inversion H.
    + intros (_ & r & Hr & _). discriminate.
  - assert (Hrec : h ∈ Engine.handle <$> Engine.collectDue d g (S i) regs <->
                   (i < h)%nat /\ exists r0, (r :: regs) !! (h - i)%nat = Some r0
                                             /\ Engine.isDue d g r0 = true).
    { rewrite IH. split.
      - intros (Hi & r0 & Hr0 & Hd). split; [lia|]. exists r0. split; [|exact Hd].
        replace (h - i)%nat with (S (h - S i)) by lia. exact Hr0.
      - intros (Hi & r0 & Hr0 & Hd). split; [lia|]. exists r0. split; [|exact Hd].
        replace (h - i)%nat with (S (h - S i)) in Hr0 by lia. exact Hr0. }
    assert (Hhere : forall r0, (r :: regs) !! (i - i)%nat = Some r0 -> r0 = r).
    { intros r0. rewrite Nat.sub_diag. cbn. congruence. }
    destruct (Engine.isDue d g r) eqn:Ed.
    + destruct (isDue_scheduled _ _ _ Ed) as (w & p & Hs). rewrite Hs.
      rewrite fmap_cons, elem_of_cons, Hrec. cbn [Engine.handle]. split.
      * intros [->|(Hi & Hr)].
        -- split; [lia|]. exists r. rewrite Nat.sub_diag. split; [reflexivity|exact Ed].
        -- split; [lia | exact Hr].
      * intros (Hi & r0 & Hr0 & Hd).
        destruct (decide (h = i)) as [->|Hne]; [left; reflexivity|].
        right. split; [lia|]. exists r0. split; assumption.
    + assert (Hskip : h ∈ Engine.handle <$> Engine.collectDue d g (S i) regs <->
                      (i <= h)%nat /\ exists r0, (r :: regs) !! (h - i)%nat = Some r0
                                                 /\ Engine.isDue d g r0 = true).
      { rewrite Hrec. split.
        - intros (Hi & Hr). split; [lia | exact Hr].
        - intros (Hi & r0 & Hr0 & Hd). split; [|exists r0; split; assumption].
          destruct (decide (h = i)) as [->|Hne]; [|lia].
          apply Hhere in Hr0. subst r0. congruence. }
      destruct (Engine.state r); exact Hskip.
Qed.

Lemma collectDue_lower d g i regs h :
  h ∈ Engine.handle <$> Engine.collectDue d g i regs -> (i <= h)%nat.
Proof. rewrite collectDue_handles. tauto. Qed.

Lemma collectDue_NoDup d g i regs :
  NoDup (Engine.handle <$> Engine.collectDue d g i regs).
Proof.
  revert i. induction regs as [|r regs IH]; intros i; cbn [Engine.collectDue].
  - constructor.
  - destruct (Engine.state r) eqn:Es; try apply IH.
    destruct (Engine.isDue d g r); [|apply IH].
    rewrite fmap_cons. apply NoDup_cons. split; [|apply IH].
    intros Hin. apply collectDue_lower in Hin. cbn in Hin. lia.
Qed.

(** Marking the due group moves weight from the registrations to the due
    list. *)
Lemma collectDue_weight d g i regs :
  total stateWeight (Engine.markDue d g <$> regs)
  + 4 * Z.of_nat (length (Engine.collectDue d g i regs))
  = total stateWeight regs.
Proof.
  revert i. induction regs as [|r regs IH]; intros i; [reflexivity|].
  rewrite fmap_cons. cbn [Engine.collectDue total].
  specialize (IH (S i)).
  unfold Engine.markDue at 1.
  destruct (Engine.isDue d g r) eqn:Ed.
  - destruct (isDue_scheduled _ _ _ Ed) as (w & p & Hs). rewrite Hs.
    unfold stateWeight at 1. cbn [Engine.with_state Engine.state].
    unfold stateWeight at 2. rewrite Hs. cbn [length]. lia.
  - assert (Hsame : total stateWeight (Engine.markDue d g <$> regs)
                    + 4 * Z.of_nat (length (Engine.collectDue d g (S i) regs))
                    + stateWeight r = stateWeight r + total stateWeight regs) by lia.
    destruct (Engine.state r); lia.
Qed.

Lemma collectDue_empty d g i regs :
  Engine.collectDue d g i regs = [] -> existsb (Engine.isDue d g) regs = false.
Proof.
  revert i. induction regs as [|r regs IH]; intros i; cbn [Engine.collectDue existsb];
    [reflexivity|].
  destruct (Engine.isDue d g r) eqn:Ed.
  - destruct (isDue_scheduled _ _ _ Ed) as (w & p & Hs). rewrite Hs. discriminate.
  - intros H. cbn. apply (IH (S i)). destruct (Engine.state r); exact H.
Qed.

(** A registration that a firing of the alarm armed for [d] collects
    however late it comes, up to the group threshold. *)
Definition surelyDue (d g : Z) (r : Engine.Registration) : bool :=
  match Engine.state r with
  | Engine.Scheduled w _ => (d <=? w) && (w <=? d + g)
  | _ => false
  end.

Lemma surelyDue_isDue d g late r :
  0 <= late <= g -> surelyDue d g r = true -> Engine.isDue (d + late) g r = true.
Proof.
  intros Hl. unfold surelyDue, Engine.isDue.
  destruct (Engine.state r); try discriminate.
  rewrite !andb_true_iff, !Z.leb_le. lia.
Qed.

Lemma existsb_none_weaken {A} (f h : A -> bool) (l : list A) :
  (forall x, f x = true -> h x = true) ->
  existsb h l = false -> existsb f l = false.
Proof.
  intros Hfh. induction l as [|a l IH]; cbn; [reflexivity|].
  rewrite !orb_false_iff. intros (Ha & Hl). split; [|apply IH, Hl].
  destruct (f a) eqn:Ef; [|reflexivity]. rewrite (Hfh a Ef) in Ha. discriminate.
Qed.

(** How far the armed deadline is from surely collecting anything: 2 when
    no Scheduled registration wakes up between the deadline and the group
    threshold after it, else 0. *)
Definition slack (e : Engine.t) : Z :=
  match Engine.armed e with
  | Some d =>
      if existsb (surelyDue d (Engine.groupThreshold e)) (Engine.registrations e)
      then 0 else 2
  | None => 0
  end.

Arguments slack : simpl never.

Lemma slack_bounds e : 0 <= slack e <= 2.
Proof.
  unfold slack. destruct (Engine.armed e); [|lia].
  destruct (existsb _ _); lia.
Qed.

Lemma minWakeup_witness regs m :
  Engine.minWakeup regs = Some m ->
  exists r, In r regs /\ Engine.wakeupOf r = Some m.
Proof.
  revert m. induction regs as [|r regs IH]; intros m; cbn; [discriminate|].
  destruct (Engine.wakeupOf r) as [w|] eqn:Ew.
  - destruct (Engine.minWakeup regs) as [m'|] eqn:Em.
    + intros [= <-]. destruct (Z.min_spec w m') as [[_ ->]|[_ ->]].
      * exists r. split; [left; reflexivity | exact Ew].
      * destruct (IH m' eq_refl) as (r' & Hin & Hw).
        exists r'. split; [right; exact Hin | exact Hw].
    + intros [= <-]. exists r. split; [left; reflexivity | exact Ew].
  - intros Hm. destruct (IH m Hm) as (r' & Hin & Hw).
    exists r'. split; [right; exact Hin | exact Hw].
Qed.

Lemma minWakeup_some regs i r w :
  regs !! i = Some r -> Engine.wakeupOf r = Some w ->
  Engine.minWakeup regs <> None.
Proof.
  revert i. induction regs as [|x regs IH]; intros [|i] Hr Hw; simpl in *;
    try discriminate.
  - injection Hr as ->. rewrite Hw. destruct (Engine.minWakeup regs); discriminate.
  - specialize (IH i Hr Hw).
    destruct (Engine.wakeupOf x), (Engine.minWakeup regs); congruence.
Qed.

Lemma recompute_registrations e :
  Engine.registrations (Engine.recomputeNextDeadline e) = Engine.registrations e /\
  Engine.groupThreshold (Engine.recomputeNextDeadline e) = Engine.groupThreshold e.
Proof.
  unfold Engine.recomputeNextDeadline.
  destruct (Engine.minWakeup _); [destruct (Engine.armed e)|];
    try destruct (_ <=? _); split; reflexivity.
Qed.

Lemma recompute_updated_registrations e regs :
  Engine.registrations
    (Engine.recomputeNextDeadline (Engine.with_registrations e regs)) = regs.
Proof.
  exact (proj1 (recompute_registrations (Engine.with_registrations e regs))).
Qed.

Lemma recompute_updated_group e regs :
  Engine.groupThreshold
    (Engine.recomputeNextDeadline (Engine.with_registrations e regs))
  = Engine.groupThreshold e.
Proof.
  exact (proj2 (recompute_registrations (Engine.with_registrations e regs))).
Qed.

Lemma armed_at_min_no_slack e m :
  0 <= Engine.groupThreshold e ->
  Engine.minWakeup (Engine.registrations e) = Some m ->
  slack (Engine.with_armed e (Some m)) = 0.
Proof.
  intros Hg Hm. unfold slack. cbn.
  destruct (minWakeup_witness _ _ Hm) as (r & Hin & Hw).
  assert (Hex : existsb (surelyDue m (Engine.groupThreshold e))
                  (Engine.registrations e) = true).
  { apply existsb_exists. exists r. split; [exact Hin|].
    unfold Engine.wakeupOf in Hw. unfold surelyDue.
    destruct (Engine.state r); try discriminate. injection Hw as ->.
    apply andb_true_intro. split; apply Z.leb_le; lia. }
  rewrite Hex. reflexivity.
Qed.

Lemma recompute_slack e :
  0 <= Engine.groupThreshold e ->
  slack (Engine.recomputeNextDeadline e) <= slack e.
Proof.
  intros Hg. pose proof (slack_bounds e) as Hb.
  unfold Engine.recomputeNextDeadline.
  destruct (Engine.minWakeup (Engine.registrations e)) as [m|] eqn:Em.
  - destruct (Engine.armed e) as [a|] eqn:Ea.
    + destruct (Engine.moveThreshold e <=? Z.abs (m - a)); [|lia].
      rewrite (armed_at_min_no_slack e m Hg Em). lia.
    + rewrite (armed_at_min_no_slack e m Hg Em). lia.
  - unfold slack at 1. cbn. lia.
Qed.

Lemma existsb_insert_same {A} (f : A -> bool) (l : list A) i x y :
  l !! i = Some x -> f y = f x -> existsb f (<[i := y]> l) = existsb f l.
Proof.
  revert i. induction l as [|a l IH]; intros [|i] H Hf; simpl in *;
    try discriminate.
  - injection H as ->. rewrite Hf. reflexivity.
  - rewrite (IH i H Hf). reflexivity.
Qed.

(** An alarm that went off more than the group threshold after its
    deadline counts 1. *)
Definition overdue (g : Z) (l : Label) : Z :=
  match l with
  | TimerExpired late => if g <? late then 1 else 0
  | _ => 0
  end.

(** The alarms of a run that went off more than [g] after their
    deadline. *)
Definition late_alarms (g : Z) (ls : list Label) : Z := total (overdue g) ls.

Definition due_handles (p : Phase) : list nat :=
  match p with
  | Idle => []
  | Firing _ due _ => Engine.handle <$> due
  end.

Definition current (p : Phase) : option nat :=
  match p with
  | Idle => None
  | Firing _ _ c => c
  end.

Definition phaseWeight (p : Phase) : Z :=
  match p with
  | Idle => 0
  | Firing _ due None => 2 * Z.of_nat (length due) + 1
  | Firing _ due (Some _) => 2 * Z.of_nat (length due) + 2
  end.

(** A registration still owes its receiver a callback. *)
Definition pendingb (dh : list nat) (i : nat) (r : Engine.Registration) : bool :=
  match Engine.state r with
  | Engine.Scheduled _ _ => true
  | Engine.Dispatching => bool_decide (i ∈ dh)
  | Engine.Disarmed => false
  end.

(** The state of registration [i] agrees with the timer thread: it is in
    the due list exactly while it waits for its invocation, and it is the
    current handle exactly while its callback has not been retired. *)
Definition reg_ok (dh : list nat) (cur : option nat) (i : nat)
    (r : Engine.Registration) : Prop :=
  Engine.callback r = i /\
  match Engine.state r with
  | Engine.Disarmed => (i ∉ dh) /\ cur <> Some i
  | Engine.Scheduled _ _ => i ∉ dh
  | Engine.Dispatching =>
      ((i ∈ dh) /\ cur <> Some i) \/ ((i ∉ dh) /\ cur = Some i)
  end.

(** ** One callback per schedule call: the invariant *)
Section Accounting.

Context {Fixture : Type}.
Variable predict : Fixture -> Z -> option Z.
Variable onEachFrame : Z -> Fixture -> Fixture.
Variable iterations : Z.

(** The Tracker always has an estimate, and the iteration count fits the
    [unsigned] loop counter. *)
Hypothesis predict_available : forall f t, is_Some (predict f t).
Hypothesis iterations_range : 1 <= iterations <= 2 ^ 32.

Definition bound : Z := iterations - 1.

Lemma loop_bound_eq : RepeatingCallbackReceiver.loop_bound iterations = bound.
Proof.
  unfold RepeatingCallbackReceiver.loop_bound, bound.
  apply Z.mod_small. lia.
Qed.

(** A receiver that waits after [n] earlier callbacks: either the callback
    has arrived, or the registration still owes it. *)
Definition waiting (dh : list nat) (i : nat) (r : Engine.Registration)
    (c : RepeatingCallbackReceiver.t) (n : Z) : Prop :=
  if RepeatingCallbackReceiver.mCalled c
  then pendingb dh i r = false /\
       Z.of_nat (length (RepeatingCallbackReceiver.mCallbackTimes c)) = n + 1
  else pendingb dh i r = true /\
       Z.of_nat (length (RepeatingCallbackReceiver.mCallbackTimes c)) = n.

(** A receiver between a callback and its next schedule call. *)
Definition between (dh : list nat) (i : nat) (r : Engine.Registration)
    (c : RepeatingCallbackReceiver.t) (k : Z) : Prop :=
  0 <= k < bound /\
  RepeatingCallbackReceiver.mCalled c = false /\
  pendingb dh i r = false /\
  Z.of_nat (length (RepeatingCallbackReceiver.mCallbackTimes c)) = k + 1.

Definition pc_ok (dh : list nat) (i : nat) (r : Engine.Registration)
    (c : RepeatingCallbackReceiver.t) : Prop :=
  match RepeatingCallbackReceiver.pc c with
  | RepeatingCallbackReceiver.AtStart =>
      Engine.state r = Engine.Disarmed /\
      RepeatingCallbackReceiver.mCalled c = false /\
      RepeatingCallbackReceiver.mCallbackTimes c = []
  | RepeatingCallbackReceiver.AtWait k => 0 <= k < bound /\ waiting dh i r c k
  | RepeatingCallbackReceiver.AtFrame k _ => between dh i r c k
  | RepeatingCallbackReceiver.AtSchedule k _ => between dh i r c k
  | RepeatingCallbackReceiver.AtFinalWait => waiting dh i r c bound
  | RepeatingCallbackReceiver.AtDone =>
      RepeatingCallbackReceiver.mCalled c = true /\
      pendingb dh i r = false /\
      Z.of_nat (length (RepeatingCallbackReceiver.mCallbackTimes c)) = bound + 1
  end.

Definition client_ok (dh : list nat) (cur : option nat) (i : nat)
    (r : Engine.Registration) (c : RepeatingCallbackReceiver.t) : Prop :=
  RepeatingCallbackReceiver.mCallback c = i /\ reg_ok dh cur i r /\ pc_ok dh i r c.

Record Inv (s : System Fixture) : Prop := mkInv {
  inv_len :
    length (Engine.registrations (dispatch s)) = length (cb_receiver s);
  inv_group : 0 <= Engine.groupThreshold (dispatch s);
  inv_nodup : NoDup (due_handles (phase s));
  inv_due : forall h, h ∈ due_handles (phase s) ->
            (h < length (Engine.registrations (dispatch s)))%nat;
  inv_cur : forall h, current (phase s) = Some h ->
            (h < length (Engine.registrations (dispatch s)))%nat;
  inv_clients : forall i r c,
      Engine.registrations (dispatch s) !! i = Some r ->
      cb_receiver s !! i = Some c ->
      client_ok (due_handles (phase s)) (current (phase s)) i r c;
  inv_idle : phase s = Idle -> armed_near_min (dispatch s)
}.

(** Actions a receiver thread still has to take, weighted so that every
    action of any thread lowers the total. *)
Definition pcWeight (c : RepeatingCallbackReceiver.t) : Z :=
  match RepeatingCallbackReceiver.pc c with
  | RepeatingCallbackReceiver.AtStart => 10 * bound + 9
  | RepeatingCallbackReceiver.AtWait k => 10 * (bound - k) + 1
  | RepeatingCallbackReceiver.AtFrame k _ => 10 * (bound - k)
  | RepeatingCallbackReceiver.AtSchedule k _ => 10 * (bound - k) - 1
  | RepeatingCallbackReceiver.AtFinalWait => 1
  | RepeatingCallbackReceiver.AtDone => 0
  end.

Definition measure (s : System Fixture) : Z :=
  total pcWeight (cb_receiver s)
  + total stateWeight (Engine.registrations (dispatch s))
  + phaseWeight (phase s)
  + slack (dispatch s).

(** The receiver and the registration at one index change together. *)
Lemma inv_update (s : System Fixture) e' rs' f' c reg reg' rc rc' :
  Inv s ->
  Engine.registrations (dispatch s) !! c = Some reg ->
  cb_receiver s !! c = Some rc ->
  Engine.registrations e' = <[c := reg']> (Engine.registrations (dispatch s)) ->
  Engine.groupThreshold e' = Engine.groupThreshold (dispatch s) ->
  rs' = <[c := rc']> (cb_receiver s) ->
  client_ok (due_handles (phase s)) (current (phase s)) c reg' rc' ->
  (phase s = Idle -> armed_near_min e') ->
  Inv (mkSystem f' e' (phase s) rs').
Proof.
  intros HI Hreg Hrc Hregs Hg -> Hok Hidle.
  destruct HI as [Hlen Hgr Hnd Hdue Hcur Hcl _].
  constructor; cbn.
  - rewrite Hregs, !length_insert. exact Hlen.
  - rewrite Hg. exact Hgr.
  - exact Hnd.
  - intros h Hh. rewrite Hregs, length_insert. apply Hdue, Hh.
  - intros h Hh. rewrite Hregs, length_insert. apply Hcur, Hh.
  - intros i r0 c0. rewrite Hregs.
    destruct (decide (c = i)) as [<-|Hne].
    + rewrite !list_lookup_insert_eq
        by (eapply lookup_lt_Some; eassumption).
      intros [= <-] [= <-]. exact Hok.
    + rewrite !list_lookup_insert_ne by exact Hne. apply Hcl.
  - exact Hidle.
Qed.

Lemma schedule_result (s : System Fixture) rc lastVsync reg :
  Engine.registrations (dispatch s) !! RepeatingCallbackReceiver.mCallback rc
    = Some reg ->
  exists p,
    predict (fixture s)
      (lastVsync + RepeatingCallbackReceiver.mWorkload rc
       + RepeatingCallbackReceiver.mReadyDuration rc) = Some p /\
    receiver_schedule predict s rc lastVsync =
    Engine.recomputeNextDeadline
      (Engine.with_registrations (dispatch s)
         (<[RepeatingCallbackReceiver.mCallback rc :=
              Engine.mkReg (Engine.name reg) (Engine.callback reg)
                (RepeatingCallbackReceiver.mWorkload rc)
                (RepeatingCallbackReceiver.mReadyDuration rc) lastVsync
                (Engine.Scheduled
                   (p - RepeatingCallbackReceiver.mWorkload rc
                    - RepeatingCallbackReceiver.mReadyDuration rc) p)]>
            (Engine.registrations (dispatch s)))).
Proof.
  intros Hreg. unfold receiver_schedule, Engine.schedule. rewrite Hreg.
  destruct (predict_available (fixture s)
              (lastVsync + RepeatingCallbackReceiver.mWorkload rc
               + RepeatingCallbackReceiver.mReadyDuration rc)) as [p Hp].
  rewrite Hp. cbn. eauto.
Qed.

Lemma incr_small k : 0 <= k < bound -> RepeatingCallbackReceiver.incr k = k + 1.
Proof.
  intros Hk. unfold RepeatingCallbackReceiver.incr, bound in *.
  apply Z.mod_small. lia.
Qed.

(** After a schedule call the receiver waits with one callback owed. *)
Lemma loop_head_ok dh i r c k :
  0 <= k <= bound ->
  pendingb dh i r = true ->
  RepeatingCallbackReceiver.mCalled c = false ->
  Z.of_nat (length (RepeatingCallbackReceiver.mCallbackTimes c)) = k ->
  pc_ok dh i r
    (RepeatingCallbackReceiver.with_pc c
       (RepeatingCallbackReceiver.loop_head iterations k)).
Proof.
  intros Hk Hp Hc Hl. unfold pc_ok, RepeatingCallbackReceiver.loop_head.
  rewrite loop_bound_eq. cbn.
  destruct (k <? bound) eqn:E.
  - apply Z.ltb_lt in E. split; [lia|]. unfold waiting. cbn. rewrite Hc. auto.
  - apply Z.ltb_ge in E. unfold waiting. cbn. rewrite Hc.
    split; [exact Hp | lia].
Qed.

Lemma client_step_inv c now (s s' : System Fixture) :
  Inv s -> client_step predict onEachFrame iterations c now s = Some s' -> Inv s'.
Proof.
  intros HI. unfold client_step.
  destruct (cb_receiver s !! c) as [rc|] eqn:Hrc; [|discriminate].
  assert (Hlt : (c < length (Engine.registrations (dispatch s)))%nat).
  { rewrite (inv_len s HI). eapply lookup_lt_Some, Hrc. }
  destruct (lookup_lt_is_Some_2 _ _ Hlt) as [reg Hreg].
  destruct (inv_clients s HI c reg rc Hreg Hrc) as (Hcb & (Hcall & Hst) & Hpc).
  unfold pc_ok in Hpc.
  assert (Hreg' : Engine.registrations (dispatch s)
                    !! RepeatingCallbackReceiver.mCallback rc = Some reg)
    by (rewrite Hcb; exact Hreg).
  destruct (RepeatingCallbackReceiver.pc rc) as [|k|k last|k last| |] eqn:Epc.
  - (* first schedule *)
    destruct Hpc as (Hdis & Hcalled & Htimes).
    destruct (schedule_result s rc
                (Nsecs.add (Nsecs.add now (RepeatingCallbackReceiver.mWorkload rc))
                   (RepeatingCallbackReceiver.mReadyDuration rc)) reg Hreg')
      as (p & _ & Hs).
    intros [= <-]. rewrite Hs, Hcb.
    eapply (inv_update s _ _ _ c reg _ rc _ HI Hreg Hrc).
    + apply recompute_updated_registrations.
    + apply recompute_updated_group.
    + reflexivity.
    + rewrite Hdis in Hst. split; [exact Hcb|]. split.
      * split; [exact Hcall | cbn; tauto].
      * apply loop_head_ok; [unfold bound; lia | reflexivity | exact Hcalled |].
        rewrite Htimes. reflexivity.
    + intros _. apply recompute_near_min.
  - (* woken up *)
    destruct Hpc as (Hk & Hw). unfold waiting in Hw.
    destruct (RepeatingCallbackReceiver.mCalled rc) eqn:Ecalled; [|discriminate].
    intros [= <-]. unfold set_receiver.
    eapply (inv_update s _ _ _ c reg reg rc _ HI Hreg Hrc).
    + symmetry. apply list_insert_id, Hreg.
    + reflexivity.
    + reflexivity.
    + split; [exact Hcb|]. split; [split; assumption|].
      unfold pc_ok, between. cbn. tauto.
    + apply (inv_idle s HI).
  - (* onEachFrame *)
    intros [= <-].
    eapply (inv_update s _ _ _ c reg reg rc _ HI Hreg Hrc).
    + symmetry. apply list_insert_id, Hreg.
    + reflexivity.
    + reflexivity.
    + split; [exact Hcb|]. split; [split; assumption|].
      unfold pc_ok. cbn. exact Hpc.
    + apply (inv_idle s HI).
  - (* schedule again *)
    destruct Hpc as (Hk & Hcalled & Hpend & Htimes).
    destruct (schedule_result s rc
                (Nsecs.add (Nsecs.add last (RepeatingCallbackReceiver.mWorkload rc))
                   (RepeatingCallbackReceiver.mReadyDuration rc)) reg Hreg')
      as (p & _ & Hs).
    intros [= <-]. rewrite Hs, Hcb.
    eapply (inv_update s _ _ _ c reg _ rc _ HI Hreg Hrc).
    + apply recompute_updated_registrations.
    + apply recompute_updated_group.
    + reflexivity.
    + split; [exact Hcb|]. split.
      * split; [exact Hcall|]. cbn. unfold pendingb in Hpend.
        destruct (Engine.state reg); [tauto | discriminate |].
        apply bool_decide_eq_false in Hpend. exact Hpend.
      * rewrite (incr_small k Hk).
        apply loop_head_ok; [lia | reflexivity | exact Hcalled | exact Htimes].
    + intros _. apply recompute_near_min.
  - (* last callback seen *)
    unfold waiting in Hpc.
    destruct (RepeatingCallbackReceiver.mCalled rc) eqn:Ecalled; [|discriminate].
    intros [= <-]. unfold set_receiver.
    eapply (inv_update s _ _ _ c reg reg rc _ HI Hreg Hrc).
    + symmetry. apply list_insert_id, Hreg.
    + reflexivity.
    + reflexivity.
    + split; [exact Hcb|]. split; [split; assumption|].
      unfold pc_ok. cbn. tauto.
    + apply (inv_idle s HI).
  - discriminate.
Qed.

(** [pc_ok] only looks at whether a callback is owed and, before the first
    schedule, at the registration being disarmed. *)
Lemma pc_ok_transfer dh dh' i r r' c :
  pendingb dh' i r' = pendingb dh i r ->
  (Engine.state r = Engine.Disarmed -> Engine.state r' = Engine.Disarmed) ->
  pc_ok dh i r c -> pc_ok dh' i r' c.
Proof.
  intros Hp Hd. unfold pc_ok, waiting, between. rewrite Hp.
  destruct (RepeatingCallbackReceiver.pc c); try tauto.
Qed.

Lemma pendingb_not_due dh i r :
  i ∉ dh -> pendingb dh i r =
            match Engine.state r with Engine.Scheduled _ _ => true | _ => false end.
Proof.
  intros Hi. unfold pendingb. destruct (Engine.state r); try reflexivity.
  apply bool_decide_eq_false. exact Hi.
Qed.

Lemma timer_expired_inv late (s s' : System Fixture) :
  Inv s -> timer_step (TimerExpired late) s = Some s' -> Inv s'.
Proof.
  intros HI. unfold timer_step.
  destruct (phase s) eqn:Eph; [|discriminate].
  destruct (Engine.armed (dispatch s)) as [d0|] eqn:Ea; [|discriminate].
  destruct (0 <=? late); [|discriminate].
  set (d := d0 + late).
  cbn. intros [= <-].
  pose proof (inv_clients s HI) as Hcl. rewrite Eph in Hcl. cbn in Hcl.
  set (g := Engine.groupThreshold (dispatch s)).
  set (regs := Engine.registrations (dispatch s)) in *.
  assert (Hmem : forall i, i ∈ Engine.handle <$> Engine.collectDue d g 0 regs <->
                           exists r, regs !! i = Some r /\ Engine.isDue d g r = true).
  { intros i. rewrite collectDue_handles, Nat.sub_0_r. split.
    - intros (_ & H). exact H.
    - intros H. split; [lia | exact H]. }
  constructor; cbn.
  - rewrite length_fmap. apply (inv_len s HI).
  - apply (inv_group s HI).
  - apply collectDue_NoDup.
  - intros h Hh. rewrite length_fmap. apply Hmem in Hh as (r & Hr & _).
    eapply lookup_lt_Some, Hr.
  - discriminate.
  - intros i r' c Hr' Hc. rewrite list_lookup_fmap in Hr'.
    destruct (regs !! i) as [r|] eqn:Hr; [|discriminate].
    cbn in Hr'. injection Hr' as <-.
    destruct (Hcl i r c Hr Hc) as (Hcb & (Hcall & Hst) & Hpc).
    specialize (Hmem i).
    unfold Engine.markDue.
    destruct (Engine.isDue d g r) eqn:Ed.
    + destruct (isDue_scheduled _ _ _ Ed) as (w & p & Hs).
      assert (Hin : i ∈ Engine.handle <$> Engine.collectDue d g 0 regs)
        by (apply Hmem; eauto).
      split; [exact Hcb|]. split.
      * split; [exact Hcall|]. cbn. left. split; [exact Hin | discriminate].
      * eapply pc_ok_transfer; [| |exact Hpc].
        -- unfold pendingb. cbn. rewrite Hs. apply bool_decide_eq_true. exact Hin.
        -- rewrite Hs. discriminate.
    + assert (Hout : i ∉ Engine.handle <$> Engine.collectDue d g 0 regs).
      { intros Hin. apply Hmem in Hin as (r0 & Hr0 & Hd0). congruence. }
      split; [exact Hcb|]. split.
      * split; [exact Hcall|].
        destruct (Engine.state r); [split; [exact Hout | discriminate] | exact Hout |].
        destruct Hst as [[Hin _]|[_ Hc0]]; [inversion Hin | discriminate].
      * eapply pc_ok_transfer; [| |exact Hpc]; [|tauto].
        rewrite !pendingb_not_due; [reflexivity | apply not_elem_of_nil | exact Hout].
  - discriminate.
Qed.

Lemma dispatch_done_inv (s s' : System Fixture) :
  Inv s -> timer_step DispatchDone s = Some s' -> Inv s'.
Proof.
  intros HI. unfold timer_step.
  destruct (phase s) as [|d due cur] eqn:Eph; [discriminate|].
  destruct due; [|discriminate]. destruct cur; [discriminate|].
  intros [= <-].
  destruct HI as [Hlen Hgr Hnd Hdue Hcur Hcl _].
  rewrite Eph in *. cbn in *.
  unfold Engine.afterDispatch.
  pose proof (recompute_registrations (dispatch s)) as [Hregs Hg].
  constructor; cbn; rewrite ?Hregs, ?Hg; try assumption.
  intros _. apply recompute_near_min.
Qed.

Lemma invoke_inv k (s s' : System Fixture) :
  Inv s -> timer_step (InvokeCallback k) s = Some s' -> Inv s'.
Proof.
  intros HI. unfold timer_step.
  destruct (phase s) as [|d due cur] eqn:Eph; [discriminate|].
  destruct cur; [discriminate|].
  destruct (due !! k) as [inv|] eqn:Ek; [|discriminate].
  destruct (Engine.registrations (dispatch s) !! Engine.handle inv)
    as [reg|] eqn:Hreg; [|discriminate].
  destruct (cb_receiver s !! Engine.callback reg) as [rc|] eqn:Hrc; [|discriminate].
  intros [= <-].
  destruct HI as [Hlen Hgr Hnd Hdue Hcur Hcl _].
  rewrite Eph in *. cbn in Hnd, Hdue, Hcur, Hcl.
  set (h := Engine.handle inv) in *.
  assert (Hperm : Engine.handle <$> due ≡ₚ h :: (Engine.handle <$> delete k due)).
  { change (h :: (Engine.handle <$> delete k due))
      with (Engine.handle <$> (inv :: delete k due)).
    apply fmap_Permutation, delete_Permutation, Ek. }
  rewrite Hperm in Hnd. apply NoDup_cons in Hnd as [Hfresh Hnd'].
  assert (Hin : forall i, i ∈ Engine.handle <$> due <->
                          i = h \/ i ∈ Engine.handle <$> delete k due).
  { intros i. rewrite Hperm. apply elem_of_cons. }
  assert (Hh : h ∈ Engine.handle <$> due) by (apply Hin; left; reflexivity).
  assert (Hlt : (h < length (cb_receiver s))%nat)
    by (rewrite <- Hlen; apply Hdue, Hh).
  destruct (lookup_lt_is_Some_2 _ _ Hlt) as [rc0 Hrc0].
  destruct (Hcl h reg rc0 Hreg Hrc0) as (Hcb & (Hcall & Hst) & Hpc).
  rewrite Hcall in *. rewrite Hrc in Hrc0. injection Hrc0 as <-.
  assert (Hdisp : Engine.state reg = Engine.Dispatching).
  { destruct (Engine.state reg); [tauto | tauto | reflexivity]. }
  assert (Hpend : pendingb (Engine.handle <$> due) h reg = true).
  { unfold pendingb. rewrite Hdisp. apply bool_decide_eq_true, Hh. }
  constructor; cbn.
  - rewrite length_insert. exact Hlen.
  - exact Hgr.
  - exact Hnd'.
  - intros i Hi. apply Hdue, Hin. right. exact Hi.
  - intros i [= <-]. rewrite Hlen. exact Hlt.
  - intros i r c Hr Hc.
    destruct (decide (h = i)) as [<-|Hne].
    + rewrite list_lookup_insert_eq in Hc by exact Hlt. injection Hc as <-.
      rewrite Hreg in Hr. injection Hr as <-.
      split; [exact Hcb|]. split.
      * split; [exact Hcall|]. rewrite Hdisp. right. split; [exact Hfresh | reflexivity].
      * assert (Hnow : pendingb (Engine.handle <$> delete k due) h reg = false).
        { rewrite pendingb_not_due by exact Hfresh. rewrite Hdisp. reflexivity. }
        unfold pc_ok, waiting, between in *. cbn. rewrite Hnow, Hpend in *.
        rewrite length_app, Nat2Z.inj_add. cbn [length].
        destruct (RepeatingCallbackReceiver.pc rc).
        -- destruct Hpc as (Hd & _). congruence.
        -- destruct Hpc as (Hk & Hw). split; [exact Hk|].
           destruct (RepeatingCallbackReceiver.mCalled rc);
             destruct Hw as (Hw1 & Hw2); [discriminate|]. split; [reflexivity | lia].
        -- destruct Hpc as (_ & _ & Hp & _). discriminate.
        -- destruct Hpc as (_ & _ & Hp & _). discriminate.
        -- destruct (RepeatingCallbackReceiver.mCalled rc);
             destruct Hpc as (Hw1 & Hw2); [discriminate|]. split; [reflexivity | lia].
        -- destruct Hpc as (_ & Hp & _). discriminate.
    + rewrite list_lookup_insert_ne in Hc by exact Hne.
      destruct (Hcl i r c Hr Hc) as (Hcb' & (Hcall' & Hst') & Hpc').
      assert (Hiff : i ∈ Engine.handle <$> delete k due <-> i ∈ Engine.handle <$> due).
      { rewrite Hin. split; [tauto|]. intros [->|H]; [contradiction | exact H]. }
      assert (Hcur' : Some h <> Some i) by congruence.
      split; [exact Hcb'|]. split.
      * split; [exact Hcall'|].
        destruct (Engine.state r); rewrite ?Hiff; [tauto | tauto |].
        destruct Hst' as [[H1 _]|[_ H2]]; [left; tauto | discriminate].
      * eapply pc_ok_transfer; [| |exact Hpc']; [|tauto].
        unfold pendingb. destruct (Engine.state r); try reflexivity.
        apply bool_decide_ext, Hiff.
  - discriminate.
Qed.

Lemma callback_returned_inv (s s' : System Fixture) :
  Inv s -> timer_step CallbackReturned s = Some s' -> Inv s'.
Proof.
  intros HI. unfold timer_step.
  destruct (phase s) as [|d due cur] eqn:Eph; [discriminate|].
  destruct cur as [h|]; [|discriminate].
  intros [= <-].
  destruct HI as [Hlen Hgr Hnd Hdue Hcur Hcl _].
  rewrite Eph in *. cbn in Hnd, Hdue, Hcur, Hcl.
  specialize (Hcur h eq_refl).
  destruct (lookup_lt_is_Some_2 _ _ Hcur) as [reg Hreg].
  assert (Hlt : (h < length (cb_receiver s))%nat) by (rewrite <- Hlen; exact Hcur).
  destruct (lookup_lt_is_Some_2 _ _ Hlt) as [rc Hrc].
  destruct (Hcl h reg rc Hreg Hrc) as (Hcb & (Hcall & Hst) & Hpc).
  (* every other registration is untouched and no longer compared with [h] *)
  assert (Hothers : forall i r c,
             i <> h ->
             Engine.registrations (dispatch s) !! i = Some r ->
             cb_receiver s !! i = Some c ->
             client_ok (Engine.handle <$> due) None i r c).
  { intros i r c Hne Hr Hc.
    destruct (Hcl i r c Hr Hc) as (Hcb' & (Hcall' & Hst') & Hpc').
    split; [exact Hcb'|]. split; [|exact Hpc'].
    split; [exact Hcall'|].
    destruct (Engine.state r); [split; [tauto | discriminate] | exact Hst' |].
    destruct Hst' as [[H1 _]|[_ H2]]; [left; split; [exact H1 | discriminate]|].
    congruence. }
  unfold Engine.afterInvocation. rewrite Hreg.
  destruct (Engine.state reg) as [|w p|] eqn:Es.
  - exfalso. destruct Hst as [_ Hst]. apply Hst. reflexivity.
  - (* re-scheduled while the callback was running *)
    constructor; cbn; try assumption; try discriminate.
    intros i r c Hr Hc.
    destruct (decide (i = h)) as [->|Hne]; [|apply Hothers; assumption].
    rewrite Hreg in Hr. injection Hr as <-. rewrite Hrc in Hc. injection Hc as <-.
    split; [exact Hcb|]. split; [|exact Hpc].
    split; [exact Hcall|]. rewrite Es. exact Hst.
  - destruct Hst as [[_ Hst]|[Hout _]]; [exfalso; apply Hst; reflexivity|].
    constructor; cbn; rewrite ?length_insert; try assumption; try discriminate.
    intros i r c Hr Hc.
    destruct (decide (h = i)) as [<-|Hne].
    + rewrite list_lookup_insert_eq in Hr by exact Hcur. injection Hr as <-.
      rewrite Hrc in Hc. injection Hc as <-.
      split; [exact Hcb|]. split.
      * split; [exact Hcall|]. cbn. split; [exact Hout | discriminate].
      * eapply pc_ok_transfer; [| |exact Hpc].
        -- rewrite !pendingb_not_due by exact Hout. cbn. rewrite Es. reflexivity.
        -- reflexivity.
    + rewrite list_lookup_insert_ne in Hr by exact Hne.
      apply Hothers; [congruence | exact Hr | exact Hc].
Qed.

Lemma step_inv l (s s' : System Fixture) :
  Inv s -> step predict onEachFrame iterations l s = Some s' -> Inv s'.
Proof.
  intros HI. destruct l as [c now|late|k| |]; cbn [step].
  - apply client_step_inv, HI.
  - apply timer_expired_inv, HI.
  - apply invoke_inv, HI.
  - apply callback_returned_inv, HI.
  - apply dispatch_done_inv, HI.
Qed.

Lemma exec_inv ls (s s' : System Fixture) :
  Inv s -> exec predict onEachFrame iterations ls s = Some s' -> Inv s'.
Proof.
  revert s. induction ls as [|l ls IH]; intros s HI; cbn.
  - intros [= <-]. exact HI.
  - destruct (step predict onEachFrame iterations l s) as [s1|] eqn:Es;
      [|discriminate].
    apply IH. eapply step_inv; eassumption.
Qed.

(** *** All callbacks delivered at the end *)

Lemma inv_done_counts (s : System Fixture) :
  Inv s -> all_done s = true ->
  Forall (fun c => Z.of_nat (length (RepeatingCallbackReceiver.mCallbackTimes c))
                   = iterations) (cb_receiver s).
Proof.
  intros HI Hdone. apply Forall_lookup. intros i c Hc.
  unfold all_done in Hdone. rewrite forallb_forall in Hdone.
  assert (Hpc : RepeatingCallbackReceiver.pc c = RepeatingCallbackReceiver.AtDone).
  { specialize (Hdone c). rewrite <- list_elem_of_In in Hdone.
    specialize (Hdone (list_elem_of_lookup_2 _ _ _ Hc)).
    destruct (RepeatingCallbackReceiver.pc c); try discriminate. reflexivity. }
  assert (Hlt : (i < length (Engine.registrations (dispatch s)))%nat).
  { rewrite (inv_len s HI). eapply lookup_lt_Some, Hc. }
  destruct (lookup_lt_is_Some_2 _ _ Hlt) as [reg Hreg].
  destruct (inv_clients s HI i reg c Hreg Hc) as (_ & _ & Hok).
  unfold pc_ok in Hok. rewrite Hpc in Hok. unfold bound in Hok. lia.
Qed.

(** *** Callbacks keep step with schedule calls *)

(** The schedule calls a receiver thread has made so far. *)
Definition schedule_calls (p : RepeatingCallbackReceiver.Pc) : Z :=
  match p with
  | RepeatingCallbackReceiver.AtStart => 0
  | RepeatingCallbackReceiver.AtWait k => k + 1
  | RepeatingCallbackReceiver.AtFrame k _ => k + 1
  | RepeatingCallbackReceiver.AtSchedule k _ => k + 1
  | RepeatingCallbackReceiver.AtFinalWait => bound + 1
  | RepeatingCallbackReceiver.AtDone => bound + 1
  end.

(** Never more callbacks than schedule calls, and at most one owed. *)
Definition in_step (c : RepeatingCallbackReceiver.t) : Prop :=
  Z.of_nat (length (RepeatingCallbackReceiver.mCallbackTimes c))
  <= schedule_calls (RepeatingCallbackReceiver.pc c)
  <= Z.of_nat (length (RepeatingCallbackReceiver.mCallbackTimes c)) + 1.

Lemma inv_in_step (s : System Fixture) : Inv s -> Forall in_step (cb_receiver s).
Proof.
  intros HI. apply Forall_lookup. intros i c Hc.
  assert (Hlt : (i < length (Engine.registrations (dispatch s)))%nat).
  { rewrite (inv_len s HI). eapply lookup_lt_Some, Hc. }
  destruct (lookup_lt_is_Some_2 _ _ Hlt) as [reg Hreg].
  destruct (inv_clients s HI i reg c Hreg Hc) as (_ & _ & Hok).
  unfold pc_ok, waiting, between in Hok. unfold in_step, schedule_calls.
  destruct (RepeatingCallbackReceiver.pc c);
    try destruct (RepeatingCallbackReceiver.mCalled c);
    try (destruct Hok as (_ & _ & ->)); cbn [length]; lia.
Qed.

(** *** No deadlock *)

Lemma not_all_done (s : System Fixture) :
  all_done s = false ->
  exists i c, cb_receiver s !! i = Some c /\
              RepeatingCallbackReceiver.pc c <> RepeatingCallbackReceiver.AtDone.
Proof.
  unfold all_done. generalize (cb_receiver s) as rs.
  induction rs as [|c rs IH]; cbn; [discriminate|].
  destruct (RepeatingCallbackReceiver.pc c) eqn:Epc; cbn;
    try (intros _; exists 0%nat, c; split; [reflexivity | congruence]).
  intros H. destruct (IH H) as (i & c' & Hc' & Hne).
  exists (S i), c'. split; assumption.
Qed.

Lemma inv_progress (s : System Fixture) :
  Inv s -> all_done s = false ->
  exists l s',
    overdue (Engine.groupThreshold (dispatch s)) l = 0 /\
    step predict onEachFrame iterations l s = Some s'.
Proof.
  intros HI Hnd.
  destruct (phase s) as [|d due cur] eqn:Eph.
  - (* the timer thread is idle *)
    destruct (not_all_done s Hnd) as (i & c & Hc & Hpc).
    assert (Hlt : (i < length (Engine.registrations (dispatch s)))%nat).
    { rewrite (inv_len s HI). eapply lookup_lt_Some, Hc. }
    destruct (lookup_lt_is_Some_2 _ _ Hlt) as [reg Hreg].
    destruct (inv_clients s HI i reg c Hreg Hc) as (_ & _ & Hok).
    rewrite Eph in Hok. cbn in Hok. unfold pc_ok, waiting in Hok.
    assert (Hfire : pendingb [] i reg = true ->
                    exists l s',
                      overdue (Engine.groupThreshold (dispatch s)) l = 0 /\
                      step predict onEachFrame iterations l s = Some s').
    { intros Hp. exists (TimerExpired 0). cbn. rewrite Eph.
      pose proof (inv_group s HI) as Hg0.
      assert (Hov : (if Engine.groupThreshold (dispatch s) <? 0 then 1 else 0) = 0).
      { destruct (Engine.groupThreshold (dispatch s) <? 0) eqn:E; [|reflexivity].
        apply Z.ltb_lt in E. lia. }
      rewrite Hov.
      assert (Hw : exists w, Engine.wakeupOf reg = Some w).
      { unfold pendingb in Hp. unfold Engine.wakeupOf.
        destruct (Engine.state reg); [discriminate | eauto |].
        apply bool_decide_eq_true in Hp. inversion Hp. }
      destruct Hw as [w Hw].
      pose proof (minWakeup_some _ _ _ _ Hreg Hw) as Hmin.
      pose proof (inv_idle s HI Eph) as Hnear. unfold armed_near_min in Hnear.
      destruct (Engine.armed (dispatch s)) as [a|].
      - destruct (Engine.onTimerFired (a + 0) (dispatch s)) as [due e]. eauto.
      - destruct (Engine.minWakeup (Engine.registrations (dispatch s)));
          [contradiction | congruence]. }
    assert (Hclient : forall s1,
               client_step predict onEachFrame iterations i 0 s = Some s1 ->
               exists l s',
                 overdue (Engine.groupThreshold (dispatch s)) l = 0 /\
                 step predict onEachFrame iterations l s = Some s').
    { intros s1 Hs1. exists (Client i 0), s1. split; [reflexivity | exact Hs1]. }
    unfold client_step in Hclient. rewrite Hc in Hclient.
    destruct (RepeatingCallbackReceiver.pc c) eqn:Epc;
      try (eapply Hclient; reflexivity); [| |congruence].
    + destruct (RepeatingCallbackReceiver.mCalled c);
        [eapply Hclient; reflexivity | apply Hfire; tauto].
    + destruct (RepeatingCallbackReceiver.mCalled c);
        [eapply Hclient; reflexivity | apply Hfire; tauto].
  - (* the timer thread is in a firing *)
    destruct cur as [h|].
    + exists CallbackReturned. cbn. rewrite Eph. eauto.
    + destruct due as [|inv due].
      * exists DispatchDone. cbn. rewrite Eph. eauto.
      * exists (InvokeCallback 0). cbn [overdue step timer_step]. rewrite Eph. cbn.
        assert (Hh : (Engine.handle inv
                      < length (Engine.registrations (dispatch s)))%nat).
        { apply (inv_due s HI). rewrite Eph. cbn. left. }
        destruct (lookup_lt_is_Some_2 _ _ Hh) as [reg Hreg]. rewrite Hreg.
        rewrite (inv_len s HI) in Hh.
        destruct (lookup_lt_is_Some_2 _ _ Hh) as [rc Hrc].
        destruct (inv_clients s HI _ reg rc Hreg Hrc) as (_ & (Hcall & _) & _).
        rewrite Hcall, Hrc. eauto.
Qed.

(** *** Every action lowers the measure *)

Lemma pcWeight_loop_head c k :
  0 <= k <= bound ->
  pcWeight (RepeatingCallbackReceiver.with_pc c
              (RepeatingCallbackReceiver.loop_head iterations k))
  = 10 * (bound - k) + 1.
Proof.
  intros Hk. unfold pcWeight, RepeatingCallbackReceiver.loop_head.
  rewrite loop_bound_eq. cbn.
  destruct (k <? bound) eqn:E; cbn; [reflexivity|].
  apply Z.ltb_ge in E. lia.
Qed.

Lemma stateWeight_bounds r : 0 <= stateWeight r <= 4.
Proof. unfold stateWeight. destruct (Engine.state r); lia. Qed.

Lemma client_step_measure c now (s s' : System Fixture) :
  Inv s -> client_step predict onEachFrame iterations c now s = Some s' ->
  measure s' + 1 <= measure s.
Proof.
  intros HI. unfold client_step.
  destruct (cb_receiver s !! c) as [rc|] eqn:Hrc; [|discriminate].
  assert (Hlt : (c < length (Engine.registrations (dispatch s)))%nat).
  { rewrite (inv_len s HI). eapply lookup_lt_Some, Hrc. }
  destruct (lookup_lt_is_Some_2 _ _ Hlt) as [reg Hreg].
  destruct (inv_clients s HI c reg rc Hreg Hrc) as (Hcb & _ & Hpc).
  unfold pc_ok in Hpc.
  assert (Hreg' : Engine.registrations (dispatch s)
                    !! RepeatingCallbackReceiver.mCallback rc = Some reg)
    by (rewrite Hcb; exact Hreg).
  pose proof (stateWeight_bounds reg) as Hsw.
  pose proof (slack_bounds (dispatch s)) as Hsl.
  assert (Hsched : forall lastVsync k,
            0 <= k <= bound ->
            measure
              (mkSystem (fixture s) (receiver_schedule predict s rc lastVsync)
                 (phase s)
                 (<[c := RepeatingCallbackReceiver.with_pc rc
                           (RepeatingCallbackReceiver.loop_head iterations k)]>
                    (cb_receiver s)))
            <= total pcWeight (cb_receiver s) - pcWeight rc
               + (10 * (bound - k) + 1)
               + total stateWeight (Engine.registrations (dispatch s)) + 4
               + phaseWeight (phase s) + 2).
  { intros lastVsync k Hk.
    destruct (schedule_result s rc lastVsync reg Hreg') as (p & _ & Hs).
    unfold measure. cbn. rewrite Hs.
    rewrite recompute_updated_registrations.
    rewrite (total_insert _ _ _ _ _ Hrc), (total_insert _ _ _ _ _ Hreg').
    rewrite (pcWeight_loop_head rc k Hk).
    match goal with |- context [slack ?e] => pose proof (slack_bounds e) end.
    unfold stateWeight at 3. cbn. lia. }
  unfold measure at 2.
  destruct (RepeatingCallbackReceiver.pc rc) as [|k|k last|k last| |] eqn:Epc.
  - assert (Hw : pcWeight rc = 10 * bound + 9)
      by (unfold pcWeight; rewrite Epc; reflexivity).
    intros [= <-].
    pose proof (Hsched
      (Nsecs.add (Nsecs.add now (RepeatingCallbackReceiver.mWorkload rc))
         (RepeatingCallbackReceiver.mReadyDuration rc)) 0) as H.
    unfold bound in *. lia.
  - assert (Hw : pcWeight rc = 10 * (bound - k) + 1)
      by (unfold pcWeight; rewrite Epc; reflexivity).
    destruct (RepeatingCallbackReceiver.mCalled rc); [|discriminate].
    intros [= <-]. unfold measure, set_receiver. cbn.
    rewrite (total_insert _ _ _ _ _ Hrc). rewrite Hw.
    unfold pcWeight at 2. cbn. lia.
  - assert (Hw : pcWeight rc = 10 * (bound - k))
      by (unfold pcWeight; rewrite Epc; reflexivity).
    intros [= <-]. unfold measure. cbn.
    rewrite (total_insert _ _ _ _ _ Hrc). rewrite Hw.
    unfold pcWeight at 2. cbn. lia.
  - assert (Hw : pcWeight rc = 10 * (bound - k) - 1)
      by (unfold pcWeight; rewrite Epc; reflexivity).
    destruct Hpc as (Hk & _).
    intros [= <-]. rewrite (incr_small k Hk).
    pose proof (Hsched
      (Nsecs.add (Nsecs.add last (RepeatingCallbackReceiver.mWorkload rc))
         (RepeatingCallbackReceiver.mReadyDuration rc)) (k + 1)) as H.
    lia.
  - assert (Hw : pcWeight rc = 1)
      by (unfold pcWeight; rewrite Epc; reflexivity).
    destruct (RepeatingCallbackReceiver.mCalled rc); [|discriminate].
    intros [= <-]. unfold measure, set_receiver. cbn.
    rewrite (total_insert _ _ _ _ _ Hrc). rewrite Hw.
    unfold pcWeight at 2. cbn. lia.
  - discriminate.
Qed.

Lemma timer_step_measure l (s s' : System Fixture) :
  Inv s -> timer_step l s = Some s' ->
  measure s' + 1
  <= measure s + 2 * overdue (Engine.groupThreshold (dispatch s)) l.
Proof.
  intros HI. unfold timer_step.
  pose proof (slack_bounds (dispatch s)) as Hsl.
  destruct l as [c now|late|k| |]; [discriminate| | | |]; cbn [overdue];
    rewrite ?Z.mul_0_r, ?Z.add_0_r.
  - (* the alarm expires *)
    destruct (phase s) eqn:Eph; [|discriminate].
    destruct (Engine.armed (dispatch s)) as [d|] eqn:Ea; [|discriminate].
    destruct (0 <=? late) eqn:El; [|discriminate]. apply Z.leb_le in El.
    cbn. intros [= <-]. unfold measure. cbn. rewrite Eph. cbn.
    set (g := Engine.groupThreshold (dispatch s)) in *.
    pose proof (collectDue_weight (d + late) g 0
                  (Engine.registrations (dispatch s))) as Hw.
    unfold slack at 1. cbn.
    destruct (Engine.collectDue (d + late) g 0
                (Engine.registrations (dispatch s))) as [|inv due] eqn:Edue.
    + destruct (g <? late) eqn:Eg; [cbn in *; lia|].
      apply Z.ltb_ge in Eg.
      apply collectDue_empty in Edue.
      apply (existsb_none_weaken (surelyDue d g)) in Edue.
      * unfold slack. rewrite Ea. fold g. rewrite Edue. cbn in *. lia.
      * intros r. apply surelyDue_isDue. lia.
    + cbn [length] in *. destruct (g <? late); lia.
  - (* a callback is invoked *)
    destruct (phase s) as [|d due cur] eqn:Eph; [discriminate|].
    destruct cur; [discriminate|].
    destruct (due !! k) as [inv|] eqn:Ek; [|discriminate].
    destruct (Engine.registrations (dispatch s) !! Engine.handle inv)
      as [reg|]; [|discriminate].
    destruct (cb_receiver s !! Engine.callback reg) as [rc|] eqn:Hrc; [|discriminate].
    intros [= <-]. unfold measure. cbn. rewrite Eph. cbn.
    rewrite (total_insert _ _ _ _ _ Hrc).
    assert (Hlen : (length (delete k due) = length due - 1)%nat)
      by (apply length_delete; eauto).
    assert (Hpos : (0 < length due)%nat) by (eapply lookup_lt_Some in Ek; lia).
    unfold pcWeight at 2 3. cbn. lia.
  - (* the callback has returned *)
    destruct (phase s) as [|d due cur] eqn:Eph; [discriminate|].
    destruct cur as [h|]; [|discriminate].
    intros [= <-]. unfold measure. cbn. rewrite Eph. cbn.
    unfold Engine.afterInvocation.
    destruct (Engine.registrations (dispatch s) !! h) as [reg|] eqn:Hreg; [|lia].
    destruct (Engine.state reg) eqn:Es; try lia.
    cbn. rewrite (total_insert _ _ _ _ _ Hreg).
    assert (Hsl' : slack (Engine.with_registrations (dispatch s)
                            (<[h := Engine.with_state reg Engine.Disarmed]>
                               (Engine.registrations (dispatch s))))
                   = slack (dispatch s)).
    { unfold slack. cbn. destruct (Engine.armed (dispatch s)); [|reflexivity].
      rewrite (existsb_insert_same _ _ _ _ _ Hreg); [reflexivity|].
      unfold surelyDue. cbn. rewrite Es. reflexivity. }
    rewrite Hsl'. unfold stateWeight at 2 3. cbn. rewrite Es. lia.
  - (* the firing is over *)
    destruct (phase s) as [|d due cur] eqn:Eph; [discriminate|].
    destruct due; [|discriminate]. destruct cur; [discriminate|].
    intros [= <-]. unfold measure. cbn. rewrite Eph. cbn.
    unfold Engine.afterDispatch.
    rewrite (proj1 (recompute_registrations (dispatch s))).
    pose proof (recompute_slack (dispatch s) (inv_group s HI)). lia.
Qed.

Lemma step_measure l (s s' : System Fixture) :
  Inv s -> step predict onEachFrame iterations l s = Some s' ->
  measure s' + 1
  <= measure s + 2 * overdue (Engine.groupThreshold (dispatch s)) l.
Proof.
  intros HI. destruct l as [c now|late|k| |]; cbn [step];
    [|apply timer_step_measure, HI ..].
  intros Hs. pose proof (client_step_measure c now s s' HI Hs). cbn. lia.
Qed.

(** No action changes the group threshold. *)
Lemma step_group l (s s' : System Fixture) :
  step predict onEachFrame iterations l s = Some s' ->
  Engine.groupThreshold (dispatch s') = Engine.groupThreshold (dispatch s).
Proof.
  destruct l as [c now|late|k| |]; cbn [step]; unfold client_step, timer_step.
  - destruct (cb_receiver s !! c) as [rc|] eqn:Hrc; [|discriminate].
    assert (Hs : forall lastVsync,
               Engine.groupThreshold (receiver_schedule predict s rc lastVsync)
               = Engine.groupThreshold (dispatch s)).
    { intros lastVsync. unfold receiver_schedule, Engine.schedule.
      destruct (Engine.registrations (dispatch s) !! _); [|reflexivity].
      destruct (predict _ _); [|reflexivity].
      cbn [orElse]. apply recompute_updated_group. }
    destruct (RepeatingCallbackReceiver.pc rc);
      try destruct (RepeatingCallbackReceiver.mCalled rc);
      try discriminate; intros [= <-]; cbn; try reflexivity; apply Hs.
  - destruct (phase s); [|discriminate].
    destruct (Engine.armed (dispatch s)); [|discriminate].
    destruct (0 <=? late); [|discriminate].
    cbn. intros [= <-]. reflexivity.
  - destruct (phase s) as [|d due [h|]]; try discriminate.
    destruct (due !! k) as [inv|]; [|discriminate].
    destruct (Engine.registrations (dispatch s) !! Engine.handle inv)
      as [reg|]; [|discriminate].
    destruct (cb_receiver s !! Engine.callback reg) as [rc|]; [|discriminate].
    intros [= <-]. reflexivity.
  - destruct (phase s) as [|d due [h|]]; try discriminate.
    intros [= <-]. cbn. unfold Engine.afterInvocation.
    destruct (Engine.registrations (dispatch s) !! h) as [reg|]; [|reflexivity].
    destruct (Engine.state reg); reflexivity.
  - destruct (phase s) as [|d [|inv due] [h|]]; try discriminate.
    intros [= <-]. cbn. unfold Engine.afterDispatch.
    apply (proj2 (recompute_registrations (dispatch s))).
Qed.

Lemma inv_measure_nonneg (s : System Fixture) : Inv s -> 0 <= measure s.
Proof.
  intros HI. unfold measure.
  assert (H1 : 0 <= total pcWeight (cb_receiver s)).
  { apply total_nonneg. intros c Hc.
    apply list_elem_of_lookup in Hc as [i Hc].
    assert (Hlt : (i < length (Engine.registrations (dispatch s)))%nat).
    { rewrite (inv_len s HI). eapply lookup_lt_Some, Hc. }
    destruct (lookup_lt_is_Some_2 _ _ Hlt) as [reg Hreg].
    destruct (inv_clients s HI i reg c Hreg Hc) as (_ & _ & Hok).
    unfold pc_ok, between in Hok. unfold pcWeight.
    assert (0 <= bound) by (unfold bound; lia).
    destruct (RepeatingCallbackReceiver.pc c); lia. }
  assert (H2 : 0 <= total stateWeight (Engine.registrations (dispatch s))).
  { apply total_nonneg. intros r _. apply stateWeight_bounds. }
  assert (H3 : 0 <= phaseWeight (phase s)).
  { unfold phaseWeight. destruct (phase s) as [|d due [h|]]; lia. }
  pose proof (slack_bounds (dispatch s)). lia.
Qed.

(** No schedule of the threads is longer than the initial measure plus
    two actions for every alarm that went off more than the group
    threshold late. *)
Lemma exec_bounded g ls (s s' : System Fixture) :
  Inv s -> Engine.groupThreshold (dispatch s) = g ->
  exec predict onEachFrame iterations ls s = Some s' ->
  Z.of_nat (length ls) <= measure s + 2 * total (overdue g) ls.
Proof.
  revert s. induction ls as [|l ls IH]; intros s HI Hg; cbn [exec length total].
  - intros _. pose proof (inv_measure_nonneg s HI). lia.
  - destruct (step predict onEachFrame iterations l s) as [s1|] eqn:Es;
      [|discriminate].
    intros Hex.
    pose proof (step_measure l s s1 HI Es) as Hm. rewrite Hg in Hm.
    assert (Hg1 : Engine.groupThreshold (dispatch s1) = g)
      by (rewrite (step_group l s s1 Es); exact Hg).
    pose proof (IH s1 (step_inv l s s1 HI Es) Hg1 Hex). lia.
Qed.

Lemma exec_group ls (s s' : System Fixture) :
  exec predict onEachFrame iterations ls s = Some s' ->
  Engine.groupThreshold (dispatch s') = Engine.groupThreshold (dispatch s).
Proof.
  revert s. induction ls as [|l ls IH]; intros s; cbn.
  - intros [= <-]. reflexivity.
  - destruct (step predict onEachFrame iterations l s) as [s1|] eqn:Es;
      [|discriminate].
    intros Hex. rewrite (IH s1 Hex). eapply step_group, Es.
Qed.

(** *** The invariant holds when the test starts *)

Definition fresh_fixture (g : Z)
    (acc : Engine.t * list RepeatingCallbackReceiver.t) : Prop :=
  length (Engine.registrations (fst acc)) = length (snd acc) /\
  Engine.armed (fst acc) = None /\
  Engine.groupThreshold (fst acc) = g /\
  (forall i r, Engine.registrations (fst acc) !! i = Some r ->
               Engine.callback r = i /\ Engine.state r = Engine.Disarmed) /\
  (forall i c, snd acc !! i = Some c ->
               RepeatingCallbackReceiver.mCallback c = i /\
               RepeatingCallbackReceiver.pc c = RepeatingCallbackReceiver.AtStart /\
               RepeatingCallbackReceiver.mCalled c = false /\
               RepeatingCallbackReceiver.mCallbackTimes c = []).

Lemma add_receiver_fresh g acc client :
  fresh_fixture g acc -> fresh_fixture g (add_receiver acc client).
Proof.
  destruct acc as [e rs]. intros (Hlen & Ha & Hg & Hregs & Hrs).
  cbn in *. unfold fresh_fixture. cbn.
  rewrite !length_app. cbn. split; [lia|]. split; [exact Ha|]. split; [exact Hg|].
  split.
  - intros i r Hr. apply lookup_snoc_Some in Hr as [[Hi Hr]|[Hi <-]].
    + apply Hregs, Hr.
    + cbn. split; [lia | reflexivity].
  - intros i c Hc. apply lookup_snoc_Some in Hc as [[Hi Hc]|[Hi <-]].
    + apply Hrs, Hc.
    + cbn. repeat split. lia.
Qed.

Lemma fold_add_receiver_fresh g clients acc :
  fresh_fixture g acc -> fresh_fixture g (fold_left add_receiver clients acc).
Proof.
  revert acc. induction clients as [|cl clients IH]; intros acc H; cbn.
  - exact H.
  - apply IH, add_receiver_fresh, H.
Qed.

Lemma fold_add_receiver_length clients acc :
  length (snd (fold_left add_receiver clients acc))
  = (length (snd acc) + length clients)%nat.
Proof.
  revert acc. induction clients as [|cl clients IH]; intros [e rs]; cbn.
  - lia.
  - rewrite IH. cbn. rewrite length_app. cbn. lia.
Qed.

Lemma minWakeup_disarmed regs :
  (forall i r, regs !! i = Some r -> Engine.state r = Engine.Disarmed) ->
  Engine.minWakeup regs = None.
Proof.
  induction regs as [|r regs IH]; intros H; cbn; [reflexivity|].
  unfold Engine.wakeupOf. rewrite (H 0%nat r eq_refl).
  apply IH. intros i r0 Hr0. apply (H (S i)). exact Hr0.
Qed.

Lemma start_fresh (f : Fixture) g mv clients :
  exists e rs,
    start f g mv clients = mkSystem f e Idle rs /\
    fresh_fixture g (e, rs) /\ length rs = length clients.
Proof.
  unfold start.
  pose proof (fold_add_receiver_fresh g clients (Engine.make g mv, [])) as H.
  pose proof (fold_add_receiver_length clients (Engine.make g mv, [])) as Hl.
  destruct (fold_left add_receiver clients (Engine.make g mv, [])) as [e rs].
  exists e, rs. split; [reflexivity|]. split; [|exact Hl].
  apply H. unfold fresh_fixture. cbn. repeat split; intros; discriminate.
Qed.

Lemma start_inv (f : Fixture) g mv clients :
  0 <= g -> Inv (start f g mv clients).
Proof.
  intros Hg0.
  destruct (start_fresh f g mv clients)
    as (e & rs & -> & (Hlen & Ha & Hg & Hregs & Hrs) & _).
  cbn in *. constructor; cbn.
  - exact Hlen.
  - rewrite Hg. exact Hg0.
  - constructor.
  - intros h Hh. inversion Hh.
  - discriminate.
  - intros i r c Hr Hc.
    destruct (Hregs i r Hr) as (Hcall & Hst).
    destruct (Hrs i c Hc) as (Hcb & Hpc & Hcalled & Htimes).
    split; [exact Hcb|]. split.
    + split; [exact Hcall|]. rewrite Hst.
      split; [apply not_elem_of_nil | discriminate].
    + unfold pc_ok. rewrite Hpc. auto.
  - intros _. unfold armed_near_min. rewrite Ha.
    rewrite minWakeup_disarmed; [exact I|].
    intros i r Hr. apply (Hregs i r Hr).
Qed.

Lemma start_measure (f : Fixture) g mv clients :
  measure (start f g mv clients)
  = Z.of_nat (length clients) * (10 * bound + 9).
Proof.
  destruct (start_fresh f g mv clients)
    as (e & rs & -> & (Hlen & Ha & Hg & Hregs & Hrs) & Hn).
  cbn in *. unfold measure. cbn.
  rewrite (total_const pcWeight rs (10 * bound + 9)).
  - rewrite (total_const stateWeight (Engine.registrations e) 0).
    + unfold slack. rewrite Ha, Hn. lia.
    + intros r Hr. apply list_elem_of_lookup in Hr as [i Hr].
      unfold stateWeight. rewrite (proj2 (Hregs i r Hr)). reflexivity.
  - intros c Hc. apply list_elem_of_lookup in Hc as [i Hc].
    unfold pcWeight. rewrite (proj1 (proj2 (Hrs i c Hc))). reflexivity.
Qed.

(** *** Every schedule of the threads delivers every callback *)

Lemma start_group (f : Fixture) g mv clients :
  Engine.groupThreshold (dispatch (start f g mv clients)) = g.
Proof.
  destruct (start_fresh f g mv clients)
    as (e & rs & -> & (_ & _ & Hg & _) & _).
  exact Hg.
Qed.

(** Whatever the threads do and however late the alarms go off, a run
    from the start of a test keeps every receiver's callbacks in step with
    its schedule calls, can always go on (with an alarm on time, if it is
    the Timer's turn) until every receiver has left [repeatedly_schedule],
    and when that has happened every receiver has recorded exactly
    [iterations] callbacks.  The run takes at most
    [clients * (10 * (iterations - 1) + 9)] actions, and two more for
    every alarm that went off more than the group threshold late. *)
Lemma exec_delivers (f : Fixture) g mv clients ls (s : System Fixture) :
  0 <= g ->
  exec predict onEachFrame iterations ls (start f g mv clients) = Some s ->
  Z.of_nat (length ls)
  <= Z.of_nat (length clients) * (10 * (iterations - 1) + 9)
     + 2 * total (overdue g) ls /\
  Forall in_step (cb_receiver s) /\
  (all_done s = true ->
   Forall (fun c => Z.of_nat (length (RepeatingCallbackReceiver.mCallbackTimes c))
                    = iterations) (cb_receiver s)) /\
  (all_done s = false ->
   exists l s',
     overdue g l = 0 /\ step predict onEachFrame iterations l s = Some s').
Proof.
  intros Hg Hex.
  pose proof (start_inv f g mv clients Hg) as HI0.
  pose proof (exec_inv ls _ _ HI0 Hex) as HI.
  split; [|split; [|split]].
  - pose proof (exec_bounded g ls _ _ HI0 (start_group f g mv clients) Hex) as Hb.
    rewrite start_measure in Hb. exact Hb.
  - apply inv_in_step, HI.
  - apply inv_done_counts, HI.
  - intros Hnd. destruct (inv_progress s HI Hnd) as (l & s' & Hov & Hs).
    rewrite (exec_group ls _ s Hex), start_group in Hov.
    exists l, s'. split; assumption.
Qed.

(** *** The receivers keep their workloads *)

Definition workloads (s : System Fixture) : list (Z * Z) :=
  (fun c => (RepeatingCallbackReceiver.mWorkload c,
             RepeatingCallbackReceiver.mReadyDuration c)) <$> cb_receiver s.

Lemma workloads_insert (s : System Fixture) i c c' :
  cb_receiver s !! i = Some c ->
  RepeatingCallbackReceiver.mWorkload c' = RepeatingCallbackReceiver.mWorkload c ->
  RepeatingCallbackReceiver.mReadyDuration c'
  = RepeatingCallbackReceiver.mReadyDuration c ->
  (fun c => (RepeatingCallbackReceiver.mWorkload c,
             RepeatingCallbackReceiver.mReadyDuration c))
    <$> <[i := c']> (cb_receiver s) = workloads s.
Proof.
  intros Hc Hw Hr. unfold workloads. rewrite list_fmap_insert, Hw, Hr.
  apply list_insert_id. rewrite list_lookup_fmap, Hc. reflexivity.
Qed.

Lemma step_workloads l (s s' : System Fixture) :
  step predict onEachFrame iterations l s = Some s' -> workloads s' = workloads s.
Proof.
  destruct l as [c now|late|k| |]; cbn [step]; unfold client_step, timer_step.
  - destruct (cb_receiver s !! c) as [rc|] eqn:Hrc; [|discriminate].
    destruct (RepeatingCallbackReceiver.pc rc);
      try destruct (RepeatingCallbackReceiver.mCalled rc);
      try discriminate; intros [= <-];
      apply (workloads_insert s c rc _ Hrc); reflexivity.
  - destruct (phase s); [|discriminate].
    destruct (Engine.armed (dispatch s)); [|discriminate].
    destruct (0 <=? late); [|discriminate].
    cbn. intros [= <-]. reflexivity.
  - destruct (phase s) as [|d due [h|]]; try discriminate.
    destruct (due !! k) as [inv|]; [|discriminate].
    destruct (Engine.registrations (dispatch s) !! Engine.handle inv)
      as [reg|]; [|discriminate].
    destruct (cb_receiver s !! Engine.callback reg) as [rc|] eqn:Hrc; [|discriminate].
    intros [= <-]. apply (workloads_insert s _ rc _ Hrc); reflexivity.
  - destruct (phase s) as [|d due [h|]]; try discriminate.
    intros [= <-]. reflexivity.
  - destruct (phase s) as [|d [|inv due] [h|]]; try discriminate.
    intros [= <-]. reflexivity.
Qed.

Lemma exec_workloads ls (s s' : System Fixture) :
  exec predict onEachFrame iterations ls s = Some s' -> workloads s' = workloads s.
Proof.
  revert s. induction ls as [|l ls IH]; intros s; cbn.
  - intros [= <-]. reflexivity.
  - destruct (step predict onEachFrame iterations l s) as [s1|] eqn:Es;
      [|discriminate].
    intros Hex. rewrite (IH s1 Hex). eapply step_workloads, Es.
Qed.

(** *** Pending targets come from the Tracker as it stands *)

(** Every pending target is the Tracker's current answer for the request
    it was scheduled with. *)
Definition fresh_targets (s : System Fixture) : Prop :=
  forall i r w p,
    Engine.registrations (dispatch s) !! i = Some r ->
    Engine.state r = Engine.Scheduled w p ->
    predict (fixture s)
      (Engine.lastKnownPulse r + Engine.workDuration r + Engine.readyDuration r)
    = Some p /\
    w = p - Engine.workDuration r - Engine.readyDuration r.

Lemma single_receiver (s : System Fixture) c rc :
  length (cb_receiver s) = 1%nat -> cb_receiver s !! c = Some rc -> c = 0%nat.
Proof. intros Hl Hc. apply lookup_lt_Some in Hc. lia. Qed.

Lemma fresh_after_schedule (s : System Fixture) rc lastVsync reg ph' rs' :
  fresh_targets s ->
  Engine.registrations (dispatch s) !! RepeatingCallbackReceiver.mCallback rc
    = Some reg ->
  fresh_targets
    (mkSystem (fixture s) (receiver_schedule predict s rc lastVsync) ph' rs').
Proof.
  intros Hf Hreg.
  destruct (schedule_result s rc lastVsync reg Hreg) as (p & Hp & ->).
  intros i r w p0. cbn. rewrite recompute_updated_registrations.
  intros Hr Hs. apply list_lookup_insert_Some in Hr as [(<- & <- & _)|(_ & Hr)].
  - cbn in *. injection Hs as <- <-. split; [exact Hp | reflexivity].
  - apply (Hf i r w p0 Hr Hs).
Qed.

(** [onEachFrame] cannot invalidate a pending target: there is a single
    receiver, which has nothing pending when it calls it, or it leaves the
    Tracker's answers as they are. *)
Definition frame_safe (s : System Fixture) : Prop :=
  length (cb_receiver s) = 1%nat \/
  (forall last f t, predict (onEachFrame last f) t = predict f t).

Lemma step_fresh l (s s' : System Fixture) :
  Inv s -> frame_safe s -> fresh_targets s ->
  step predict onEachFrame iterations l s = Some s' -> fresh_targets s'.
Proof.
  intros HI Hsafe Hf.
  destruct l as [c now|late|k| |]; cbn [step]; unfold client_step, timer_step.
  - destruct (cb_receiver s !! c) as [rc|] eqn:Hrc; [|discriminate].
    assert (Hlt : (c < length (Engine.registrations (dispatch s)))%nat).
    { rewrite (inv_len s HI). eapply lookup_lt_Some, Hrc. }
    destruct (lookup_lt_is_Some_2 _ _ Hlt) as [reg Hreg].
    destruct (inv_clients s HI c reg rc Hreg Hrc) as (Hcb & _ & Hpc).
    assert (Hreg' : Engine.registrations (dispatch s)
                      !! RepeatingCallbackReceiver.mCallback rc = Some reg)
      by (rewrite Hcb; exact Hreg).
    unfold pc_ok in Hpc.
    destruct (RepeatingCallbackReceiver.pc rc) as [|j|j last|j last| |] eqn:Epc.
    + intros [= <-]. eapply fresh_after_schedule; eassumption.
    + destruct (RepeatingCallbackReceiver.mCalled rc); [|discriminate].
      intros [= <-]. exact Hf.
    + intros [= <-]. intros i r w p Hr Hs. cbn in Hr.
      destruct Hsafe as [Hone|Hstatic].
      * (* the tracker changes while nothing is pending *)
        exfalso.
        assert (i = c).
        { apply lookup_lt_Some in Hr. rewrite (inv_len s HI), Hone in Hr.
          pose proof (single_receiver s c rc Hone Hrc). lia. }
        subst i. rewrite Hreg in Hr. injection Hr as <-.
        destruct Hpc as (_ & _ & Hp & _). unfold pendingb in Hp.
        rewrite Hs in Hp. discriminate.
      * cbn. rewrite Hstatic. apply (Hf i r w p Hr Hs).
    + intros [= <-]. eapply fresh_after_schedule; eassumption.
    + destruct (RepeatingCallbackReceiver.mCalled rc); [|discriminate].
      intros [= <-]. exact Hf.
    + discriminate.
  - destruct (phase s); [|discriminate].
    destruct (Engine.armed (dispatch s)) as [d0|]; [|discriminate].
    destruct (0 <=? late); [|discriminate]. set (d := d0 + late).
    cbn. intros [= <-]. intros i r' w p. cbn. rewrite list_lookup_fmap.
    destruct (Engine.registrations (dispatch s) !! i) as [r|] eqn:Hr; [|discriminate].
    cbn. intros [= <-]. unfold Engine.markDue.
    destruct (Engine.isDue d (Engine.groupThreshold (dispatch s)) r);
      [discriminate | apply (Hf i r w p Hr)].
  - destruct (phase s) as [|d due [h|]]; try discriminate.
    destruct (due !! k) as [inv|]; [|discriminate].
    destruct (Engine.registrations (dispatch s) !! Engine.handle inv)
      as [reg|]; [|discriminate].
    destruct (cb_receiver s !! Engine.callback reg) as [rc|]; [|discriminate].
    intros [= <-]. exact Hf.
  - destruct (phase s) as [|d due [h|]]; try discriminate.
    intros [= <-]. intros i r w p. cbn. unfold Engine.afterInvocation.
    destruct (Engine.registrations (dispatch s) !! h) as [reg|] eqn:Hreg;
      [|apply Hf].
    destruct (Engine.state reg) eqn:Es; try apply Hf.
    cbn. intros Hr Hs.
    apply list_lookup_insert_Some in Hr as [(<- & <- & _)|(_ & Hr)].
    + discriminate.
    + apply (Hf i r w p Hr Hs).
  - destruct (phase s) as [|d [|inv due] [h|]]; try discriminate.
    intros [= <-]. intros i r w p. cbn. unfold Engine.afterDispatch.
    rewrite (proj1 (recompute_registrations (dispatch s))). apply Hf.
Qed.

Lemma step_receivers l (s s' : System Fixture) :
  step predict onEachFrame iterations l s = Some s' ->
  length (cb_receiver s') = length (cb_receiver s).
Proof.
  intros Hs. apply step_workloads in Hs. unfold workloads in Hs.
  apply (f_equal length) in Hs. rewrite !length_fmap in Hs. exact Hs.
Qed.

Lemma exec_fresh ls (s s' : System Fixture) :
  Inv s -> frame_safe s -> fresh_targets s ->
  exec predict onEachFrame iterations ls s = Some s' -> fresh_targets s'.
Proof.
  revert s. induction ls as [|l ls IH]; intros s HI Hsafe Hf; cbn.
  - intros [= <-]. exact Hf.
  - destruct (step predict onEachFrame iterations l s) as [s1|] eqn:Es;
      [|discriminate].
    apply IH.
    + eapply step_inv; eassumption.
    + destruct Hsafe as [Hone|Hstatic]; [left | right; exact Hstatic].
      rewrite (step_receivers l s s1 Es). exact Hone.
    + eapply step_fresh; eassumption.
Qed.

(** At the start of a test nothing is pending. *)
Lemma start_fresh_targets (f : Fixture) g mv clients :
  fresh_targets (start f g mv clients).
Proof.
  destruct (start_fresh f g mv clients)
    as (e & rs & -> & (_ & _ & _ & Hregs & _) & _).
  intros i r w p Hr Hs. cbn in Hr.
  destruct (Hregs i r Hr) as (_ & Hd). congruence.
Qed.

(** *** One receiver: the fixture follows the frames *)

(** How many times the receiver has called [onEachFrame]. *)
Definition frames (p : RepeatingCallbackReceiver.Pc) : Z :=
  match p with
  | RepeatingCallbackReceiver.AtStart => 0
  | RepeatingCallbackReceiver.AtWait k => k
  | RepeatingCallbackReceiver.AtFrame k _ => k
  | RepeatingCallbackReceiver.AtSchedule k _ => k + 1
  | RepeatingCallbackReceiver.AtFinalWait => bound
  | RepeatingCallbackReceiver.AtDone => bound
  end.

Lemma frames_loop_head k :
  0 <= k <= bound ->
  frames (RepeatingCallbackReceiver.loop_head iterations k) = k.
Proof.
  intros Hk. unfold RepeatingCallbackReceiver.loop_head. rewrite loop_bound_eq.
  destruct (k <? bound) eqn:E; cbn; [reflexivity|].
  apply Z.ltb_ge in E. lia.
Qed.

(** [Q n f]: [f] is what the fixture looks like after [n] frames. *)
Definition tracks (Q : Z -> Fixture -> Prop) (s : System Fixture) : Prop :=
  forall c, cb_receiver s !! 0%nat = Some c ->
            Q (frames (RepeatingCallbackReceiver.pc c)) (fixture s).

Lemma step_tracks (Q : Z -> Fixture -> Prop) l (s s' : System Fixture) :
  (forall n last f, 0 <= n < bound -> Q n f -> Q (n + 1) (onEachFrame last f)) ->
  Inv s -> length (cb_receiver s) = 1%nat -> tracks Q s ->
  step predict onEachFrame iterations l s = Some s' -> tracks Q s'.
Proof.
  intros HQ HI Hone Ht.
  assert (H0 : (0 < length (cb_receiver s))%nat) by lia.
  destruct l as [c now|late|k| |]; cbn [step]; unfold client_step, timer_step.
  - destruct (cb_receiver s !! c) as [rc|] eqn:Hrc; [|discriminate].
    pose proof (single_receiver s c rc Hone Hrc). subst c.
    assert (Hlt : (0 < length (Engine.registrations (dispatch s)))%nat)
      by (rewrite (inv_len s HI); exact H0).
    destruct (lookup_lt_is_Some_2 _ _ Hlt) as [reg Hreg].
    destruct (inv_clients s HI _ reg rc Hreg Hrc) as (_ & _ & Hpc).
    specialize (Ht rc Hrc). unfold pc_ok, between in Hpc.
    assert (Hb : 0 <= bound) by (unfold bound; lia).
    assert (Hnew : forall f' e' ph' rc',
               Q (frames (RepeatingCallbackReceiver.pc rc')) f' ->
               tracks Q (mkSystem f' e' ph' (<[0%nat := rc']> (cb_receiver s)))).
    { intros f' e' ph' rc' Hq c'. cbn.
      rewrite list_lookup_insert_eq by exact H0. intros [= <-]. exact Hq. }
    destruct (RepeatingCallbackReceiver.pc rc) as [|j|j last|j last| |] eqn:Epc.
    + intros [= <-]. apply Hnew. cbn.
      rewrite frames_loop_head by lia. exact Ht.
    + destruct (RepeatingCallbackReceiver.mCalled rc); [|discriminate].
      intros [= <-]. apply Hnew. exact Ht.
    + intros [= <-]. apply Hnew. cbn. apply HQ; [tauto | exact Ht].
    + intros [= <-]. apply Hnew. cbn.
      rewrite (incr_small j) by tauto. rewrite frames_loop_head by lia. exact Ht.
    + destruct (RepeatingCallbackReceiver.mCalled rc); [|discriminate].
      intros [= <-]. apply Hnew. exact Ht.
    + discriminate.
  - destruct (phase s); [|discriminate].
    destruct (Engine.armed (dispatch s)); [|discriminate].
    destruct (0 <=? late); [|discriminate].
    cbn. intros [= <-]. exact Ht.
  - destruct (phase s) as [|d due [h|]]; try discriminate.
    destruct (due !! k) as [inv|]; [|discriminate].
    destruct (Engine.registrations (dispatch s) !! Engine.handle inv)
      as [reg|]; [|discriminate].
    destruct (cb_receiver s !! Engine.callback reg) as [rc|] eqn:Hrc; [|discriminate].
    pose proof (single_receiver s _ rc Hone Hrc) as Hz.
    intros [= <-]. intros c'. cbn. rewrite Hz in *.
    rewrite list_lookup_insert_eq by exact H0. intros [= <-]. cbn.
    apply (Ht rc Hrc).
  - destruct (phase s) as [|d due [h|]]; try discriminate.
    intros [= <-]. exact Ht.
  - destruct (phase s) as [|d [|inv due] [h|]]; try discriminate.
    intros [= <-]. exact Ht.
Qed.

Lemma exec_tracks (Q : Z -> Fixture -> Prop) ls (s s' : System Fixture) :
  (forall n last f, 0 <= n < bound -> Q n f -> Q (n + 1) (onEachFrame last f)) ->
  Inv s -> length (cb_receiver s) = 1%nat -> tracks Q s ->
  exec predict onEachFrame iterations ls s = Some s' -> tracks Q s'.
Proof.
  intros HQ. revert s. induction ls as [|l ls IH]; intros s HI Hone Ht; cbn.
  - intros [= <-]. exact Ht.
  - destruct (step predict onEachFrame iterations l s) as [s1|] eqn:Es;
      [|discriminate].
    apply IH.
    + eapply step_inv; eassumption.
    + rewrite (step_receivers l s s1 Es). exact Hone.
    + eapply step_tracks; eassumption.
Qed.

(** A test with one receiver: on top of [exec_delivers], pending targets
    are fresh and the fixture is what the frames seen so far have made of
    it, [iterations - 1] of them at the end. *)
Lemma exec_single (Q : Z -> Fixture -> Prop) (f : Fixture) g mv client ls
    (s : System Fixture) :
  0 <= g -> Q 0 f ->
  (forall n last f', 0 <= n < bound -> Q n f' -> Q (n + 1) (onEachFrame last f')) ->
  exec predict onEachFrame iterations ls (start f g mv [client]) = Some s ->
  fresh_targets s /\
  exists c, cb_receiver s = [c] /\
            RepeatingCallbackReceiver.mWorkload c = fst client /\
            RepeatingCallbackReceiver.mReadyDuration c = snd client /\
            Q (frames (RepeatingCallbackReceiver.pc c)) (fixture s) /\
            (RepeatingCallbackReceiver.pc c = RepeatingCallbackReceiver.AtDone ->
             Q (iterations - 1) (fixture s)).
Proof.
  intros Hg HQ0 HQ Hex.
  pose proof (start_inv f g mv [client] Hg) as HI0.
  assert (Hone : length (cb_receiver (start f g mv [client])) = 1%nat)
    by reflexivity.
  split.
  - apply (exec_fresh ls _ s HI0 (or_introl Hone)); [|exact Hex].
    apply start_fresh_targets.
  - pose proof (exec_workloads ls _ _ Hex) as Hw. unfold workloads in Hw.
    cbn in Hw.
    destruct (cb_receiver s) as [|c [|c2 rs]] eqn:Ers; try discriminate.
    injection Hw as Hw1 Hw2.
    assert (Ht : tracks Q s).
    { apply (exec_tracks Q ls _ s HQ HI0 Hone); [|exact Hex].
      intros c0. cbn. intros [= <-]. exact HQ0. }
    specialize (Ht c). rewrite Ers in Ht. specialize (Ht eq_refl).
    exists c. repeat split; try assumption.
    intros Hdone. rewrite Hdone in Ht. exact Ht.
Qed.

(** A test whose [onEachFrame] leaves the Tracker alone: pending targets
    are fresh, however many receivers there are. *)
Lemma exec_static (f : Fixture) g mv clients ls (s : System Fixture) :
  0 <= g ->
  (forall last f' t, predict (onEachFrame last f') t = predict f' t) ->
  exec predict onEachFrame iterations ls (start f g mv clients) = Some s ->
  fresh_targets s.
Proof.
  intros Hg Hstatic Hex.
  apply (exec_fresh ls _ s (start_inv f g mv clients Hg) (or_intror Hstatic));
    [apply start_fresh_targets | exact Hex].
Qed.

End Accounting.

(** ** The three scenarios *)

Lemma mIterations_range : 1 <= mIterations <= 2 ^ 32.
Proof. unfold mIterations. lia. Qed.

Lemma group_threshold_nonneg : 0 <= mDispatchGroupThreshold.
Proof. unfold mDispatchGroupThreshold, toNs_us. lia. Qed.

Lemma single_done {Fixture} (s : System Fixture) c :
  cb_receiver s = [c] ->
  all_done s = true ->
  RepeatingCallbackReceiver.pc c = RepeatingCallbackReceiver.AtDone.
Proof.
  unfold all_done. intros ->. cbn.
  destruct (RepeatingCallbackReceiver.pc c); try discriminate. reflexivity.
Qed.


(** The eager run of [triple_alarm], every clock reading 0 and every alarm
    50us late. *)
Definition triple_alarm_run : list Label :=
  eager_schedule TripleAlarm.predict TripleAlarm.on_each_frame mIterations 0
    50000 600 TripleAlarm.init.

Definition triple_alarm_final : System unit :=
  Eval vm_compute in
    match exec TripleAlarm.predict TripleAlarm.on_each_frame mIterations
            triple_alarm_run TripleAlarm.init with
    | Some s => s
    | None => TripleAlarm.init
    end.


(** The three receivers have made their first schedule call. *)
Definition triple_alarm_scheduled : System unit :=
  Eval vm_compute in
    match exec TripleAlarm.predict TripleAlarm.on_each_frame mIterations
            [Client 0 0; Client 1 0; Client 2 0] TripleAlarm.init with
    | Some s => s
    | None => TripleAlarm.init
    end.


(** After [n] frames of [vascillating_vrr] the interval and the tracker's
    period are 3ms + n * 1ms. *)
Definition vrr_after (n : Z) (f : VascillatingVrr.Fixture) : Prop :=
  VascillatingVrr.next_vsync_interval f = toNs_ms 3 + n * toNs_ms 1 /\
  VRRStubTracker.mPeriod (VascillatingVrr.tracker f) = toNs_ms 3 + n * toNs_ms 1.

Lemma vrr_after_frame n last f :
  0 <= n < mIterations - 1 ->
  vrr_after n f -> vrr_after (n + 1) (VascillatingVrr.on_each_frame last f).
Proof.
  intros Hn (Hi & Hp). unfold vrr_after, VascillatingVrr.on_each_frame.
  cbn. rewrite Hi. unfold Nsecs.add.
  rewrite Nsecs.wrap_in_range.
  - unfold toNs_ms. lia.
  - unfold mIterations, toNs_ms in *. unfold_range. lia.
Qed.


Definition vascillating_vrr_run : list Label :=
  eager_schedule VascillatingVrr.predict VascillatingVrr.on_each_frame mIterations
    0 50000 200 VascillatingVrr.init.

Definition vascillating_vrr_final : System VascillatingVrr.Fixture :=
  Eval vm_compute in
    match exec VascillatingVrr.predict VascillatingVrr.on_each_frame mIterations
            vascillating_vrr_run VascillatingVrr.init with
    | Some s => s
    | None => VascillatingVrr.init
    end.


(** The receiver has made its first schedule call. *)
Definition vascillating_vrr_scheduled : System VascillatingVrr.Fixture :=
  Eval vm_compute in
    match exec VascillatingVrr.predict VascillatingVrr.on_each_frame mIterations
            [Client 0 0] VascillatingVrr.init with
    | Some s => s
    | None => VascillatingVrr.init
    end.


(** After [n] frames of [fixed_jump] the counter is [n] and the period is
    still 3ms up to the frame with counter 10, 5ms after it. *)
Definition jump_after (n : Z) (f : FixedJump.Fixture) : Prop :=
  FixedJump.jump_frame_counter f = n /\
  VRRStubTracker.mPeriod (FixedJump.tracker f)
  = if n <=? FixedJump.jump_frame_at then toNs_ms 3 else toNs_ms 5.

Lemma jump_after_frame n last f :
  0 <= n < mIterations - 1 ->
  jump_after n f -> jump_after (n + 1) (FixedJump.on_each_frame last f).
Proof.
  intros Hn (Hc & Hp). unfold jump_after, FixedJump.on_each_frame.
  cbn. rewrite Hc. clear Hc. unfold mIterations in Hn. split.
  - apply Z.mod_small. lia.
  - unfold FixedJump.jump_frame_at in *.
    destruct (n =? 10) eqn:E.
    + apply Z.eqb_eq in E. subst n. reflexivity.
    + apply Z.eqb_neq in E. rewrite Hp.
      destruct (n <=? 10) eqn:E1, (n + 1 <=? 10) eqn:E2; try reflexivity;
        [apply Z.leb_le in E1; apply Z.leb_gt in E2
        |apply Z.leb_gt in E1; apply Z.leb_le in E2]; lia.
Qed.


Definition fixed_jump_run : list Label :=
  eager_schedule FixedJump.predict FixedJump.on_each_frame mIterations 0 50000
    200 FixedJump.init.

Definition fixed_jump_final : System FixedJump.Fixture :=
  Eval vm_compute in
    match exec FixedJump.predict FixedJump.on_each_frame mIterations
            fixed_jump_run FixedJump.init with
    | Some s => s
    | None => FixedJump.init
    end.


(** The receiver has made its first schedule call. *)
Definition fixed_jump_scheduled : System FixedJump.Fixture :=
  Eval vm_compute in
    match exec FixedJump.predict FixedJump.on_each_frame mIterations
            [Client 0 0] FixedJump.init with
    | Some s => s
    | None => FixedJump.init
    end.


(** * Further properties of the stub trackers *)

(** X1: when the computation of the first answer does not overflow, a
    time the fixed-rate stub has answered is a pulse, so asking again from
    it gives it back. *)
Theorem fixed_rate_idempotent (t : Z) :
  FixedRateIdealStubTracker.no_overflow t ->
  FixedRateIdealStubTracker.nextAnticipatedVSyncTimeFrom
    (FixedRateIdealStubTracker.nextAnticipatedVSyncTimeFrom t)
  = FixedRateIdealStubTracker.nextAnticipatedVSyncTimeFrom t.
Proof.
  intros Hno.
  destruct (fixed_rate_pulse t Hno) as (_ & Hgrid & _).
  set (r := FixedRateIdealStubTracker.nextAnticipatedVSyncTimeFrom t) in *.
  unfold on_grid in Hgrid. rewrite Z.sub_0_r in Hgrid.
  unfold FixedRateIdealStubTracker.nextAnticipatedVSyncTimeFrom at 1.
  unfold Nsecs.rem.
  assert (Hp : 0 < FixedRateIdealStubTracker.mPeriod) by reflexivity.
  rewrite (divide_rem_zero r _ Hp Hgrid). reflexivity.
Qed.

Lemma fixed_rate_idempotent_witness :
  FixedRateIdealStubTracker.nextAnticipatedVSyncTimeFrom
    (FixedRateIdealStubTracker.nextAnticipatedVSyncTimeFrom 7000000)
  = FixedRateIdealStubTracker.nextAnticipatedVSyncTimeFrom 7000000.
Proof.
  apply (fixed_rate_idempotent 7000000).
  unfold_range. vm_compute. repeat split; discriminate.
Defined.

(** X2: from a non-negative reference time, when its computation does not
    overflow, the fixed-rate stub never looks a whole period ahead. *)
Theorem fixed_rate_within_period (t : Z) :
  FixedRateIdealStubTracker.no_overflow t -> 0 <= t ->
  t <= FixedRateIdealStubTracker.nextAnticipatedVSyncTimeFrom t
    < t + FixedRateIdealStubTracker.currentPeriod.
Proof.
  intros Hno Ht. rewrite (fixed_rate_value t Hno).
  unfold FixedRateIdealStubTracker.currentPeriod.
  set (p := FixedRateIdealStubTracker.mPeriod).
  assert (Hp : 0 < p) by reflexivity.
  pose proof (Z.rem_bound_pos t p Ht Hp) as Hb.
  destruct (Z.rem t p =? 0) eqn:E; [lia|].
  apply Z.eqb_neq in E. lia.
Qed.

Lemma fixed_rate_within_period_witness :
  7000000 <= FixedRateIdealStubTracker.nextAnticipatedVSyncTimeFrom 7000000
    < 7000000 + FixedRateIdealStubTracker.currentPeriod.
Proof.
  apply (fixed_rate_within_period 7000000); [|lia].
  unfold_range. vm_compute. repeat split; discriminate.
Defined.

(** On one grid, a later reference never gets an earlier next pulse. *)
Lemma next_pulse_monotone (p b t1 t2 r1 r2 : Z) :
  next_pulse p b t1 r1 -> next_pulse p b t2 r2 -> t1 <= t2 -> r1 <= r2.
Proof.
  intros (_ & _ & Hleast) (Hle & Hgrid & _) Ht.
  apply Hleast; [lia | exact Hgrid].
Qed.

(** X3: the fixed-rate stub is monotone on non-negative reference times
    whose answers are computed without overflow. *)
Theorem fixed_rate_monotone (t1 t2 : Z) :
  FixedRateIdealStubTracker.no_overflow t1 ->
  FixedRateIdealStubTracker.no_overflow t2 ->
  0 <= t1 <= t2 ->
  FixedRateIdealStubTracker.nextAnticipatedVSyncTimeFrom t1
  <= FixedRateIdealStubTracker.nextAnticipatedVSyncTimeFrom t2.
Proof.
  intros H1 H2 Ht.
  destruct (fixed_rate_pulse t1 H1) as (_ & _ & _ & Hn1).
  destruct (fixed_rate_pulse t2 H2) as (_ & _ & _ & Hn2).
  eapply next_pulse_monotone; [apply Hn1 | apply Hn2 |]; lia.
Qed.

Lemma fixed_rate_monotone_witness :
  FixedRateIdealStubTracker.nextAnticipatedVSyncTimeFrom 2999999
  <= FixedRateIdealStubTracker.nextAnticipatedVSyncTimeFrom 3000001.
Proof.
  apply (fixed_rate_monotone 2999999 3000001); [| |lia];
    unfold_range; vm_compute; repeat split; discriminate.
Defined.

(** X4: a [VRRStubTracker] constructed with the 3ms period, before any
    [set_interval], answers exactly like the fixed-rate stub at every
    64-bit reference time. *)
Theorem vrr_initial_is_fixed_rate (t : Z) :
  Nsecs.in_range t ->
  VRRStubTracker.nextAnticipatedVSyncTimeFrom
    (VRRStubTracker.make FixedRateIdealStubTracker.mPeriod) t
  = FixedRateIdealStubTracker.nextAnticipatedVSyncTimeFrom t.
Proof.
  intros Ht.
  assert (H0 : Nsecs.sub t 0 = t).
  { unfold Nsecs.sub. rewrite Z.sub_0_r. apply Nsecs.wrap_in_range, Ht. }
  unfold VRRStubTracker.nextAnticipatedVSyncTimeFrom,
    FixedRateIdealStubTracker.nextAnticipatedVSyncTimeFrom, VRRStubTracker.make.
  cbn [VRRStubTracker.mPeriod VRRStubTracker.mBase]. rewrite !H0.
  destruct (Nsecs.rem t FixedRateIdealStubTracker.mPeriod =? 0); [reflexivity|].
  generalize (Nsecs.sub t (Nsecs.rem t FixedRateIdealStubTracker.mPeriod)).
  intros x. unfold Nsecs.add at 1. rewrite Z.add_0_r.
  apply Nsecs.wrap_in_range, Nsecs.wrap_range.
Qed.

Lemma vrr_initial_is_fixed_rate_witness :
  VRRStubTracker.nextAnticipatedVSyncTimeFrom
    (VRRStubTracker.make FixedRateIdealStubTracker.mPeriod) 7000000
  = FixedRateIdealStubTracker.nextAnticipatedVSyncTimeFrom 7000000.
Proof.
  apply (vrr_initial_is_fixed_rate 7000000).
  unfold_range. vm_compute. repeat split; discriminate.
Defined.

(** X5: after [set_interval p b] with a positive period, when the
    computation of the first answer does not overflow, a time the
    variable-rate stub has answered is on the new grid, so asking again
    from it gives it back. *)
Theorem vrr_idempotent (p b t : Z) (s : VRRStubTracker.t) :
  0 < p -> VRRStubTracker.no_overflow p b t ->
  let tracker := VRRStubTracker.set_interval p b s in
  VRRStubTracker.nextAnticipatedVSyncTimeFrom tracker
    (VRRStubTracker.nextAnticipatedVSyncTimeFrom tracker t)
  = VRRStubTracker.nextAnticipatedVSyncTimeFrom tracker t.
Proof.
  intros Hp Hno. cbv zeta.
  destruct (vrr_pulse p b t s Hp Hno) as (_ & Hgrid & _).
  pose proof (vrr_value p b t s Hp Hno) as Hv.
  set (r := VRRStubTracker.nextAnticipatedVSyncTimeFrom
              (VRRStubTracker.set_interval p b s) t) in *.
  assert (Hin : Nsecs.in_range (r - b)).
  { destruct Hno as (Ht & Hb & Hn & Hr). rewrite Hv.
    destruct (Z.rem (t - b) p =? 0) eqn:E; [exact Hn|].
    apply Z.eqb_neq in E.
    replace (t - Z.rem (t - b) p + p - b)
      with (t - b - Z.rem (t - b) p + p) by lia. apply (Hr E). }
  unfold VRRStubTracker.nextAnticipatedVSyncTimeFrom at 1.
  cbn [VRRStubTracker.set_interval VRRStubTracker.mPeriod VRRStubTracker.mBase].
  unfold Nsecs.sub at 1 2. rewrite (Nsecs.wrap_in_range _ Hin).
  unfold Nsecs.rem. rewrite (divide_rem_zero (r - b) p Hp Hgrid). reflexivity.
Qed.

Lemma vrr_idempotent_witness :
  let tracker := VRRStubTracker.set_interval 5000000 30000000
                   (VRRStubTracker.make 3000000) in
  VRRStubTracker.nextAnticipatedVSyncTimeFrom tracker
    (VRRStubTracker.nextAnticipatedVSyncTimeFrom tracker 41000000)
  = VRRStubTracker.nextAnticipatedVSyncTimeFrom tracker 41000000.
Proof.
  apply (vrr_idempotent 5000000 30000000 41000000); [lia|].
  unfold_range. vm_compute. repeat split; discriminate.
Defined.

(** * Further properties of the per-package registry *)

Lemma construct_fields flag w b op dev m b' :
  SensorManager.construct flag w b op dev = Ret (m, b') ->
  SensorManager.mOpPackageName m = op /\ SensorManager.mDeviceId m = dev.
Proof.
  unfold SensorManager.construct, obind.
  destruct (SensorManager.assertStateLocked flag w b _)
    as [|[[st m1] b1]] eqn:Ea; [discriminate|].
  intros [= <- <-].
  apply assertStateLocked_names in Ea as (_ & _ & _ & Hop & Hdev).
  split; assumption.
Qed.

(** The registry is sound: every entry points to a live object, a
    non-empty key names the package its manager was built for, and no
    object sits at an address [new] has not handed out yet. *)
Record registry_ok (p : Process) : Prop := mkRegistryOk {
  entries_live : forall name ptr,
    sPackageInstances p !! name = Some ptr -> is_Some (objects p !! ptr);
  entries_named : forall name ptr m,
    (String.length name =? 0)%nat = false ->
    sPackageInstances p !! name = Some ptr -> objects p !! ptr = Some m ->
    SensorManager.mOpPackageName m = name;
  objects_allocated : forall ptr,
    is_Some (objects p !! ptr) -> (ptr < nextObject p)%nat
}.

Lemma std_map_insert_lookup {V} k (v : V) (m : gmap string V) k' v' :
  std_map_insert k v m !! k' = Some v' ->
  m !! k' = Some v' \/ (k' = k /\ v' = v /\ m !! k = None).
Proof.
  unfold std_map_insert. destruct (m !! k) eqn:Ek; [tauto|].
  destruct (decide (k = k')) as [<-|Hne].
  - rewrite lookup_insert_eq. intros [= <-]. right. auto.
  - rewrite lookup_insert_ne by exact Hne. tauto.
Qed.

(** The name a new manager is created for: the package name, or for an
    empty name the first package of the calling uid if there is one. *)
Definition resolved_name (c : Caller) (packageName : string) : string :=
  if (String.length packageName =? 0)%nat then
    match permission c with
    | Some getPackagesForUid =>
        match getPackagesForUid (getCallingUid c) with
        | first :: _ => first
        | [] => packageName
        end
    | None => packageName
    end
  else packageName.

(** What a call that has to create a manager does, in one equation. *)
Lemma getInstanceForPackage_create flag w c name p ptr p' :
  (forall q m, sPackageInstances p !! name = Some q ->
               objects p !! q = Some m ->
               SensorManager.mDeviceId m <> getDeviceIdForUid c (getCallingUid c)) ->
  (forall q, sPackageInstances p !! name = Some q -> is_Some (objects p !! q)) ->
  getInstanceForPackage flag w c name p = Ret (ptr, p') ->
  exists m b0 b1,
    SensorManager.construct flag w b0 (resolved_name c name)
      (getDeviceIdForUid c (getCallingUid c)) = Ret (m, b1) /\
    ptr = nextObject p /\
    p' = mkProcess
           (std_map_insert (resolved_name c name) ptr
              (if (String.length name =? 0)%nat
               then std_map_insert EmptyString ptr (sPackageInstances p)
               else sPackageInstances p))
           (<[ptr := m]> (objects p)) (S (nextObject p)) b1 (freed p).
Proof.
  intros Hdev Hlive. unfold getInstanceForPackage.
  destruct (waitForSensorService w false (calls (binder p))) as [[st wr] k].
  fold (resolved_name c name).
  set (b0 := mkBinder k (deathLinks (binder p))).
  assert (Hcreate :
    obind (SensorManager.construct flag w b0 (resolved_name c name)
             (getDeviceIdForUid c (getCallingUid c)))
      (fun '(m, b1) =>
         Ret (nextObject p,
              mkProcess
                (std_map_insert (resolved_name c name) (nextObject p)
                   (if (String.length name =? 0)%nat
                    then std_map_insert EmptyString (nextObject p)
                           (sPackageInstances p)
                    else sPackageInstances p))
                (<[nextObject p := m]> (objects p)) (S (nextObject p)) b1
                (freed p)))
    = Ret (ptr, p') ->
    exists m b0 b1,
      SensorManager.construct flag w b0 (resolved_name c name)
        (getDeviceIdForUid c (getCallingUid c)) = Ret (m, b1) /\
      ptr = nextObject p /\
      p' = mkProcess
             (std_map_insert (resolved_name c name) ptr
                (if (String.length name =? 0)%nat
                 then std_map_insert EmptyString ptr (sPackageInstances p)
                 else sPackageInstances p))
             (<[ptr := m]> (objects p)) (S (nextObject p)) b1 (freed p)).
  { unfold obind.
    destruct (SensorManager.construct flag w b0 _ _) as [|[m b1]] eqn:Ec;
      [discriminate|].
    intros [= <- <-]. exists m, b0, b1. auto. }
  destruct (sPackageInstances p !! name) as [q|] eqn:Hreg; [|exact Hcreate].
  destruct (Hlive q eq_refl) as [m0 Hm0]. rewrite Hm0.
  specialize (Hdev q m0 eq_refl Hm0). apply Z.eqb_neq in Hdev. rewrite Hdev.
  exact Hcreate.
Qed.

Lemma registry_after_create p ptr m R name :
  registry_ok p -> ptr = nextObject p ->
  SensorManager.mOpPackageName m = R ->
  registry_ok
    (mkProcess
       (std_map_insert R ptr
          (if (String.length name =? 0)%nat
           then std_map_insert EmptyString ptr (sPackageInstances p)
           else sPackageInstances p))
       (<[ptr := m]> (objects p)) (S (nextObject p)) (binder p) (freed p)).
Proof.
  intros [Hlive Hnamed Halloc] -> HR.
  assert (Hold : forall n q, sPackageInstances p !! n = Some q ->
                             (q < nextObject p)%nat).
  { intros n q Hq. apply Halloc, (Hlive n q Hq). }
  assert (Hentry : forall n q,
    std_map_insert R (nextObject p)
      (if (String.length name =? 0)%nat
       then std_map_insert EmptyString (nextObject p) (sPackageInstances p)
       else sPackageInstances p) !! n = Some q ->
    sPackageInstances p !! n = Some q \/
    (q = nextObject p /\ (n = R \/ n = EmptyString))).
  { intros n q Hq. apply std_map_insert_lookup in Hq as [Hq|(-> & -> & _)];
      [|right; auto].
    destruct (String.length name =? 0)%nat; [|left; exact Hq].
    apply std_map_insert_lookup in Hq as [Hq|(-> & -> & _)]; [left|right]; auto. }
  constructor; cbn.
  - intros n q Hq. apply Hentry in Hq as [Hq|(-> & _)].
    + rewrite lookup_insert_ne by (apply Hold in Hq; lia). apply (Hlive n q Hq).
    + rewrite lookup_insert_eq. eauto.
  - intros n q m' Hn Hq Hm'. apply Hentry in Hq as [Hq|(-> & [->| ->])].
    + rewrite lookup_insert_ne in Hm' by (apply Hold in Hq; lia).
      apply (Hnamed n q m' Hn Hq Hm').
    + rewrite lookup_insert_eq in Hm'. injection Hm' as <-. exact HR.
    + discriminate.
  - intros q [m' Hq]. destruct (decide (nextObject p = q)) as [<-|Hne]; [lia|].
    rewrite lookup_insert_ne in Hq by exact Hne.
    pose proof (Halloc q (ex_intro _ m' Hq)). lia.
Qed.

Lemma getInstanceForPackage_registry flag w c name p ptr p' :
  registry_ok p ->
  getInstanceForPackage flag w c name p = Ret (ptr, p') ->
  registry_ok p' /\
  (exists m, objects p' !! ptr = Some m /\
             SensorManager.mDeviceId m = getDeviceIdForUid c (getCallingUid c) /\
             ((String.length name =? 0)%nat = false ->
              SensorManager.mOpPackageName m = name)) /\
  (forall q m0, objects p !! q = Some m0 -> objects p' !! q = Some m0).
Proof.
  intros Hok Hcall.
  assert (Hcached : forall q m0,
             sPackageInstances p !! name = Some q -> objects p !! q = Some m0 ->
             SensorManager.mDeviceId m0 = getDeviceIdForUid c (getCallingUid c) ->
             ptr = q /\ sPackageInstances p' = sPackageInstances p /\
             objects p' = objects p /\ nextObject p' = nextObject p).
  { intros q m0 Hq Hm0 Hd. unfold getInstanceForPackage in Hcall.
    destruct (waitForSensorService w false (calls (binder p))) as [[st wr] k].
    rewrite Hq, Hm0, Hd, Z.eqb_refl in Hcall. injection Hcall as <- <-. auto. }
  destruct (sPackageInstances p !! name) as [q|] eqn:Hreg.
  - destruct (entries_live p Hok name q Hreg) as [m0 Hm0].
    destruct (decide (SensorManager.mDeviceId m0
                      = getDeviceIdForUid c (getCallingUid c))) as [Hd|Hd].
    + destruct (Hcached q m0 eq_refl Hm0 Hd) as (-> & Hr & Ho & Hn).
      split; [|split].
      * destruct Hok as [Hlive Hnamed Halloc].
        constructor; rewrite ?Hr, ?Ho, ?Hn; assumption.
      * exists m0. rewrite Ho. split; [exact Hm0|]. split; [exact Hd|].
        intros Hne. apply (entries_named p Hok name q m0 Hne Hreg Hm0).
      * intros q0 m1. rewrite Ho. auto.
    + destruct (getInstanceForPackage_create flag w c name p ptr p')
        as (m & b0 & b1 & Hc & Hptr & ->).
      * intros q0 m1. rewrite Hreg. intros [= <-]. rewrite Hm0.
        intros [= <-]. exact Hd.
      * intros q0. rewrite Hreg. intros [= <-]. eauto.
      * exact Hcall.
      * apply construct_fields in Hc as (Hop & Hdev).
        split; [|split].
        -- pose proof (registry_after_create p ptr m _ name Hok Hptr Hop) as H.
           destruct H as [H1 H2 H3]. constructor; assumption.
        -- exists m. cbn. rewrite lookup_insert_eq. split; [reflexivity|].
           split; [exact Hdev|]. intros Hne. rewrite Hop.
           unfold resolved_name. rewrite Hne. reflexivity.
        -- intros q0 m1 Hq0. cbn. rewrite lookup_insert_ne; [exact Hq0|].
           pose proof (objects_allocated p Hok q0 (ex_intro _ m1 Hq0)). lia.
  - destruct (getInstanceForPackage_create flag w c name p ptr p')
      as (m & b0 & b1 & Hc & Hptr & ->).
    + intros q0 m1. rewrite Hreg. discriminate.
    + intros q0. rewrite Hreg. discriminate.
    + exact Hcall.
    + apply construct_fields in Hc as (Hop & Hdev).
      split; [|split].
      * pose proof (registry_after_create p ptr m _ name Hok Hptr Hop) as H.
        destruct H as [H1 H2 H3]. constructor; assumption.
      * exists m. cbn. rewrite lookup_insert_eq. split; [reflexivity|].
        split; [exact Hdev|]. intros Hne. rewrite Hop.
        unfold resolved_name. rewrite Hne. reflexivity.
      * intros q0 m1 Hq0. cbn. rewrite lookup_insert_ne; [exact Hq0|].
        pose proof (objects_allocated p Hok q0 (ex_intro _ m1 Hq0)). lia.
Qed.

(** X6: on a sound registry, a call that returns hands out a live manager
    built for the caller's current device and, for a non-empty package
    name, for that package; it deletes or overwrites no object and leaves
    the registry sound. *)
Theorem getInstanceForPackage_sound flag w c name p ptr p' :
  registry_ok p ->
  getInstanceForPackage flag w c name p = Ret (ptr, p') ->
  registry_ok p' /\
  (exists m, objects p' !! ptr = Some m /\
             SensorManager.mDeviceId m = getDeviceIdForUid c (getCallingUid c) /\
             ((String.length name =? 0)%nat = false ->
              SensorManager.mOpPackageName m = name)) /\
  (forall q m0, objects p !! q = Some m0 -> objects p' !! q = Some m0).
Proof.
  apply getInstanceForPackage_registry.
Qed.

Lemma registry_ok_empty : registry_ok process0.
Proof.
  constructor; cbn.
  - intros name ptr H. rewrite lookup_empty in H. discriminate.
  - intros name ptr m _ H. rewrite lookup_empty in H. discriminate.
  - intros ptr [m H]. rewrite lookup_empty in H. discriminate.
Qed.

(** The process after one call on the default device. *)
Definition process_after_first_call : Process :=
  match getInstanceForPackage true steady_world caller_on_default_device
          "com.example" process0 with
  | Ret (_, p) => p
  | Fatal => process0
  end.

Lemma getInstanceForPackage_sound_witness :
  exists m,
    objects process_after_first_call !! 0%nat = Some m /\
    SensorManager.mDeviceId m = 0 /\
    SensorManager.mOpPackageName m = "com.example"%string.
Proof.
  destruct (getInstanceForPackage_sound true steady_world
              caller_on_default_device "com.example" process0 0%nat
              process_after_first_call registry_ok_empty)
    as (_ & (m & Hm & Hd & Hn) & _).
  - vm_compute. reflexivity.
  - exists m. split; [exact Hm|]. split; [exact Hd|]. apply Hn. reflexivity.
Defined.

(** A series of calls, each with its own caller and package name; the
    result lists the instances returned. *)
Fixpoint getInstances (flag : bool) (w : World) (reqs : list (Caller * string))
    (p : Process) : Outcome (list nat * Process) :=
  match reqs with
  | [] => Ret ([], p)
  | (c, name) :: rest =>
      obind (getInstanceForPackage flag w c name p) (fun '(ptr, p1) =>
        obind (getInstances flag w rest p1) (fun '(ptrs, p2) =>
          Ret (ptr :: ptrs, p2)))
  end.

(** X7: [getInstanceForPackage] never frees a manager.  After any series
    of calls on a sound registry, every instance that was returned is
    still allocated, including those the registry does not hold, and the
    registry is still sound. *)
Theorem getInstances_never_free flag w reqs p ptrs p' :
  registry_ok p ->
  getInstances flag w reqs p = Ret (ptrs, p') ->
  registry_ok p' /\
  (forall q m0, objects p !! q = Some m0 -> objects p' !! q = Some m0) /\
  Forall (fun ptr => is_Some (objects p' !! ptr)) ptrs.
Proof.
  revert p ptrs. induction reqs as [|[c name] rest IH]; intros p ptrs Hok; cbn.
  - intros [= <- <-]. split; [exact Hok|]. split; [auto | constructor].
  - unfold obind.
    destruct (getInstanceForPackage flag w c name p) as [|[ptr p1]] eqn:E1;
      [discriminate|].
    destruct (getInstances flag w rest p1) as [|[ptrs1 p2]] eqn:E2;
      [discriminate|].
    intros [= <- <-].
    destruct (getInstanceForPackage_registry flag w c name p ptr p1 Hok E1)
      as (Hok1 & (m & Hm & _) & Hkeep1).
    destruct (IH p1 ptrs1 Hok1 E2) as (Hok2 & Hkeep2 & Hall).
    split; [exact Hok2|]. split.
    + intros q m0 Hq. apply Hkeep2, Hkeep1, Hq.
    + constructor; [|exact Hall]. exists m. apply Hkeep2, Hm.
Qed.

Lemma getInstances_never_free_witness :
  exists ptrs p',
    getInstances true steady_world
      [(caller_on_default_device, "com.example"%string);
       (caller_on_virtual_device, "com.example"%string);
       (caller_on_virtual_device, "com.example"%string)] process0
    = Ret (ptrs, p') /\
    Forall (fun ptr => is_Some (objects p' !! ptr)) ptrs.
Proof.
  destruct (getInstances true steady_world
              [(caller_on_default_device, "com.example"%string);
               (caller_on_virtual_device, "com.example"%string);
               (caller_on_virtual_device, "com.example"%string)] process0)
    as [|[ptrs p']] eqn:E.
  - exfalso. vm_compute in E. discriminate.
  - exists ptrs, p'. split; [reflexivity|].
    apply (getInstances_never_free _ _ _ _ _ _ registry_ok_empty E).
Defined.

(** X8: insert then look up.  When a non-empty package name is not
    registered yet, the call that creates its manager and the next call
    for the same name from the same caller, whatever the service does in
    between, return the same instance, and the second call changes
    neither the registry nor the objects. *)
Theorem getInstanceForPackage_twice flag w w2 c name p ptr p1 :
  sPackageInstances p !! name = None ->
  (String.length name =? 0)%nat = false ->
  getInstanceForPackage flag w c name p = Ret (ptr, p1) ->
  exists p2,
    getInstanceForPackage flag w2 c name p1 = Ret (ptr, p2) /\
    sPackageInstances p2 = sPackageInstances p1 /\ objects p2 = objects p1.
Proof.
  intros Hreg Hne Hcall.
  pose proof (getInstanceForPackage_fresh_name _ _ _ _ _ _ _ Hreg Hne Hcall) as Hin.
  destruct (getInstanceForPackage_create flag w c name p ptr p1)
    as (m & b0 & b1 & Hc & Hptr & Hp1).
  - intros q m0. rewrite Hreg. discriminate.
  - intros q. rewrite Hreg. discriminate.
  - exact Hcall.
  - apply construct_fields in Hc as (_ & Hdev).
    apply (getInstanceForPackage_cached flag w2 c name p1 ptr m Hin).
    + rewrite Hp1. cbn. apply lookup_insert_eq.
    + exact Hdev.
Qed.

Lemma getInstanceForPackage_twice_witness :
  exists p2,
    getInstanceForPackage true restart_world caller_on_default_device
      "com.example" process_after_first_call = Ret (0%nat, p2) /\
    sPackageInstances p2 = sPackageInstances process_after_first_call /\
    objects p2 = objects process_after_first_call.
Proof.
  apply (getInstanceForPackage_twice true steady_world restart_world
           caller_on_default_device "com.example" process0).
  - reflexivity.
  - reflexivity.
  - vm_compute. reflexivity.
Defined.

Lemma getInstanceForPackage_alias flag w c p ptr p1 :
  sPackageInstances p !! EmptyString = None ->
  sPackageInstances p !! resolved_name c EmptyString = None ->
  getInstanceForPackage flag w c EmptyString p = Ret (ptr, p1) ->
  sPackageInstances p1 !! EmptyString = Some ptr /\
  sPackageInstances p1 !! resolved_name c EmptyString = Some ptr /\
  is_Some (objects p1 !! ptr).
Proof.
  intros He Hr Hcall.
  destruct (getInstanceForPackage_create flag w c EmptyString p ptr p1)
    as (m & b0 & b1 & _ & _ & ->).
  - intros q m0. rewrite He. discriminate.
  - intros q. rewrite He. discriminate.
  - exact Hcall.
  - cbn [sPackageInstances objects String.length Nat.eqb].
    set (R := resolved_name c EmptyString) in *.
    assert (H1 : std_map_insert EmptyString ptr (sPackageInstances p)
                 !! EmptyString = Some ptr)
      by (apply std_map_insert_absent, He).
    split; [|split].
    + destruct (decide (R = EmptyString)) as [HR|HR].
      * rewrite HR. rewrite (std_map_insert_present _ _ _ _ H1). exact H1.
      * unfold std_map_insert at 1.
        destruct (std_map_insert EmptyString ptr (sPackageInstances p) !! R);
          [exact H1|].
        rewrite lookup_insert_ne by exact HR. exact H1.
    + destruct (decide (R = EmptyString)) as [HR|HR].
      * rewrite HR. rewrite (std_map_insert_present _ _ _ _ H1). exact H1.
      * apply std_map_insert_absent.
        unfold std_map_insert. rewrite He.
        rewrite lookup_insert_ne by congruence. exact Hr.
    + rewrite lookup_insert_eq. eauto.
Qed.

(** X9: a call with an empty package name, when neither the empty name
    nor the first package of the calling uid is registered, registers the
    new manager under both names. *)
Theorem getInstanceForPackage_empty_name flag w c p ptr p1 :
  sPackageInstances p !! EmptyString = None ->
  sPackageInstances p !! resolved_name c EmptyString = None ->
  getInstanceForPackage flag w c EmptyString p = Ret (ptr, p1) ->
  sPackageInstances p1 !! EmptyString = Some ptr /\
  sPackageInstances p1 !! resolved_name c EmptyString = Some ptr /\
  is_Some (objects p1 !! ptr).
Proof.
  apply getInstanceForPackage_alias.
Qed.

Definition caller_without_name : Caller :=
  mkCaller 10001 None (Some (fun _ => ["com.example"%string])).

Definition process_after_empty_name : Process :=
  match getInstanceForPackage true steady_world caller_without_name
          EmptyString process0 with
  | Ret (_, p) => p
  | Fatal => process0
  end.

Lemma getInstanceForPackage_empty_name_witness :
  sPackageInstances process_after_empty_name !! EmptyString = Some 0%nat /\
  sPackageInstances process_after_empty_name !! "com.example"%string
  = Some 0%nat.
Proof.
  destruct (getInstanceForPackage_empty_name true steady_world
              caller_without_name process0 0%nat process_after_empty_name)
    as (H1 & H2 & _).
  - reflexivity.
  - reflexivity.
  - vm_compute. reflexivity.
  - split; [exact H1 | exact H2].
Defined.

(** A registry entry that points to a deleted manager whose memory
    still holds the caller's device id is returned as it is. *)
Lemma getInstanceForPackage_dangling flag w c name p ptr m :
  sPackageInstances p !! name = Some ptr ->
  objects p !! ptr = None ->
  freed p !! ptr = Some m ->
  SensorManager.mDeviceId m = getDeviceIdForUid c (getCallingUid c) ->
  exists p',
    getInstanceForPackage flag w c name p = Ret (ptr, p') /\
    objects p' = objects p /\
    sPackageInstances p' = sPackageInstances p.
Proof.
  intros Hreg Hobj Hfreed Hdev. unfold getInstanceForPackage.
  destruct (waitForSensorService w false (calls (binder p))) as [[st wr] k].
  rewrite Hreg, Hobj, Hfreed, Hdev, Z.eqb_refl.
  eexists. split; [reflexivity|]. split; reflexivity.
Qed.

(** X10: [removeInstanceForPackage] erases one key only.  After a manager
    was registered under the empty name and under the resolved package
    name, removing the package deletes the manager but leaves the entry
    under the empty name pointing to it; the next call with an empty
    package name from a caller on the same device then returns that
    pointer to the deleted manager, without building a new one. *)
Theorem removeInstanceForPackage_leaves_alias flag w w2 c c2 p ptr p1 :
  sPackageInstances p !! EmptyString = None ->
  sPackageInstances p !! resolved_name c EmptyString = None ->
  resolved_name c EmptyString <> EmptyString ->
  getInstanceForPackage flag w c EmptyString p = Ret (ptr, p1) ->
  getDeviceIdForUid c2 (getCallingUid c2) = getDeviceIdForUid c (getCallingUid c) ->
  exists p2 p3,
    removeInstanceForPackage (resolved_name c EmptyString) p1 = Ret p2 /\
    sPackageInstances p2 !! resolved_name c EmptyString = None /\
    sPackageInstances p2 !! EmptyString = Some ptr /\
    objects p2 !! ptr = None /\
    getInstanceForPackage flag w2 c2 EmptyString p2 = Ret (ptr, p3) /\
    objects p3 = objects p2 /\
    sPackageInstances p3 = sPackageInstances p2.
Proof.
  intros He Hr HR Hcall Hsame.
  destruct (getInstanceForPackage_alias flag w c p ptr p1 He Hr Hcall)
    as (H1 & H2 & _).
  destruct (getInstanceForPackage_create flag w c EmptyString p ptr p1)
    as (m & b0 & b1 & Hc & Hptr & Hp1).
  { intros q m0. rewrite He. discriminate. }
  { intros q. rewrite He. discriminate. }
  { exact Hcall. }
  apply construct_fields in Hc as (_ & Hdev).
  assert (Hobj : objects p1 !! ptr = Some m).
  { rewrite Hp1. apply lookup_insert_eq. }
  set (R := resolved_name c EmptyString) in *.
  set (p2 := mkProcess (delete R (sPackageInstances p1))
               (delete ptr (objects p1)) (nextObject p1) (binder p1)
               (<[ptr := m]> (freed p1))).
  assert (Hrm : removeInstanceForPackage R p1 = Ret p2).
  { unfold removeInstanceForPackage. rewrite H2, Hobj. reflexivity. }
  assert (Halias : sPackageInstances p2 !! EmptyString = Some ptr).
  { unfold p2. cbn [sPackageInstances].
    rewrite lookup_delete_ne by exact HR. exact H1. }
  assert (Hgone : objects p2 !! ptr = None).
  { unfold p2. cbn [objects]. apply lookup_delete_eq. }
  assert (Hmem : freed p2 !! ptr = Some m).
  { unfold p2. cbn [freed]. apply lookup_insert_eq. }
  destruct (getInstanceForPackage_dangling flag w2 c2 EmptyString p2 ptr m
              Halias Hgone Hmem) as (p3 & Hget & Ho & Hi).
  { rewrite Hdev, Hsame. reflexivity. }
  exists p2, p3. split; [exact Hrm|].
  split; [unfold p2; cbn [sPackageInstances]; apply lookup_delete_eq|].
  split; [exact Halias|]. split; [exact Hgone|].
  split; [exact Hget|]. split; assumption.
Qed.

Lemma removeInstanceForPackage_leaves_alias_witness :
  exists p2 p3,
    removeInstanceForPackage "com.example" process_after_empty_name = Ret p2 /\
    getInstanceForPackage true steady_world caller_without_name EmptyString p2
    = Ret (0%nat, p3) /\
    objects p3 !! 0%nat = None.
Proof.
  destruct (removeInstanceForPackage_leaves_alias true steady_world
              steady_world caller_without_name caller_without_name process0
              0%nat process_after_empty_name)
    as (p2 & p3 & Hrm & _ & _ & Hgone & Hget & Hobjs & _).
  - reflexivity.
  - reflexivity.
  - discriminate.
  - vm_compute. reflexivity.
  - reflexivity.
  - exists p2, p3. split; [exact Hrm|]. split; [exact Hget|].
    rewrite Hobjs. exact Hgone.
Defined.

(** Every pointer in the registry was allocated: it points to a live
    manager or to the memory of a deleted one.  The two functions keep it
    so, which is why a registry lookup never meets an address that was
    never allocated. *)
Definition registry_tracked (p : Process) : Prop :=
  forall name ptr,
    sPackageInstances p !! name = Some ptr ->
    is_Some (objects p !! ptr) \/ is_Some (freed p !! ptr).

Lemma getInstanceForPackage_tracked flag w c name p ptr p' :
  registry_tracked p ->
  getInstanceForPackage flag w c name p = Ret (ptr, p') ->
  registry_tracked p'.
Proof.
  intros Ht. unfold getInstanceForPackage.
  destruct (waitForSensorService w false (calls (binder p))) as [[st wr] k].
  fold (resolved_name c name).
  set (b0 := mkBinder k (deathLinks (binder p))).
  assert (Hcreate :
    obind (SensorManager.construct flag w b0 (resolved_name c name)
             (getDeviceIdForUid c (getCallingUid c)))
      (fun '(m, b1) =>
         Ret (nextObject p,
              mkProcess
                (std_map_insert (resolved_name c name) (nextObject p)
                   (if (String.length name =? 0)%nat
                    then std_map_insert EmptyString (nextObject p)
                           (sPackageInstances p)
                    else sPackageInstances p))
                (<[nextObject p := m]> (objects p)) (S (nextObject p)) b1
                (freed p)))
    = Ret (ptr, p') -> registry_tracked p').
  { unfold obind.
    destruct (SensorManager.construct flag w b0 _ _) as [|[m b1]];
      [discriminate|].
    intros [= <- <-]. intros n q Hq. cbn in *.
    assert (Hnew : is_Some (<[nextObject p := m]> (objects p) !! nextObject p))
      by (rewrite lookup_insert_eq; eauto).
    assert (Hold : forall n0, sPackageInstances p !! n0 = Some q ->
              is_Some (<[nextObject p := m]> (objects p) !! q) \/
              is_Some (freed p !! q)).
    { intros n0 Hn0. destruct (decide (q = nextObject p)) as [->|Hne].
      - left. exact Hnew.
      - rewrite lookup_insert_ne by congruence. apply (Ht n0 q Hn0). }
    apply std_map_insert_lookup in Hq as [Hq|(_ & -> & _)]; [|left; exact Hnew].
    destruct (String.length name =? 0)%nat; [|apply (Hold n Hq)].
    apply std_map_insert_lookup in Hq as [Hq|(_ & -> & _)];
      [apply (Hold n Hq) | left; exact Hnew]. }
  assert (Hsame : forall b,
    registry_tracked
      (mkProcess (sPackageInstances p) (objects p) (nextObject p) b (freed p))).
  { intros b n q Hq. apply (Ht n q Hq). }
  destruct (sPackageInstances p !! name) as [q|]; [|exact Hcreate].
  destruct (objects p !! q) as [m|].
  - destruct (SensorManager.mDeviceId m =? _); [|exact Hcreate].
    intros [= <- <-]. apply Hsame.
  - destruct (freed p !! q) as [m|]; [|discriminate].
    destruct (SensorManager.mDeviceId m =? _); [|exact Hcreate].
    intros [= <- <-]. apply Hsame.
Qed.

Lemma removeInstanceForPackage_tracked name p p' :
  registry_tracked p ->
  removeInstanceForPackage name p = Ret p' ->
  registry_tracked p'.
Proof.
  intros Ht. unfold removeInstanceForPackage.
  destruct (sPackageInstances p !! name) as [q|] eqn:Hq.
  - destruct (objects p !! q) as [m|] eqn:Hm; [|discriminate].
    intros [= <-]. intros n q' Hn. cbn in *.
    apply lookup_delete_Some in Hn as (_ & Hn).
    destruct (decide (q' = q)) as [->|Hne].
    + right. rewrite lookup_insert_eq. eauto.
    + rewrite lookup_delete_ne, lookup_insert_ne by congruence.
      apply (Ht n q' Hn).
  - intros [= <-]. exact Ht.
Qed.

(** * Further properties of the manager's service state *)

(** While a connection is held, [mSensorList] holds one pointer per
    element of [mSensors], in order. *)
Definition lists_consistent (m : SensorManager.t) : Prop :=
  is_Some (SensorManager.mSensorServer m) ->
  SensorManager.mSensorList m
  = Some (seq 0 (length (SensorManager.mSensors m))).

(** [mDynamicSensorList], when it is not null, holds one pointer per
    element of [mDynamicSensors], of which there is at least one. *)
Definition dynamic_list_shape (m : SensorManager.t) : Prop :=
  match SensorManager.mDynamicSensorList m with
  | None => True
  | Some ptrs =>
      ptrs = seq 0 (length (SensorManager.mDynamicSensors m)) /\
      SensorManager.mDynamicSensors m <> []
  end.

Lemma assertStateLocked_result flag w b m st m' b' :
  lists_consistent m ->
  SensorManager.assertStateLocked flag w b m = Ret (st, m', b') ->
  st = NO_ERROR /\
  is_Some (SensorManager.mSensorServer m') /\
  SensorManager.mSensorList m'
  = Some (seq 0 (length (SensorManager.mSensors m'))) /\
  SensorManager.mDynamicSensorList m' = SensorManager.mDynamicSensorList m /\
  SensorManager.mDynamicSensors m' = SensorManager.mDynamicSensors m.
Proof.
  intros Hcons. unfold SensorManager.assertStateLocked.
  destruct (SensorManager.mSensorServer m) as [srv|] eqn:Es.
  - destruct (if flag then false else negb (status_eqb (pingBinder w srv) NO_ERROR)).
    + destruct (waitForSensorService w true (calls b)) as [[s0 written] k].
      destruct (match written with Some s => s | None => Some srv end);
        [|discriminate].
      intros [= <- <- <-]. cbn. repeat split. eauto.
    + intros [= <- <- <-]. rewrite Es. repeat split; [eauto|].
      apply Hcons. rewrite Es. eauto.
  - destruct (waitForSensorService w true (calls b)) as [[s0 written] k].
    destruct (match written with Some s => s | None => None end);
      [|discriminate].
    intros [= <- <- <-]. cbn. repeat split. eauto.
Qed.

(** X11: [assertStateLocked] never returns an error.  It aborts, or it
    returns [NO_ERROR] holding a connection, with the sensor array matching
    the sensor vector and the dynamic sensors untouched. *)
Theorem assertStateLocked_post flag w b m st m' b' :
  lists_consistent m ->
  SensorManager.assertStateLocked flag w b m = Ret (st, m', b') ->
  st = NO_ERROR /\
  is_Some (SensorManager.mSensorServer m') /\
  SensorManager.mSensorList m'
  = Some (seq 0 (length (SensorManager.mSensors m'))) /\
  SensorManager.mDynamicSensorList m' = SensorManager.mDynamicSensorList m /\
  SensorManager.mDynamicSensors m' = SensorManager.mDynamicSensors m.
Proof.
  apply assertStateLocked_result.
Qed.

Lemma assertStateLocked_post_witness :
  exists m' b',
    SensorManager.assertStateLocked true restart_world binder0
      (SensorManager.mk None None [] None [] false "pkg" 0 1 ∅ ∅)
    = Ret (NO_ERROR, m', b') /\
    is_Some (SensorManager.mSensorServer m').
Proof.
  destruct (SensorManager.assertStateLocked true restart_world binder0
              (SensorManager.mk None None [] None [] false "pkg" 0 1 ∅ ∅))
    as [|[[st m'] b']] eqn:E.
  - exfalso. vm_compute in E. discriminate.
  - assert (Hc : lists_consistent
                   (SensorManager.mk None None [] None [] false "pkg" 0 1 ∅ ∅)).
    { intros [x Hx]. discriminate. }
    destruct (assertStateLocked_post _ _ _ _ _ _ _ Hc E) as (-> & Hs & _).
    exists m', b'. split; [reflexivity | exact Hs].
Defined.

(** X12: with the ping variant ([flag = false]), when the ping of the
    held connection fails and the service cannot be found again, the
    manager does not abort: it keeps the old connection, links a new death
    observer to it and reloads the sensor list from it. *)
Theorem assertStateLocked_keeps_dead_connection w b m srv st k :
  SensorManager.mSensorServer m = Some srv ->
  pingBinder w srv <> NO_ERROR ->
  waitForSensorService w true (calls b) = (st, None, k) ->
  exists m',
    SensorManager.assertStateLocked false w b m
    = Ret (NO_ERROR, m', mkBinder k (ISensorServer.id srv :: deathLinks b)) /\
    SensorManager.mSensorServer m' = Some srv /\
    SensorManager.mSensors m'
    = (if SensorManager.mDeviceId m =? DEVICE_ID_DEFAULT
       then ISensorServer.getSensorList srv (SensorManager.mOpPackageName m)
       else ISensorServer.getRuntimeSensorList srv
              (SensorManager.mOpPackageName m) (SensorManager.mDeviceId m)).
Proof.
  intros Hs Hping Hwait. unfold SensorManager.assertStateLocked.
  rewrite Hs, Hwait.
  assert (Hneq : status_eqb (pingBinder w srv) NO_ERROR = false).
  { destruct (pingBinder w srv); try reflexivity. contradiction. }
  rewrite Hneq. cbn. eexists. repeat split.
Qed.

(** A connection that no longer answers the ping, and a service manager
    that has lost the service. *)
Definition lost_world : World :=
  mkWorld (fun _ => (NAME_NOT_FOUND, None)) (fun _ => OTHER_STATUS (-32)).

Lemma assertStateLocked_keeps_dead_connection_witness :
  exists m',
    SensorManager.assertStateLocked false lost_world binder0
      (SensorManager.mk (Some (service_with 0 sensor_accel)) (Some [0%nat])
         [sensor_accel] None [] true "pkg" 0 1 ∅ ∅)
    = Ret (NO_ERROR, m', mkBinder 60 [0%nat]) /\
    SensorManager.mSensorServer m' = Some (service_with 0 sensor_accel).
Proof.
  destruct (assertStateLocked_keeps_dead_connection lost_world binder0
              (SensorManager.mk (Some (service_with 0 sensor_accel))
                 (Some [0%nat]) [sensor_accel] None [] true "pkg" 0 1 ∅ ∅)
              (service_with 0 sensor_accel) TIMED_OUT 60%nat)
    as (m' & Ha & Hs & _).
  - reflexivity.
  - discriminate.
  - reflexivity.
  - exists m'. split; [exact Ha | exact Hs].
Defined.

Lemma evolves_lists m m' :
  evolves m m' ->
  lists_consistent m /\ dynamic_list_shape m ->
  lists_consistent m' /\ dynamic_list_shape m'.
Proof.
  induction 1 as [m | m m' _ IH | m m' flag w b st m'' b' _ IH Ha
                 | m m' flag w b malloc n m'' b' _ IH Hd | m m' h0 _ IH];
    intros H0.
  - exact H0.
  - split.
    + intros [x Hx]. discriminate.
    + reflexivity.
  - destruct (IH H0) as (Hc & Hsh).
    destruct (assertStateLocked_result _ _ _ _ _ _ _ Hc Ha)
      as (_ & _ & Hl & Hd1 & Hd2).
    split; [intros _; exact Hl|].
    unfold dynamic_list_shape in *. rewrite Hd1, Hd2. exact Hsh.
  - destruct (IH H0) as (Hc & Hsh).
    unfold SensorManager.getDynamicSensorList, obind in Hd.
    destruct (SensorManager.assertStateLocked flag w b m')
      as [|[[st m1] b1]] eqn:Ea; [discriminate|].
    destruct (assertStateLocked_result _ _ _ _ _ _ _ Hc Ea)
      as (-> & _ & Hl & Hd1 & Hd2).
    cbn [status_eqb negb] in Hd.
    destruct (SensorManager.mSensorServer m1); [|discriminate].
    destruct (0 <? _)%nat eqn:Ecount; [destruct (malloc _)|];
      injection Hd as _ <- _; (split; [intros _; cbn; exact Hl|]);
      unfold dynamic_list_shape; cbn; try exact I.
    split; [reflexivity|].
    intros Hnil. rewrite Hnil in Ecount. discriminate.
  - destruct (IH H0) as (Hc & Hsh).
    unfold SensorManager.getSensorNameByHandle.
    destruct (SensorManager.mSensorHandleToName m' !! h0); [split; assumption|].
    destruct (match SensorManager.findSensorNameInList h0 (SensorManager.mSensors m')
              with Some n => Some n | None => _ end); split; assumption.
Qed.

(** X13: for every manager the constructor has built, whatever happens to
    it afterwards (service death, re-initialisation, reloads of the dynamic
    sensors with or without memory for the array, name lookups): while it
    holds a connection its static sensor array is non-null with one pointer
    per sensor, also for zero sensors; its dynamic sensor array is null
    whenever there are no dynamic sensors, and when it is not null it has
    one pointer per dynamic sensor. *)
Theorem constructed_manager_lists flag w b op dev m0 b0 m :
  SensorManager.construct flag w b op dev = Ret (m0, b0) ->
  evolves m0 m ->
  (is_Some (SensorManager.mSensorServer m) ->
   SensorManager.mSensorList m
   = Some (seq 0 (length (SensorManager.mSensors m)))) /\
  (SensorManager.mDynamicSensors m = [] ->
   SensorManager.mDynamicSensorList m = None) /\
  (forall ptrs,
     SensorManager.mDynamicSensorList m = Some ptrs ->
     ptrs = seq 0 (length (SensorManager.mDynamicSensors m))).
Proof.
  intros Hc Hev.
  assert (H0 : lists_consistent m0 /\ dynamic_list_shape m0).
  { unfold SensorManager.construct, obind in Hc.
    destruct (SensorManager.assertStateLocked flag w b _)
      as [|[[st m1] b1]] eqn:Ea; [discriminate|].
    injection Hc as <- <-.
    assert (Hb : lists_consistent
                   (SensorManager.mk None None [] None [] false op dev 1 ∅ ∅)).
    { intros [x Hx]. discriminate. }
    destruct (assertStateLocked_result _ _ _ _ _ _ _ Hb Ea)
      as (_ & _ & Hl & Hd1 & Hd2).
    split; [intros _; exact Hl|].
    unfold dynamic_list_shape. rewrite Hd1. exact I. }
  destruct (evolves_lists m0 m Hev H0) as (Hl & Hsh).
  split; [exact Hl|].
  unfold dynamic_list_shape in Hsh.
  destruct (SensorManager.mDynamicSensorList m) as [ptrs|].
  - destruct Hsh as (Hp & Hne). split.
    + intros Hnil. contradiction.
    + intros ptrs' [= <-]. exact Hp.
  - split; [reflexivity | discriminate].
Qed.

(** A service with one dynamic sensor, always reachable. *)
Definition dynamic_world : World :=
  mkWorld (fun _ => (NO_ERROR,
                     Some (ISensorServer.mk 0 (fun _ => []) (fun _ _ => [])
                             (fun _ => [sensor_gyro]))))
          (fun _ => NO_ERROR).

(** The manager and binder state the constructor leaves there. *)
Definition dynamic_start : SensorManager.t * Binder :=
  match SensorManager.construct true dynamic_world binder0 "pkg" 0 with
  | Ret x => x
  | Fatal => (SensorManager.mk None None [] None [] false "pkg" 0 1 ∅ ∅, binder0)
  end.

(** The manager after a reload of the dynamic sensors that finds memory
    for the array, and after a second one that does not. *)
Definition reloaded_managers : SensorManager.t * SensorManager.t :=
  match SensorManager.getDynamicSensorList true dynamic_world
          (snd dynamic_start) (fst dynamic_start) (fun _ => true) with
  | Ret (_, m1, b1) =>
      match SensorManager.getDynamicSensorList true dynamic_world b1 m1
              (fun _ => false) with
      | Ret (_, m2, _) => (m1, m2)
      | Fatal => (m1, m1)
      end
  | Fatal => (fst dynamic_start, fst dynamic_start)
  end.

Lemma constructed_manager_lists_witness :
  SensorManager.mDynamicSensorList (fst reloaded_managers) = Some [0%nat] /\
  SensorManager.mSensorList (snd reloaded_managers) = Some [] /\
  SensorManager.mDynamicSensorList (snd reloaded_managers) = None /\
  SensorManager.mDynamicSensors (snd reloaded_managers) = [sensor_gyro].
Proof.
  assert (E0 : SensorManager.construct true dynamic_world binder0 "pkg" 0
               = Ret (fst dynamic_start, snd dynamic_start)) by reflexivity.
  assert (Hev1 : evolves (fst dynamic_start) (fst reloaded_managers)).
  { apply (evolves_dynamic _ (fst dynamic_start) true dynamic_world
             (snd dynamic_start) (fun _ => true) (inr 1)
             (fst reloaded_managers) (snd dynamic_start));
      [apply evolves_refl | reflexivity]. }
  assert (Hev2 : evolves (fst dynamic_start) (snd reloaded_managers)).
  { apply (evolves_dynamic _ (fst reloaded_managers) true dynamic_world
             (snd dynamic_start) (fun _ => false) (inl NO_MEMORY)
             (snd reloaded_managers) (snd dynamic_start));
      [exact Hev1 | reflexivity]. }
  destruct (constructed_manager_lists _ _ _ _ _ _ _ _ E0 Hev1) as (_ & _ & Hp1).
  destruct (constructed_manager_lists _ _ _ _ _ _ _ _ E0 Hev2) as (Hl2 & _ & _).
  split; [rewrite (Hp1 [0%nat] eq_refl); reflexivity|].
  split; [rewrite Hl2; [reflexivity | eexists; reflexivity]|].
  split; reflexivity.
Defined.

(** ** Queries *)
Module Queries.

(** [getSensorList(Sensor const* const** list)]: the count, or the error
    of [assertStateLocked], and the array stored through [list].  Every
    [status_t] other than [NO_ERROR] is negative. *)
Definition getSensorList (flag : bool) (w : World) (b : Binder)
    (m : SensorManager.t)
  : Outcome ((status_t + Z * option (list nat)) * SensorManager.t * Binder) :=
  obind (SensorManager.assertStateLocked flag w b m) (fun '(err, m1, b1) =>
    if status_eqb err NO_ERROR
    then Ret (inr (Z.of_nat (length (SensorManager.mSensors m1)),
                   SensorManager.mSensorList m1), m1, b1)
    else Ret (inl err, m1, b1)).

End Queries.

(** X14: on a manager whose array matches its vector, [getSensorList]
    that returns never reports an error and never hands out a null array:
    the count is the number of sensors and the array has exactly that many
    pointers, the [i]-th to the [i]-th sensor. *)
Theorem getSensorList_array flag w b m r m' b' :
  lists_consistent m ->
  Queries.getSensorList flag w b m = Ret (r, m', b') ->
  exists ptrs,
    r = inr (Z.of_nat (length ptrs), Some ptrs) /\
    length ptrs = length (SensorManager.mSensors m') /\
    forall i, (i < length ptrs)%nat -> ptrs !! i = Some i.
Proof.
  intros Hc. unfold Queries.getSensorList, obind.
  destruct (SensorManager.assertStateLocked flag w b m)
    as [|[[st m1] b1]] eqn:Ea; [discriminate|].
  destruct (assertStateLocked_result _ _ _ _ _ _ _ Hc Ea) as (-> & _ & Hl & _).
  cbn. intros [= <- <- <-].
  exists (seq 0 (length (SensorManager.mSensors m1))).
  rewrite Hl, length_seq. split; [reflexivity|]. split; [reflexivity|].
  intros i Hi. apply lookup_seq. lia.
Qed.

Lemma getSensorList_array_witness :
  exists m' b',
    Queries.getSensorList true steady_world binder0
      (SensorManager.mk None None [] None [] false "pkg" 0 1 ∅ ∅)
    = Ret (inr (0, Some []), m', b').
Proof.
  destruct (Queries.getSensorList true steady_world binder0
              (SensorManager.mk None None [] None [] false "pkg" 0 1 ∅ ∅))
    as [|[[r m'] b']] eqn:E.
  - exfalso. vm_compute in E. discriminate.
  - assert (Hc : lists_consistent
                   (SensorManager.mk None None [] None [] false "pkg" 0 1 ∅ ∅)).
    { intros [x Hx]. discriminate. }
    assert (Hm : SensorManager.mSensors m' = []).
    { pose proof E as E2. vm_compute in E2. injection E2 as _ Hm _.
      rewrite <- Hm. reflexivity. }
    destruct (getSensorList_array _ _ _ _ _ _ _ Hc E) as (ptrs & -> & Hlen & _).
    exists m', b'.
    rewrite Hm in Hlen. destruct ptrs; [reflexivity | discriminate].
Defined.

(** X15: [getSensorNameByHandle] does not re-establish state.  After the
    service has died, a handle that was not looked up before has no name,
    whatever sensors the manager knew, and the failed lookup leaves the
    manager as it is. *)
Theorem getSensorNameByHandle_after_death (h : Z) (m : SensorManager.t) :
  SensorManager.mSensorHandleToName m !! h = None ->
  SensorManager.getSensorNameByHandle h (SensorManager.sensorManagerDied m)
  = (None, SensorManager.sensorManagerDied m).
Proof.
  intros Hmiss. unfold SensorManager.getSensorNameByHandle.
  cbn. rewrite Hmiss. reflexivity.
Qed.

Lemma getSensorNameByHandle_after_death_witness :
  SensorManager.getSensorNameByHandle 1
    (SensorManager.sensorManagerDied
       (SensorManager.mk None None [sensor_accel] None [] false "pkg" 0 1 ∅ ∅))
  = (None,
     SensorManager.sensorManagerDied
       (SensorManager.mk None None [sensor_accel] None [] false "pkg" 0 1 ∅ ∅)).
Proof.
  apply (getSensorNameByHandle_after_death 1). reflexivity.
Defined.

(** ** [getDefaultSensor] *)
Section DefaultSensor.

(** The sensor type codes of [sensors.h] the function names. *)
Variables SENSOR_TYPE_PROXIMITY SENSOR_TYPE_SIGNIFICANT_MOTION
  SENSOR_TYPE_TILT_DETECTOR SENSOR_TYPE_WAKE_GESTURE
  SENSOR_TYPE_GLANCE_GESTURE SENSOR_TYPE_PICK_UP_GESTURE
  SENSOR_TYPE_WRIST_TILT_GESTURE SENSOR_TYPE_LOW_LATENCY_OFFBODY_DETECT
  SENSOR_TYPE_HINGE_ANGLE : Z.

(** The value of the local [wakeUpSensor]. *)
Definition wakeUpSensor (type : Z) : bool :=
  (type =? SENSOR_TYPE_PROXIMITY) || (type =? SENSOR_TYPE_SIGNIFICANT_MOTION) ||
  (type =? SENSOR_TYPE_TILT_DETECTOR) || (type =? SENSOR_TYPE_WAKE_GESTURE) ||
  (type =? SENSOR_TYPE_GLANCE_GESTURE) || (type =? SENSOR_TYPE_PICK_UP_GESTURE) ||
  (type =? SENSOR_TYPE_WRIST_TILT_GESTURE) ||
  (type =? SENSOR_TYPE_LOW_LATENCY_OFFBODY_DETECT) ||
  (type =? SENSOR_TYPE_HINGE_ANGLE).

(** The [for (size_t i = 0; i < mSensors.size(); i++)] loop from index [i]
    with [remaining] iterations left.  The result is the pointer returned,
    or null.  Reading [mSensorList[i]] outside the array, or through a
    pointer outside [mSensors], has no defined behaviour: the model stops
    there with [Fatal]. *)
Fixpoint getDefaultSensor_loop (mSensorList : list nat) (mSensors : list Sensor)
    (type : Z) (wake : bool) (i remaining : nat) : Outcome (option nat) :=
  match remaining with
  | O => Ret None
  | S remaining' =>
      match mSensorList !! i with
      | None => Fatal
      | Some ptr =>
          match mSensors !! ptr with
          | None => Fatal
          | Some s =>
              if (getType s =? type) && Bool.eqb (isWakeUpSensor s) wake
              then Ret (Some ptr)
              else getDefaultSensor_loop mSensorList mSensors type wake
                     (S i) remaining'
          end
      end
  end.

Definition getDefaultSensor (flag : bool) (w : World) (b : Binder)
    (m : SensorManager.t) (type : Z)
  : Outcome (option nat * SensorManager.t * Binder) :=
  obind (SensorManager.assertStateLocked flag w b m) (fun '(err, m1, b1) =>
    if status_eqb err NO_ERROR
    then
      obind (getDefaultSensor_loop
               (match SensorManager.mSensorList m1 with
                | Some ptrs => ptrs | None => [] end)
               (SensorManager.mSensors m1) type (wakeUpSensor type)
               0 (length (SensorManager.mSensors m1)))
            (fun r => Ret (r, m1, b1))
    else Ret (None, m1, b1)).

Lemma getDefaultSensor_loop_spec (sensors : list Sensor) type wake :
  forall remaining i,
    (i + remaining = length sensors)%nat ->
    exists r,
      getDefaultSensor_loop (seq 0 (length sensors)) sensors type wake
        i remaining = Ret r /\
      match r with
      | Some ptr =>
          (i <= ptr)%nat /\
          (exists s, sensors !! ptr = Some s /\
                     getType s = type /\ isWakeUpSensor s = wake) /\
          forall j s, (i <= j < ptr)%nat -> sensors !! j = Some s ->
                      ~ (getType s = type /\ isWakeUpSensor s = wake)
      | None =>
          forall j s, (i <= j)%nat -> sensors !! j = Some s ->
                      ~ (getType s = type /\ isWakeUpSensor s = wake)
      end.
Proof.
  induction remaining as [|remaining IH]; intros i Hi.
  - exists None. split; [reflexivity|].
    intros j s Hj Hs. apply lookup_lt_Some in Hs. lia.
  - cbn [getDefaultSensor_loop].
    assert (Hlt : (i < length sensors)%nat) by lia.
    rewrite (lookup_seq_lt 0 (length sensors) i Hlt). cbn [Nat.add].
    destruct (lookup_lt_is_Some_2 sensors i Hlt) as [s Hs]. rewrite Hs.
    destruct ((getType s =? type) && Bool.eqb (isWakeUpSensor s) wake) eqn:Em.
    + apply andb_true_iff in Em as (Ht & Hw).
      apply Z.eqb_eq in Ht. apply Bool.eqb_prop in Hw.
      exists (Some i). split; [reflexivity|].
      split; [lia|]. split; [eauto|]. intros j s' Hj. lia.
    + destruct (IH (S i)) as (r & Hr & Hspec); [lia|].
      exists r. split; [exact Hr|].
      assert (Hno : ~ (getType s = type /\ isWakeUpSensor s = wake)).
      { intros (Ht & Hw). apply andb_false_iff in Em as [Em|Em].
        - apply Z.eqb_neq in Em. contradiction.
        - rewrite Hw in Em. rewrite Bool.eqb_reflx in Em. discriminate. }
      destruct r as [ptr|].
      * destruct Hspec as (Hle & Hs' & Hbefore).
        split; [lia|]. split; [exact Hs'|].
        intros j s' Hj Hjs. destruct (decide (j = i)) as [->|Hne].
        -- rewrite Hs in Hjs. injection Hjs as <-. exact Hno.
        -- apply (Hbefore j s'); [lia | exact Hjs].
      * intros j s' Hj Hjs. destruct (decide (j = i)) as [->|Hne].
        -- rewrite Hs in Hjs. injection Hjs as <-. exact Hno.
        -- apply (Hspec j s'); [lia | exact Hjs].
Qed.

(** X16: on a manager whose array matches its vector, once the state is
    established [getDefaultSensor] returns without reading outside the
    array.  A non-null result points to the first sensor of the requested
    type whose wake-up flag is the one the type asks for; the result is
    null exactly when no sensor has that type and that flag, also when a
    sensor of the type with the other flag exists. *)
Theorem getDefaultSensor_first_match flag w b m type st m1 b1 :
  lists_consistent m ->
  SensorManager.assertStateLocked flag w b m = Ret (st, m1, b1) ->
  exists r,
    getDefaultSensor flag w b m type = Ret (r, m1, b1) /\
    match r with
    | Some ptr =>
        (exists s, SensorManager.mSensors m1 !! ptr = Some s /\
                   getType s = type /\
                   isWakeUpSensor s = wakeUpSensor type) /\
        forall j s, (j < ptr)%nat -> SensorManager.mSensors m1 !! j = Some s ->
                    ~ (getType s = type /\ isWakeUpSensor s = wakeUpSensor type)
    | None =>
        forall s, s ∈ SensorManager.mSensors m1 ->
                  ~ (getType s = type /\ isWakeUpSensor s = wakeUpSensor type)
    end.
Proof.
  intros Hc Ha.
  destruct (assertStateLocked_result _ _ _ _ _ _ _ Hc Ha) as (-> & _ & Hl & _).
  unfold getDefaultSensor. rewrite Ha. cbn [obind status_eqb].
  rewrite Hl.
  destruct (getDefaultSensor_loop_spec (SensorManager.mSensors m1) type
              (wakeUpSensor type) (length (SensorManager.mSensors m1)) 0%nat)
    as (r & Hr & Hspec); [lia|].
  rewrite Hr. exists r. split; [reflexivity|].
  destruct r as [ptr|].
  - destruct Hspec as (_ & Hs & Hbefore). split; [exact Hs|].
    intros j s Hj. apply Hbefore. lia.
  - intros s Hin. apply list_elem_of_lookup in Hin as [j Hj].
    apply (Hspec j s); [lia | exact Hj].
Qed.

End DefaultSensor.

Definition sensor_proximity : Sensor := mkSensor 2 "prox" "P" 8 false.
Definition sensor_proximity_wake : Sensor := mkSensor 3 "prox" "PW" 8 true.

(** A service with a non-wake-up and a wake-up proximity sensor. *)
Definition proximity_world : World :=
  mkWorld (fun _ => (NO_ERROR,
                     Some (ISensorServer.mk 0
                             (fun _ => [sensor_proximity; sensor_proximity_wake])
                             (fun _ _ => []) (fun _ => []))))
          (fun _ => NO_ERROR).

Lemma getDefaultSensor_first_match_witness :
  exists m1 b1,
    getDefaultSensor 8 17 22 23 24 25 26 34 36 true proximity_world binder0
      (SensorManager.mk None None [] None [] false "pkg" 0 1 ∅ ∅) 8
    = Ret (Some 1%nat, m1, b1).
Proof.
  destruct (SensorManager.assertStateLocked true proximity_world binder0
              (SensorManager.mk None None [] None [] false "pkg" 0 1 ∅ ∅))
    as [|[[st m1] b1]] eqn:E.
  - exfalso. vm_compute in E. discriminate.
  - assert (Hc : lists_consistent
                   (SensorManager.mk None None [] None [] false "pkg" 0 1 ∅ ∅)).
    { intros [x Hx]. discriminate. }
    destruct (getDefaultSensor_first_match 8 17 22 23 24 25 26 34 36
                _ _ _ _ 8 _ _ _ Hc E) as (r & Hr & _).
    exists m1, b1. rewrite Hr.
    pose proof Hr as Hr2. vm_compute in E. injection E as _ <- <-.
    vm_compute in Hr2. injection Hr2 as <-. reflexivity.
Defined.

(** ** Direct channels *)

Definition INT32_MAX : Z := 2 ^ 31 - 1.

(** Two's complement wrap-around of an [int]. *)
Definition wrap32 (z : Z) : Z := (z + 2 ^ 31) mod 2 ^ 32 - 2 ^ 31.

(** [std::unordered_map::emplace]: an existing key keeps its value. *)
Definition emplace (k : Z) (v : nat) (m : gmap Z nat) : gmap Z nat :=
  match m !! k with
  | Some _ => m
  | None => <[k := v]> m
  end.

Definition with_direct (m : SensorManager.t) (handle : Z)
    (table : gmap Z nat) : SensorManager.t :=
  SensorManager.mk (SensorManager.mSensorServer m) (SensorManager.mSensorList m)
    (SensorManager.mSensors m) (SensorManager.mDynamicSensorList m)
    (SensorManager.mDynamicSensors m) (SensorManager.mDeathObserver m)
    (SensorManager.mOpPackageName m) (SensorManager.mDeviceId m)
    handle table (SensorManager.mSensorHandleToName m).

Section DirectChannel.

(** Constants of [sensors-base.h]. *)
Variables SENSOR_DIRECT_MEM_TYPE_ASHMEM SENSOR_DIRECT_MEM_TYPE_GRALLOC
  SENSOR_DIRECT_FMT_SENSORS_EVENT : Z.

(** The answer of the service to [createSensorDirectConnection], by
    package name, device id, size, type, format and resource handle: a
    connection, or null. *)
Definition CreateReply : Type := string -> Z -> Z -> Z -> Z -> Z -> option nat.

(** The answer of a connection to [configureChannel], by connection,
    sensor handle and rate level. *)
Definition ConfigureReply : Type := nat -> Z -> Z -> Z.

(** The four-argument [createDirectChannel].  The result is an error
    status, or the native handle. *)
Definition createDirectChannel (flag : bool) (w : World) (b : Binder)
    (m : SensorManager.t) (createSensorDirectConnection : CreateReply)
    (deviceId size channelType resourceHandle : Z)
  : Outcome ((status_t + Z) * SensorManager.t * Binder) :=
  obind (SensorManager.assertStateLocked flag w b m) (fun '(err, m1, b1) =>
    if negb (status_eqb err NO_ERROR) then Ret (inl NO_INIT, m1, b1)
    else if negb (channelType =? SENSOR_DIRECT_MEM_TYPE_ASHMEM)
            && negb (channelType =? SENSOR_DIRECT_MEM_TYPE_GRALLOC)
    then Ret (inl BAD_VALUE, m1, b1)
    else
      match createSensorDirectConnection (SensorManager.mOpPackageName m1)
              deviceId (size mod 2 ^ 32) channelType
              SENSOR_DIRECT_FMT_SENSORS_EVENT resourceHandle with
      | None => Ret (inl NO_MEMORY, m1, b1)
      | Some conn =>
          let nativeHandle := SensorManager.mDirectConnectionHandle m1 in
          Ret (inr nativeHandle,
               with_direct m1 (wrap32 (nativeHandle + 1))
                 (emplace nativeHandle conn (SensorManager.mDirectConnection m1)),
               b1)
      end).

Definition destroyDirectChannel (flag : bool) (w : World) (b : Binder)
    (m : SensorManager.t) (channelNativeHandle : Z)
  : Outcome (SensorManager.t * Binder) :=
  obind (SensorManager.assertStateLocked flag w b m) (fun '(err, m1, b1) =>
    if status_eqb err NO_ERROR
    then Ret (with_direct m1 (SensorManager.mDirectConnectionHandle m1)
                (delete channelNativeHandle (SensorManager.mDirectConnection m1)),
              b1)
    else Ret (m1, b1)).

(** The result is an error status of the manager, or what the connection
    returned. *)
Definition configureDirectChannel (flag : bool) (w : World) (b : Binder)
    (m : SensorManager.t) (configureChannel : ConfigureReply)
    (channelNativeHandle sensorHandle rateLevel : Z)
  : Outcome ((status_t + Z) * SensorManager.t * Binder) :=
  obind (SensorManager.assertStateLocked flag w b m) (fun '(err, m1, b1) =>
    if negb (status_eqb err NO_ERROR) then Ret (inl NO_INIT, m1, b1)
    else
      match SensorManager.mDirectConnection m1 !! channelNativeHandle with
      | None => Ret (inl BAD_VALUE, m1, b1)
      | Some conn => Ret (inr (configureChannel conn sensorHandle rateLevel), m1, b1)
      end).

(** What a client and the service do to the channels of one manager. *)
Inductive ChannelOp :=
| CreateDirectChannel (reply : CreateReply)
    (deviceId size channelType resourceHandle : Z)
| DestroyDirectChannel (channelNativeHandle : Z)
| ConfigureDirectChannel (reply : ConfigureReply)
    (channelNativeHandle sensorHandle rateLevel : Z)
| SensorManagerDied.

(** One operation; the result carries the native handle a successful
    creation returned. *)
Definition channel_step (flag : bool) (w : World) (op : ChannelOp)
    (m : SensorManager.t) (b : Binder)
  : Outcome (option Z * SensorManager.t * Binder) :=
  match op with
  | CreateDirectChannel reply deviceId size channelType resourceHandle =>
      obind (createDirectChannel flag w b m reply deviceId size channelType
               resourceHandle)
        (fun '(r, m1, b1) =>
           Ret (match r with inr h => Some h | inl _ => None end, m1, b1))
  | DestroyDirectChannel h =>
      obind (destroyDirectChannel flag w b m h)
        (fun '(m1, b1) => Ret (None, m1, b1))
  | ConfigureDirectChannel reply h sensorHandle rateLevel =>
      obind (configureDirectChannel flag w b m reply h sensorHandle rateLevel)
        (fun '(_, m1, b1) => Ret (None, m1, b1))
  | SensorManagerDied => Ret (None, SensorManager.sensorManagerDied m, b)
  end.

(** A sequence of operations, with the native handles returned, in order. *)
Fixpoint channel_run (flag : bool) (w : World) (ops : list ChannelOp)
    (m : SensorManager.t) (b : Binder)
  : Outcome (list Z * SensorManager.t * Binder) :=
  match ops with
  | [] => Ret ([], m, b)
  | op :: rest =>
      obind (channel_step flag w op m b) (fun '(h, m1, b1) =>
        obind (channel_run flag w rest m1 b1) (fun '(hs, m2, b2) =>
          Ret (match h with Some x => x :: hs | None => hs end, m2, b2)))
  end.

(** Every key of the table is below the counter. *)
Definition handles_below (m : SensorManager.t) : Prop :=
  forall h c, SensorManager.mDirectConnection m !! h = Some c ->
              h < SensorManager.mDirectConnectionHandle m.

Lemma assertStateLocked_no_error flag w b m st m' b' :
  SensorManager.assertStateLocked flag w b m = Ret (st, m', b') ->
  st = NO_ERROR.
Proof.
  unfold SensorManager.assertStateLocked.
  destruct (match SensorManager.mSensorServer m with
            | Some srv => _ | None => true end).
  - destruct (waitForSensorService w true (calls b)) as [[s0 written] k].
    destruct (match written with Some s => s | None => _ end); [|discriminate].
    intros [= <- _ _]. reflexivity.
  - intros [= <- _ _]. reflexivity.
Qed.

Lemma wrap32_small z : - 2 ^ 31 <= z <= INT32_MAX -> wrap32 z = z.
Proof.
  unfold wrap32, INT32_MAX. intros Hz. rewrite Z.mod_small; lia.
Qed.

Lemma createDirectChannel_cases flag w b m reply deviceId size channelType
    resourceHandle r m' b' :
  createDirectChannel flag w b m reply deviceId size channelType resourceHandle
  = Ret (r, m', b') ->
  exists st m1,
    SensorManager.assertStateLocked flag w b m = Ret (st, m1, b') /\
    ((r = inl BAD_VALUE /\ m' = m1 /\
      channelType <> SENSOR_DIRECT_MEM_TYPE_ASHMEM /\
      channelType <> SENSOR_DIRECT_MEM_TYPE_GRALLOC) \/
     (r = inl NO_MEMORY /\ m' = m1 /\
      (channelType = SENSOR_DIRECT_MEM_TYPE_ASHMEM \/
       channelType = SENSOR_DIRECT_MEM_TYPE_GRALLOC) /\
      reply (SensorManager.mOpPackageName m1) deviceId (size mod 2 ^ 32)
        channelType SENSOR_DIRECT_FMT_SENSORS_EVENT resourceHandle = None) \/
     (exists conn,
        r = inr (SensorManager.mDirectConnectionHandle m1) /\
        (channelType = SENSOR_DIRECT_MEM_TYPE_ASHMEM \/
         channelType = SENSOR_DIRECT_MEM_TYPE_GRALLOC) /\
        reply (SensorManager.mOpPackageName m1) deviceId (size mod 2 ^ 32)
          channelType SENSOR_DIRECT_FMT_SENSORS_EVENT resourceHandle
        = Some conn /\
        m' = with_direct m1
               (wrap32 (SensorManager.mDirectConnectionHandle m1 + 1))
               (emplace (SensorManager.mDirectConnectionHandle m1) conn
                  (SensorManager.mDirectConnection m1)))).
Proof.
  unfold createDirectChannel, obind.
  destruct (SensorManager.assertStateLocked flag w b m)
    as [|[[st m1] b1]] eqn:Ea; [discriminate|].
  rewrite (assertStateLocked_no_error _ _ _ _ _ _ _ Ea). cbn [status_eqb negb].
  assert (Htype : negb (channelType =? SENSOR_DIRECT_MEM_TYPE_ASHMEM)
                  && negb (channelType =? SENSOR_DIRECT_MEM_TYPE_GRALLOC) = false ->
                  channelType = SENSOR_DIRECT_MEM_TYPE_ASHMEM \/
                  channelType = SENSOR_DIRECT_MEM_TYPE_GRALLOC).
  { intros H. apply andb_false_iff in H as [H|H];
      apply negb_false_iff, Z.eqb_eq in H; tauto. }
  destruct (negb (channelType =? SENSOR_DIRECT_MEM_TYPE_ASHMEM)
            && negb (channelType =? SENSOR_DIRECT_MEM_TYPE_GRALLOC)) eqn:Et.
  - intros [= <- <- <-]. exists NO_ERROR, m1. split; [reflexivity|].
    left. apply andb_true_iff in Et as (E1 & E2).
    apply negb_true_iff, Z.eqb_neq in E1, E2. tauto.
  - destruct (reply _ _ _ _ _ _) as [conn|] eqn:Er.
    + intros [= <- <- <-]. exists NO_ERROR, m1. split; [reflexivity|].
      right. right. exists conn. auto.
    + intros [= <- <- <-]. exists NO_ERROR, m1. split; [reflexivity|].
      right. left. auto.
Qed.

(** X17: [createDirectChannel] never returns [NO_INIT].  When it fails,
    the channel type is neither of the two shared memory types
    ([BAD_VALUE]) or the service answered with a null connection
    ([NO_MEMORY]), and neither the table nor the handle counter has
    changed: a failed creation consumes no handle. *)
Theorem createDirectChannel_failure flag w b m reply deviceId size channelType
    resourceHandle e m' b' :
  createDirectChannel flag w b m reply deviceId size channelType resourceHandle
  = Ret (inl e, m', b') ->
  ((e = BAD_VALUE /\
    channelType <> SENSOR_DIRECT_MEM_TYPE_ASHMEM /\
    channelType <> SENSOR_DIRECT_MEM_TYPE_GRALLOC) \/
   (e = NO_MEMORY /\
    (channelType = SENSOR_DIRECT_MEM_TYPE_ASHMEM \/
     channelType = SENSOR_DIRECT_MEM_TYPE_GRALLOC))) /\
  SensorManager.mDirectConnection m' = SensorManager.mDirectConnection m /\
  SensorManager.mDirectConnectionHandle m'
  = SensorManager.mDirectConnectionHandle m.
Proof.
  intros H. apply createDirectChannel_cases in H as (st & m1 & Ea & Hcase).
  apply assertStateLocked_names in Ea as (_ & Ht & Hh & _).
  destruct Hcase as [(Hr & -> & H1 & H2) | [(Hr & -> & H1 & _) | (c & Hr & _)]].
  - injection Hr as ->. split; [left; auto|]. split; assumption.
  - injection Hr as ->. split; [right; auto|]. split; assumption.
  - discriminate.
Qed.

Lemma channel_step_counter flag w op m b h m1 b1 :
  channel_step flag w op m b = Ret (h, m1, b1) ->
  handles_below m ->
  SensorManager.mDirectConnectionHandle m < INT32_MAX ->
  - 2 ^ 31 <= SensorManager.mDirectConnectionHandle m ->
  handles_below m1 /\
  (forall x c, SensorManager.mDirectConnection m1 !! x = Some c ->
               SensorManager.mDirectConnection m !! x = Some c \/ h = Some x) /\
  match h with
  | Some x =>
      x = SensorManager.mDirectConnectionHandle m /\
      SensorManager.mDirectConnectionHandle m1 = x + 1 /\
      is_Some (SensorManager.mDirectConnection m1 !! x)
  | None =>
      SensorManager.mDirectConnectionHandle m1
      = SensorManager.mDirectConnectionHandle m
  end.
Proof.
  intros Hstep Hbelow Hmax Hmin.
  destruct op as [reply deviceId size channelType resourceHandle | x
                 | reply x sensorHandle rateLevel | ]; cbn in Hstep.
  - unfold obind in Hstep.
    destruct (createDirectChannel flag w b m reply deviceId size channelType
                resourceHandle) as [|[[r m2] b2]] eqn:Ec; [discriminate|].
    injection Hstep as <- <- <-.
    apply createDirectChannel_cases in Ec as (st & m0 & Ea & Hcase).
    apply assertStateLocked_names in Ea as (_ & Ht & Hh & _).
    destruct Hcase as [(-> & -> & _) | [(-> & -> & _) | (c & -> & _ & _ & ->)]].
    + split; [|split].
      * intros y c. rewrite Ht, Hh. apply Hbelow.
      * intros y c. rewrite Ht. auto.
      * exact Hh.
    + split; [|split].
      * intros y c. rewrite Ht, Hh. apply Hbelow.
      * intros y c. rewrite Ht. auto.
      * exact Hh.
    + assert (Hfresh : SensorManager.mDirectConnection m0
                       !! SensorManager.mDirectConnectionHandle m0 = None).
      { destruct (SensorManager.mDirectConnection m0
                  !! SensorManager.mDirectConnectionHandle m0) as [c0|] eqn:E;
          [|reflexivity].
        rewrite Ht, Hh in E. apply Hbelow in E. lia. }
      cbn. unfold emplace. rewrite Hfresh.
      rewrite wrap32_small by (unfold INT32_MAX in *; lia).
      split; [|split].
      * intros y c0. unfold handles_below. cbn.
        destruct (decide (y = SensorManager.mDirectConnectionHandle m0))
          as [->|Hne].
        -- lia.
        -- rewrite lookup_insert_ne by congruence. rewrite Ht, Hh.
           intros Hy. apply Hbelow in Hy. lia.
      * intros y c0.
        destruct (decide (y = SensorManager.mDirectConnectionHandle m0))
          as [->|Hne].
        -- auto.
        -- rewrite lookup_insert_ne by congruence. rewrite Ht. auto.
      * split; [exact Hh|]. split; [reflexivity|].
        rewrite lookup_insert_eq. eauto.
  - unfold obind, destroyDirectChannel in Hstep. unfold obind in Hstep.
    destruct (SensorManager.assertStateLocked flag w b m)
      as [|[[st m0] b0]] eqn:Ea; [discriminate|].
    rewrite (assertStateLocked_no_error _ _ _ _ _ _ _ Ea) in Hstep.
    cbn in Hstep. injection Hstep as <- <- <-.
    apply assertStateLocked_names in Ea as (_ & Ht & Hh & _).
    split; [|split]; cbn.
    + intros y c. unfold handles_below. cbn. intros Hy.
      apply lookup_delete_Some in Hy as (_ & Hy).
      rewrite Ht in Hy. rewrite Hh. apply (Hbelow y c Hy).
    + intros y c Hy. apply lookup_delete_Some in Hy as (_ & Hy).
      rewrite Ht in Hy. auto.
    + exact Hh.
  - unfold obind, configureDirectChannel in Hstep. unfold obind in Hstep.
    destruct (SensorManager.assertStateLocked flag w b m)
      as [|[[st m0] b0]] eqn:Ea; [discriminate|].
    rewrite (assertStateLocked_no_error _ _ _ _ _ _ _ Ea) in Hstep.
    cbn in Hstep.
    apply assertStateLocked_names in Ea as (_ & Ht & Hh & _).
    destruct (SensorManager.mDirectConnection m0 !! x);
      injection Hstep as <- <- <-.
    + split; [|split].
      * intros y c. rewrite Ht, Hh. apply Hbelow.
      * intros y c. rewrite Ht. auto.
      * exact Hh.
    + split; [|split].
      * intros y c. rewrite Ht, Hh. apply Hbelow.
      * intros y c. rewrite Ht. auto.
      * exact Hh.
  - injection Hstep as <- <- <-. split; [|split].
    + exact Hbelow.
    + intros y c. cbn. auto.
    + reflexivity.
Qed.

Lemma channel_run_handles flag w ops :
  forall m b hs m' b',
    channel_run flag w ops m b = Ret (hs, m', b') ->
    handles_below m ->
    - 2 ^ 31 <= SensorManager.mDirectConnectionHandle m ->
    SensorManager.mDirectConnectionHandle m + Z.of_nat (length ops)
    <= INT32_MAX ->
    handles_below m' /\
    NoDup hs /\
    (forall x, x ∈ hs ->
               SensorManager.mDirectConnectionHandle m <= x
               < SensorManager.mDirectConnectionHandle m') /\
    SensorManager.mDirectConnectionHandle m
    <= SensorManager.mDirectConnectionHandle m'
    <= SensorManager.mDirectConnectionHandle m + Z.of_nat (length ops) /\
    (forall x c, SensorManager.mDirectConnection m' !! x = Some c ->
                 SensorManager.mDirectConnection m !! x = Some c \/ x ∈ hs).
Proof.
  induction ops as [|op rest IH]; intros m b hs m' b' Hrun Hbelow Hmin Hmax.
  - injection Hrun as <- <- <-. cbn.
    split; [exact Hbelow|]. split; [constructor|].
    split; [intros x Hx; inversion Hx|]. split; [lia|]. auto.
  - cbn [channel_run] in Hrun. unfold obind in Hrun.
    destruct (channel_step flag w op m b) as [|[[h m1] b1]] eqn:Es;
      [discriminate|].
    destruct (channel_run flag w rest m1 b1) as [|[[hs1 m2] b2]] eqn:Er;
      [discriminate|].
    injection Hrun as <- <- <-.
    cbn [length] in Hmax.
    destruct (channel_step_counter _ _ _ _ _ _ _ _ Es Hbelow ltac:(lia) Hmin)
      as (Hbelow1 & Hkeys1 & Hh).
    assert (Hc1 : SensorManager.mDirectConnectionHandle m
                  <= SensorManager.mDirectConnectionHandle m1
                  <= SensorManager.mDirectConnectionHandle m + 1).
    { destruct h as [x|]; [destruct Hh as (-> & -> & _)|]; lia. }
    destruct (IH m1 b1 hs1 m2 b2 Er Hbelow1 ltac:(lia) ltac:(lia))
      as (Hbelow2 & Hnd & Hrange & Hc2 & Hkeys2).
    split; [exact Hbelow2|]. cbn [length].
    destruct h as [x|].
    + destruct Hh as (-> & Hx1 & _).
      split; [|split; [|split]].
      * constructor; [|exact Hnd].
        intros Hin. apply Hrange in Hin. lia.
      * intros y Hy. apply elem_of_cons in Hy as [->|Hy]; [lia|].
        apply Hrange in Hy. lia.
      * lia.
      * intros y c Hy. destruct (Hkeys2 y c Hy) as [Hy1|Hy1].
        -- destruct (Hkeys1 y c Hy1) as [Hy0|Hy0]; [auto|].
           injection Hy0 as <-. right. left.
        -- right. right. exact Hy1.
    + split; [exact Hnd|]. split; [|split].
      * intros y Hy. apply Hrange in Hy. lia.
      * lia.
      * intros y c Hy. destruct (Hkeys2 y c Hy) as [Hy1|Hy1]; [|auto].
        destruct (Hkeys1 y c Hy1) as [Hy0|Hy0]; [auto | discriminate].
Qed.

(** X18: native handles are never reused.  Over any sequence of channel
    creations, destructions, configurations and service deaths on a
    manager the constructor has built, short enough for the [int] counter
    not to overflow, the handles returned are pairwise different and at
    least 1, also after the channel of a handle was destroyed or the
    service died; every key left in the table is a handle that was
    returned. *)
Theorem native_handles_never_reused flag w b op dev m0 b0 ops hs m b' :
  SensorManager.construct flag w b op dev = Ret (m0, b0) ->
  channel_run flag w ops m0 b0 = Ret (hs, m, b') ->
  Z.of_nat (length ops) < INT32_MAX ->
  NoDup hs /\
  (forall x, x ∈ hs -> 1 <= x) /\
  (forall x c, SensorManager.mDirectConnection m !! x = Some c -> x ∈ hs).
Proof.
  intros Hc Hrun Hlen.
  assert (H0 : SensorManager.mDirectConnection m0 = ∅ /\
               SensorManager.mDirectConnectionHandle m0 = 1).
  { unfold SensorManager.construct, obind in Hc.
    destruct (SensorManager.assertStateLocked flag w b _)
      as [|[[st m1] b1]] eqn:Ea; [discriminate|].
    injection Hc as <- <-.
    apply assertStateLocked_names in Ea as (_ & Ht & Hh & _).
    split; assumption. }
  destruct H0 as (Ht & Hh).
  destruct (channel_run_handles flag w ops m0 b0 hs m b' Hrun)
    as (_ & Hnd & Hrange & _ & Hkeys).
  - intros x c. rewrite Ht, lookup_empty. discriminate.
  - rewrite Hh. lia.
  - rewrite Hh. lia.
  - split; [exact Hnd|]. split.
    + intros x Hx. apply Hrange in Hx. lia.
    + intros x c Hx. destruct (Hkeys x c Hx) as [H|H]; [|exact H].
      rewrite Ht, lookup_empty in H. discriminate.
Qed.

(** X19: a destroyed channel cannot be configured.  After
    [destroyDirectChannel] of a handle, [configureDirectChannel] on that
    handle returns [BAD_VALUE], whatever the connection would answer, and
    also when the handle never named a channel. *)
Theorem configure_after_destroy flag w b m h m1 b1 reply sensorHandle
    rateLevel r m2 b2 :
  destroyDirectChannel flag w b m h = Ret (m1, b1) ->
  configureDirectChannel flag w b1 m1 reply h sensorHandle rateLevel
  = Ret (r, m2, b2) ->
  r = inl BAD_VALUE.
Proof.
  unfold destroyDirectChannel, configureDirectChannel, obind.
  destruct (SensorManager.assertStateLocked flag w b m)
    as [|[[st m0] b0]] eqn:Ea; [discriminate|].
  rewrite (assertStateLocked_no_error _ _ _ _ _ _ _ Ea). cbn [status_eqb].
  intros [= <- <-].
  destruct (SensorManager.assertStateLocked flag w b0 _)
    as [|[[st' m3] b3]] eqn:Ea2; [discriminate|].
  rewrite (assertStateLocked_no_error _ _ _ _ _ _ _ Ea2). cbn [status_eqb negb].
  apply assertStateLocked_names in Ea2 as (_ & Ht & _).
  rewrite Ht. cbn. rewrite lookup_delete_eq.
  intros [= <- _ _]. reflexivity.
Qed.

(** X20: the table of direct channels survives the death of the service.
    After [sensorManagerDied], configuring a handle created before reaches
    the connection stored for it, and the manager returns what that
    connection answers. *)
Theorem configure_after_death flag w b m reply h conn sensorHandle rateLevel
    r m' b' :
  SensorManager.mDirectConnection m !! h = Some conn ->
  configureDirectChannel flag w b (SensorManager.sensorManagerDied m) reply h
    sensorHandle rateLevel = Ret (r, m', b') ->
  r = inr (reply conn sensorHandle rateLevel) /\
  SensorManager.mDirectConnection m' = SensorManager.mDirectConnection m.
Proof.
  intros Hh. unfold configureDirectChannel, obind.
  destruct (SensorManager.assertStateLocked flag w b _)
    as [|[[st m1] b1]] eqn:Ea; [discriminate|].
  rewrite (assertStateLocked_no_error _ _ _ _ _ _ _ Ea). cbn [status_eqb negb].
  apply assertStateLocked_names in Ea as (_ & Ht & _).
  cbn in Ht. rewrite Ht, Hh. intros [= <- <- _]. split; [reflexivity|exact Ht].
Qed.

End DirectChannel.

(** A manager as the member initialisers leave it. *)
Definition fresh_manager : SensorManager.t :=
  SensorManager.mk None None [] None [] false "pkg" 0 1 ∅ ∅.

(** A service that has no memory for a direct connection, and one that
    hands out connection 5. *)
Definition no_connection : CreateReply := fun _ _ _ _ _ _ => None.
Definition connection_five : CreateReply := fun _ _ _ _ _ _ => Some 5%nat.

Lemma createDirectChannel_failure_witness :
  exists m' b',
    createDirectChannel 1 2 1 true steady_world binder0 fresh_manager
      no_connection 0 4096 1 0 = Ret (inl NO_MEMORY, m', b') /\
    SensorManager.mDirectConnectionHandle m' = 1.
Proof.
  destruct (createDirectChannel 1 2 1 true steady_world binder0 fresh_manager
              no_connection 0 4096 1 0) as [|[[r m'] b']] eqn:E.
  - exfalso. vm_compute in E. discriminate.
  - destruct r as [e|h].
    + destruct (createDirectChannel_failure 1 2 1 _ _ _ _ _ _ _ _ _ _ _ _ E)
        as (Hcase & _ & Hh).
      exists m', b'. split; [|exact Hh].
      destruct Hcase as [(_ & H1 & _) | (-> & _)];
        [exfalso; apply H1; reflexivity | reflexivity].
    + exfalso. vm_compute in E. discriminate.
Defined.

(** Create, destroy the channel, create again, lose the service, create
    once more. *)
Definition channel_ops : list ChannelOp :=
  [CreateDirectChannel connection_five 0 4096 1 0;
   DestroyDirectChannel 1;
   CreateDirectChannel connection_five 0 4096 2 0;
   SensorManagerDied;
   CreateDirectChannel connection_five 0 4096 1 0].

(** The manager and binder state the constructor leaves. *)
Definition channel_start : SensorManager.t * Binder :=
  match SensorManager.construct true steady_world binder0 "pkg" 0 with
  | Ret x => x
  | Fatal => (fresh_manager, binder0)
  end.

Lemma native_handles_never_reused_witness :
  exists hs m b',
    channel_run 1 2 1 true steady_world channel_ops
      (fst channel_start) (snd channel_start) = Ret (hs, m, b') /\
    length hs = 3%nat /\ NoDup hs.
Proof.
  assert (E : SensorManager.construct true steady_world binder0 "pkg" 0
              = Ret (fst channel_start, snd channel_start)) by reflexivity.
  destruct (channel_run 1 2 1 true steady_world channel_ops
              (fst channel_start) (snd channel_start))
    as [|[[hs m] b']] eqn:R.
  - exfalso. vm_compute in R. discriminate.
  - assert (Hlen : Z.of_nat (length channel_ops) < INT32_MAX) by reflexivity.
    destruct (native_handles_never_reused 1 2 1 _ _ _ _ _ _ _ _ _ _ _
                E R Hlen) as (Hnd & _).
    exists hs, m, b'. split; [reflexivity|].
    split; [|exact Hnd].
    pose proof R as R'. vm_compute in R'. injection R' as <- _ _. reflexivity.
Defined.

Lemma configure_after_destroy_witness :
  exists m1 b1 m2 b2,
    destroyDirectChannel true steady_world binder0 fresh_manager 7
    = Ret (m1, b1) /\
    configureDirectChannel true steady_world b1 m1 (fun _ _ _ => 0) 7 1 2
    = Ret (inl BAD_VALUE, m2, b2).
Proof.
  destruct (destroyDirectChannel true steady_world binder0 fresh_manager 7)
    as [|[m1 b1]] eqn:E.
  - exfalso. vm_compute in E. discriminate.
  - destruct (configureDirectChannel true steady_world b1 m1 (fun _ _ _ => 0)
                7 1 2) as [|[[r m2] b2]] eqn:R.
    + exfalso. vm_compute in E. injection E as <- <-.
      vm_compute in R. discriminate.
    + exists m1, b1, m2, b2. split; [reflexivity|].
      pose proof (configure_after_destroy _ _ _ _ _ _ _ _ _ _ _ _ _ E R) as ->.
      exact R.
Defined.

(** A manager holding channel 1 on connection 5 of a service since lost. *)
Definition manager_with_channel : SensorManager.t :=
  SensorManager.mk None None [] None [] false "pkg" 0 2 {[1 := 5%nat]} ∅.

Lemma configure_after_death_witness :
  exists m' b',
    configureDirectChannel true steady_world binder0
      (SensorManager.sensorManagerDied manager_with_channel)
      (fun conn _ _ => Z.of_nat conn) 1 1 2
    = Ret (inr 5, m', b').
Proof.
  destruct (configureDirectChannel true steady_world binder0
              (SensorManager.sensorManagerDied manager_with_channel)
              (fun conn _ _ => Z.of_nat conn) 1 1 2)
    as [|[[r m'] b']] eqn:R.
  - exfalso. vm_compute in R. discriminate.
  - assert (Hh : SensorManager.mDirectConnection manager_with_channel !! 1
                 = Some 5%nat) by reflexivity.
    destruct (configure_after_death _ _ _ _ _ _ _ _ _ _ _ _ Hh R) as (-> & _).
    exists m', b'. reflexivity.
Defined.
